(** * nanotune: the device tuner (src/nanotune/device_tuner/tuner.py)

    A shallow embedding of the tuner's rollback scopes, of its settings
    overlay, of the normalisation and signal checks and of the two
    characterisation routines, with the properties the specification
    states about them.

    A voltage, a constant, a reading or a threshold is the rational the
    Python float denotes ([Q]); the normalisation of a signal is computed
    in binary64 arithmetic ([float64], with its rounding, its signed
    zeros, its infinities and NaN), the step count and the samples of a
    scan on the exact values. Gate objects live in an arena indexed by
    [nat]; a dict is a [gmap], or an association list where the
    iteration order is observable. Every routine is a function
    of the world it runs in and returns the world it leaves together with
    a value or the exception it raised.

    The second part embeds the data set the tuning stages load
    (src/nanotune/data/dataset.py): the metadata loader, the
    normalisation of a signal, the plot labels and the renaming of the
    variables. *)

From Stdlib Require Import QArith Qpower Qround Qabs Qminmax ZArith Lia Lqa
  Ascii.
From stdpp Require Import gmap strings list fin_maps.

Local Open Scope Q_scope.

(** ** Exceptions and results *)

(** A set command sent to a gate driver. *)
Inductive Cmd :=
| SetVoltage (g : nat) (v : Q)
| SetRange (g : nat) (r : Q * Q).

(** The exceptions the modelled code can raise. The first seven are
    Python's own; the last three come from the collaborators (a gate
    driver refusing a set command, a readout accessor failing, the
    single-sweep stage failing). *)
Inductive exn :=
| TypeError
| KeyError
| AttributeError
| NameError
| IndexError
| ValueError
| ZeroDivisionError
| DriverError (c : Cmd)
| ReadError (channel : string)
| StageError.

Inductive result (A : Type) :=
| Ok (a : A)
| Raise (e : exn).
Arguments Ok {A} a.
Arguments Raise {A} e.

(** ** Gates, device and tuner state *)

(** nanotune.device.gate.Gate, reduced to what the tuner touches:
    [dc_voltage] and [current_valid_range] are the two qcodes parameters
    it reads and sets, [safety_range] is read only. *)
Record Gate := mkGate {
  name : string;
  layout_id : Z;
  safety_range : Q * Q;
  dc_voltage : Q;
  current_valid_range : Q * Q;
}.

(** A value of the [data_settings] dict. *)
Inductive Setting :=
| SStr (s : string)
| SInt (n : Z)
| SNone
| SNorm (constants : gmap string (Q * Q)).

(** One entry of a TuningResult and the result dict a stage returns. *)
Record StageResult := mkStageResult {
  low_voltage : option Q;
  device_gates_status : list (string * Q * (Q * Q));
}.

Record Entry := mkEntry {
  entry_name : string;
  entry_success : bool;
  termination_reasons : list string;
  entry_result : StageResult;
  entry_comment : option string;
}.

Record TuningResult := mkTuningResult {
  result_device : string;
  entries : list Entry;
}.

(** Everything a tuner call can read or change: the gate objects, the
    driver (which set commands it refuses, and the commands sent to it so
    far, refused ones included), the device and the tuner. *)
Record World := mkWorld {
  gate : nat -> Gate;
  rejects : Cmd -> bool;
  trace : list Cmd;
  gates : list nat;
  device_name : string;
  readout_methods : list (string * bool);
  normalization_constants : gmap string (Q * Q);
  _data_settings : gmap string Setting;
  _fit_options : gmap string (gmap string Setting);
  classifiers : list string;
  tuningresults : gmap string (list TuningResult);
}.

Definition with_gate (f : nat -> Gate) (w : World) : World :=
  mkWorld f (rejects w) (trace w) (gates w) (device_name w)
    (readout_methods w) (normalization_constants w) (_data_settings w)
    (_fit_options w) (classifiers w) (tuningresults w).

Definition with_trace (t : list Cmd) (w : World) : World :=
  mkWorld (gate w) (rejects w) t (gates w) (device_name w)
    (readout_methods w) (normalization_constants w) (_data_settings w)
    (_fit_options w) (classifiers w) (tuningresults w).

Definition with_normalization_constants (c : gmap string (Q * Q)) (w : World)
  : World :=
  mkWorld (gate w) (rejects w) (trace w) (gates w) (device_name w)
    (readout_methods w) c (_data_settings w)
    (_fit_options w) (classifiers w) (tuningresults w).

Definition with_data_settings (s : gmap string Setting) (w : World) : World :=
  mkWorld (gate w) (rejects w) (trace w) (gates w) (device_name w)
    (readout_methods w) (normalization_constants w) s
    (_fit_options w) (classifiers w) (tuningresults w).

Definition with_tuningresults (t : gmap string (list TuningResult))
  (w : World) : World :=
  mkWorld (gate w) (rejects w) (trace w) (gates w) (device_name w)
    (readout_methods w) (normalization_constants w) (_data_settings w)
    (_fit_options w) (classifiers w) t.

(** ** The monad of tuner code: state that survives an exception *)

Definition Py (A : Type) : Type := World -> World * result A.

Definition ret {A} (a : A) : Py A := fun w => (w, Ok a).

Definition raise {A} (e : exn) : Py A := fun w => (w, Raise e).

Definition bind {A B} (m : Py A) (k : A -> Py B) : Py B :=
  fun w =>
    match m w with
    | (w1, Ok a) => k a w1
    | (w1, Raise e) => (w1, Raise e)
    end.

Notation "'do' x <- m ; k" := (bind m (fun x => k))
  (at level 10, x name, m at level 100, k at level 200).
Notation "m ;;; k" := (bind m (fun _ => k))
  (at level 100, k at level 200, right associativity).

(** [try: body finally: fin]. The final block runs on every exit of the
    body; when it raises, its exception replaces the body's outcome. *)
Definition try_finally {A} (body : Py A) (fin : Py unit) : Py A :=
  fun w =>
    match body w with
    | (w1, r) =>
        match fin w1 with
        | (w2, Ok _) => (w2, r)
        | (w2, Raise e) => (w2, Raise e)
        end
    end.

(** A [for] loop over a list with [enumerate], without [break]: the
    first exception ends it. *)
Fixpoint for_enumerate_from {A} (i : nat) (xs : list A)
  (f : nat -> A -> Py unit) : Py unit :=
  match xs with
  | [] => ret tt
  | x :: rest => f i x ;;; for_enumerate_from (S i) rest f
  end.

Definition for_enumerate {A} (xs : list A) (f : nat -> A -> Py unit)
  : Py unit :=
  for_enumerate_from 0 xs f.

(** ** Gate parameters *)

(** A qcodes parameter of a gate: [gate.p()] reads it, [gate.p(v)] sets
    it. The driver may refuse a set command; a refused command raises and
    changes nothing, and every command sent is appended to the trace. *)
Record GateParameter (V : Type) := mkGateParameter {
  pget : Gate -> V;
  pput : V -> Gate -> Gate;
  pcmd : nat -> V -> Cmd;
}.
Arguments pget {V} _ _.
Arguments pput {V} _ _ _.
Arguments pcmd {V} _ _ _.

Definition put_dc_voltage (v : Q) (g : Gate) : Gate :=
  mkGate (name g) (layout_id g) (safety_range g) v (current_valid_range g).

Definition put_current_valid_range (r : Q * Q) (g : Gate) : Gate :=
  mkGate (name g) (layout_id g) (safety_range g) (dc_voltage g) r.

Definition dc_voltage_parameter : GateParameter Q :=
  mkGateParameter Q dc_voltage put_dc_voltage SetVoltage.

Definition current_valid_range_parameter : GateParameter (Q * Q) :=
  mkGateParameter (Q * Q) current_valid_range put_current_valid_range SetRange.

Definition update_gate (g : nat) (f : Gate -> Gate) (gs : nat -> Gate)
  : nat -> Gate :=
  fun g' => if Nat.eqb g' g then f (gs g') else gs g'.

Definition parameter_get {V} (p : GateParameter V) (g : nat) : Py V :=
  fun w => (w, Ok (pget p (gate w g))).

Definition parameter_set {V} (p : GateParameter V) (g : nat) (v : V) : Py unit :=
  fun w =>
    let w1 := with_trace (trace w ++ [pcmd p g v]) w in
    if rejects w (pcmd p g v)
    then (w1, Raise (DriverError (pcmd p g v)))
    else (with_gate (update_gate g (pput p v) (gate w1)) w1, Ok tt).

(** ** Rollback scopes (tuner.py, lines 32-61) *)

(** The two context managers differ only in the parameter they save:
    [set_back_voltages] saves [gate.dc_voltage], [set_back_valid_ranges]
    saves [gate.current_valid_range]. On entry the values are read into a
    list; the block runs; on every exit the gates are set back by
    position, [gates[ig]] to [saved[ig]], in the order of [gates]. *)
Definition set_back {V A} (p : GateParameter V) (gs : list nat) (body : Py A)
  : Py A :=
  fun w =>
    let saved := map (fun g => pget p (gate w g)) gs in
    try_finally body
      (for_enumerate gs (fun ig g =>
         match saved !! ig with
         | Some v => parameter_set p g v
         | None => raise IndexError
         end)) w.

Definition set_back_voltages {A} (gs : list nat) (body : Py A) : Py A :=
  set_back dc_voltage_parameter gs body.

Definition set_back_valid_ranges {A} (gs : list nat) (body : Py A) : Py A :=
  set_back current_valid_range_parameter gs body.

(** ** Loops and small Python helpers *)

(** A [for] loop that carries the local variables it assigns. *)
Fixpoint for_fold {A St} (xs : list A) (s : St) (f : St -> A -> Py St)
  : Py St :=
  match xs with
  | [] => ret s
  | x :: rest => do s1 <- f s x; for_fold rest s1 f
  end.

(** The same with [enumerate]. *)
Fixpoint for_fold_enumerate_from {A St} (i : nat) (xs : list A) (s : St)
  (f : St -> nat -> A -> Py St) : Py St :=
  match xs with
  | [] => ret s
  | x :: rest => do s1 <- f s i x; for_fold_enumerate_from (S i) rest s1 f
  end.

Definition lift {A} (r : result A) : Py A := fun w => (w, r).

(** [t[i] = v] on a tuple: tuples are immutable, the assignment raises
    TypeError whatever the tuple, the index and the value. *)
Definition tuple_setitem {A} (t : A * A) (i : nat) (v : A) : Py unit :=
  raise TypeError.

(** [dict.fromkeys(keys, v)]. *)
Definition fromkeys {K V} `{Countable K} (keys : list K) (v : V) : gmap K V :=
  list_to_map (map (fun k => (k, v)) keys).

(** [d[k]] on a dict kept as an association list in insertion order. *)
Fixpoint assoc {V} (k : string) (d : list (string * V)) : option V :=
  match d with
  | [] => None
  | (k', v) :: rest => if String.eqb k k' then Some v else assoc k rest
  end.

(** [np.min] and [np.max] of a two-element range. *)
Definition range_min (r : Q * Q) : Q := Qmin (fst r) (snd r).
Definition range_max (r : Q * Q) : Q := Qmax (fst r) (snd r).

(** ** Device primitives the tuner calls *)

Definition get_safety_range (g : nat) : Py (Q * Q) :=
  fun w => (w, Ok (safety_range (gate w g))).

(** Modelled from the spec: [Device.all_gates_to_lowest] and
    [Device.all_gates_to_highest] are not in the sources. Section 4.2 of
    the specification gives [all_to_extreme(device, lowest | highest)]:
    every gate of the device is driven to that extreme of its safety
    range, in the order of [device.gates]. *)
Definition all_gates_to_lowest : Py unit :=
  fun w =>
    for_enumerate (gates w) (fun _ g =>
      do r <- get_safety_range g;
      parameter_set dc_voltage_parameter g (range_min r)) w.

Definition all_gates_to_highest : Py unit :=
  fun w =>
    for_enumerate (gates w) (fun _ g =>
      do r <- get_safety_range g;
      parameter_set dc_voltage_parameter g (range_max r)) w.

(** Modelled from the spec: [Device.get_gate_status] is not in the
    sources; section 4.5 has the result payload carry a snapshot of the
    current gate states. *)
Definition get_gate_status : Py (list (string * Q * (Q * Q))) :=
  fun w =>
    (w, Ok (map (fun g => (name (gate w g), dc_voltage (gate w g),
                           current_valid_range (gate w g))) (gates w))).

(** [device.normalization_constants()] reads the constants the device
    holds. What [device.normalization_constants(value)] does with the
    value is the device's, and the class is not in the sources: the
    setter is a parameter of the routine that calls it. *)
Definition get_normalization_constants : Py (gmap string (Q * Q)) :=
  fun w => (w, Ok (normalization_constants w)).

(** ** update_normalization_constants (tuner.py, lines 143-168) *)

(** One of the two loops over the readout methods: read the channel,
    then assign the reading to position [i] of the channel's pair. The
    pairs are the tuple [(0.0, 1.0)] that [dict.fromkeys] shared out, so
    the assignment is [tuple_setitem]. [reading] is the collaborator
    [device.measurement_parameters[read_meth].get()]. *)
Definition record_extremum (reading : string -> World -> result Q)
  (keys : list string) (constants : gmap string (Q * Q)) (i : nat)
  : Py unit :=
  for_enumerate keys (fun _ read_meth =>
    do val <- (fun w => (w, reading read_meth w));
    match constants !! read_meth with
    | Some csts => tuple_setitem csts i val
    | None => raise KeyError
    end).

(** The routine itself. Line 168 hands the dict to the device,
    [device.normalization_constants(normalization_constants)]; the class
    Device is not in the sources, so what its setter does with the dict
    is the parameter [set_normalization_constants]. *)
Definition update_normalization_constants
  (set_normalization_constants : gmap string (Q * Q) -> Py unit)
  (reading : string -> World -> result Q) : Py unit :=
  fun w =>
    let keys := map fst (readout_methods w) in
    let constants := fromkeys keys (0, 1) in
    (set_back_voltages (gates w)
       (all_gates_to_lowest ;;;
        record_extremum reading keys constants 0 ;;;
        all_gates_to_highest ;;;
        record_extremum reading keys constants 1) ;;;
     set_normalization_constants constants) w.

(** ** The data settings and their overlay (tuner.py, lines 375-403) *)

(** [get_data_settings] returns the dict itself; [update_data_settings]
    is [dict.update]: the new entries are merged into the dict, entries
    under other keys stay. *)
Definition get_data_settings : Py (gmap string Setting) :=
  fun w => (w, Ok (_data_settings w)).

Definition update_data_settings (new_settings : gmap string Setting)
  : Py unit :=
  fun w => (with_data_settings (new_settings ∪ _data_settings w) w, Ok tt).

(** [self.data_settings()] calls the getter and [self.data_settings(v)]
    the setter, which is [update_data_settings] (the parameter's
    [set_cmd]). The deep copy of the original is the value of the map. *)
Definition device_specific_settings {A} (body : Py A) : Py A :=
  do original_data_settings <- get_data_settings;
  do constants <- get_normalization_constants;
  update_data_settings {[ "normalization_constants" := SNorm constants ]} ;;;
  try_finally body (update_data_settings original_data_settings).

(** ** Floats (binary64) *)

(** A Python float, which is also an element of a float64 array: a
    finite value, given by the rational it denotes ([Finite 0] is +0.0),
    -0.0, an infinity or NaN. *)
Inductive float64 :=
| Finite (q : Q)
| NegZero
| PosInf
| NegInf
| NaN.

Definition pow2 (e : Z) : Q := 2 ^ e.

(** The exponent of a rational that is not zero:
    [pow2 (ilog2 q) <= |q| < pow2 (ilog2 q + 1)]. *)
Definition ilog2 (q : Q) : Z :=
  let e := (Z.log2 (Z.abs (Qnum q)) - Z.log2 (Zpos (Qden q)))%Z in
  if Qle_bool (pow2 e) (Qabs q) then e else (e - 1)%Z.

(** The nearest integer, a tie going to the even one. *)
Definition round_half_even (q : Q) : Z :=
  let f := Qfloor q in
  match Qcompare (q - inject_Z f) (1 # 2) with
  | Lt => f
  | Gt => (f + 1)%Z
  | Eq => if Z.even f then f else (f + 1)%Z
  end.

(** The float an exact result is rounded to (IEEE 754, round to nearest,
    ties to even): 53 significant bits, a multiple of 2^-1074 among the
    subnormals; a result that rounds to 2^1024 or beyond is an infinity,
    and one that rounds to zero keeps its sign. *)
Definition round64 (q : Q) : float64 :=
  if Qeq_bool q 0 then Finite 0
  else
    let ulp := pow2 (Z.max (ilog2 q - 52) (-1074)) in
    let m := round_half_even (q / ulp) in
    let r := inject_Z m * ulp in
    if Qle_bool (pow2 1024) (Qabs r)
    then (if Qle_bool 0 q then PosInf else NegInf)
    else if (m =? 0)%Z
         then (if Qle_bool 0 q then Finite 0 else NegZero)
         else Finite (Qred r).

(** The voltages, constants, readings and thresholds of the tuner are
    floats, written as rationals: a rational stands for the float
    nearest to it, which is the rational itself when it is a float. *)
Definition as_float (q : Q) : float64 := round64 q.

Definition is_zero (x : float64) : bool :=
  match x with
  | Finite q => Qeq_bool q 0
  | NegZero => true
  | PosInf | NegInf | NaN => false
  end.

(** The sign bit (of a NaN it plays no part). *)
Definition negative (x : float64) : bool :=
  match x with
  | Finite q => negb (Qle_bool 0 q)
  | NegZero | NegInf => true
  | PosInf | NaN => false
  end.

Definition finite_value (x : float64) : option Q :=
  match x with
  | Finite q => Some q
  | NegZero => Some 0
  | PosInf | NegInf | NaN => None
  end.

Definition signed_zero (neg : bool) : float64 :=
  if neg then NegZero else Finite 0.

Definition signed_inf (neg : bool) : float64 :=
  if neg then NegInf else PosInf.

(** [x - y]. An exact zero is +0.0, unless it is [-0.0 - 0.0]. *)
Definition fsub (x y : float64) : float64 :=
  match x, y with
  | NaN, _ | _, NaN => NaN
  | _, _ =>
      match finite_value x, finite_value y with
      | Some p, Some q =>
          if Qeq_bool (p - q) 0
          then signed_zero (match x with
                            | NegZero => negb (negative y)
                            | _ => false
                            end)
          else round64 (p - q)
      | Some _, None => signed_inf (negb (negative y))
      | None, Some _ => x
      | None, None => if Bool.eqb (negative x) (negative y) then NaN else x
      end
  end.

(** [x / y] as numpy divides: a division by zero raises nothing, it
    gives an infinity, or NaN for 0/0. Python's own [/] on floats is the
    same except that it raises ZeroDivisionError when [y] is a zero. *)
Definition fdiv (x y : float64) : float64 :=
  match x, y with
  | NaN, _ | _, NaN => NaN
  | _, _ =>
      let neg := xorb (negative x) (negative y) in
      match finite_value x, finite_value y with
      | Some p, Some q =>
          if is_zero y
          then (if is_zero x then NaN else signed_inf neg)
          else if is_zero x then signed_zero neg
               else round64 (p / q)
      | Some _, None => signed_zero neg
      | None, Some _ => signed_inf neg
      | None, None => NaN
      end
  end.

(** [x < y] and [x > y]; every comparison with NaN is false, and the two
    zeros are equal. *)
Definition flt (x y : float64) : bool :=
  match x, y with
  | NaN, _ | _, NaN => false
  | _, _ =>
      match finite_value x, finite_value y with
      | Some p, Some q => negb (Qle_bool q p)
      | Some _, None => negb (negative y)
      | None, Some _ => negative x
      | None, None => negative x && negb (negative y)
      end
  end.

Definition fgt (x y : float64) : bool := flt y x.

(** ** getting_signal (tuner.py, lines 202-225) *)

(** [self.<attr>] for a name the Tuner does not have. [Tuner.__init__]
    sets [classifiers], [tuningresults], [_data_settings] and
    [_fit_options] and registers the parameters [data_settings],
    [fit_options] and [setpoint_settings]; the class body adds its
    methods. Two names the methods read are none of these:
    [normalization_constants] (line 210; a parameter of the device, read
    as [device.normalization_constants()] on line 383) and [top_barrier]
    (line 367). Looking either up on the tuner raises AttributeError. *)
Definition getattr_Tuner {A} (attr : string) : Py A :=
  raise AttributeError.

(** One turn of the loop over the readout methods to check. A method
    whose entry is not a [qc.Parameter] is skipped. *)
Definition check_readout (reading : string -> World -> result Q)
  (norm_consts : gmap string (Q * Q)) (thresholds_normalized : gmap string Q)
  (have_signal : bool) (read_type : string) : Py bool :=
  fun w =>
    match assoc read_type (readout_methods w) with
    | None => (w, Raise KeyError)
    | Some false => (w, Ok have_signal)
    | Some true =>
        match norm_consts !! read_type with
        | None => (w, Raise KeyError)
        | Some csts =>
            match reading read_type w with
            | Raise e => (w, Raise e)
            | Ok raw =>
                let difference :=
                  fsub (as_float (snd csts)) (as_float (fst csts)) in
                if is_zero difference
                then (w, Raise ZeroDivisionError)
                else
                  let signal :=
                    fdiv (fsub (as_float raw) (as_float (fst csts)))
                      difference in
                  match thresholds_normalized !! read_type with
                  | None => (w, Raise KeyError)
                  | Some threshold =>
                      (w, Ok (if fgt signal (as_float threshold)
                              then true else have_signal))
                  end
            end
        end
    end.

(** The loop of lines 211-225, given the constants. *)
Definition getting_signal_loop (reading : string -> World -> result Q)
  (norm_consts : gmap string (Q * Q)) (thresholds_normalized : gmap string Q)
  (readout_method_to_check : option (list string)) : Py bool :=
  fun w =>
    let to_check :=
      match readout_method_to_check with
      | Some l => l
      | None => map fst (readout_methods w)
      end in
    for_fold to_check false
      (check_readout reading norm_consts thresholds_normalized) w.

Definition getting_signal (reading : string -> World -> result Q)
  (thresholds_normalized : gmap string Q)
  (readout_method_to_check : option (list string)) : Py bool :=
  do norm_consts <- getattr_Tuner "normalization_constants";
  getting_signal_loop reading norm_consts thresholds_normalized
    readout_method_to_check.

(** ** The fit options (tuner.py, lines 390-396) *)

(** [set_fit_options] and [get_fit_options] touch the attribute
    [_fit_options] only; they are given as functions of its value.
    [set_fit_options] is [dict.update], as [update_data_settings] is. *)
Definition set_fit_options {V} (new_fit_options _fit_options : gmap string V)
  : gmap string V :=
  new_fit_options ∪ _fit_options.

Definition get_fit_options {V} (_fit_options : gmap string V)
  : gmap string V :=
  _fit_options.

(** ** The single-sweep stage and the tuning result *)

(** What the tuner hands to [GateCharacterization1D]: the data settings
    as they are at that moment, the one gate to sweep, the
    [update_settings] flag and the fit options of the pinchoff fit. The
    other arguments (readout methods, classifier, measurement options)
    are passed through unchanged and play no part below. *)
Record StageConfig := mkStageConfig {
  data_settings : gmap string Setting;
  gates_to_sweep : list nat;
  update_settings : bool;
  fit_options : gmap string Setting;
}.

(** [stage.run_stage()]: success, termination reasons, result. *)
Definition StageOut : Type := bool * list string * StageResult.

(** Modelled from the spec: the class TuningResult is not in the
    sources. By section 4.7, [add_result(name, success,
    termination_reasons, payload, comment)] appends one entry, and
    nothing edits or removes an entry. *)
Definition add_result (t : TuningResult) (entry : string) (success : bool)
  (reasons : list string) (payload : StageResult) (comment : option string)
  : TuningResult :=
  mkTuningResult (result_device t)
    (entries t ++ [mkEntry entry success reasons payload comment]).

Definition gate_name (g : nat) : Py string :=
  fun w => (w, Ok (name (gate w g))).

Definition has_pinchoff (w : World) : bool :=
  bool_decide ("pinchoff" ∈ classifiers w).

(** Two of the arguments the stage is built with are subscripts of a
    dict, evaluated each time a stage is built:
    [self.classifiers['pinchoff']] and
    [self.fit_options()['pinchofffit']]. A missing key raises KeyError. *)
Definition pinchoff_classifier : Py unit :=
  fun w => if has_pinchoff w then (w, Ok tt) else (w, Raise KeyError).

Definition pinchoff_fit_options : Py (gmap string Setting) :=
  fun w =>
    match get_fit_options (_fit_options w) !! "pinchofffit" with
    | Some options => (w, Ok options)
    | None => (w, Raise KeyError)
    end.

(** The sweep of one gate as both routines write it: build the stage on
    the current data settings, the classifier and the fit options, run
    it, attach the gate status to the result, and add the entry.
    [entry_gate] evaluates [gate.name] of the f-string, after the stage
    has run. *)
Definition run_and_record (run_stage : StageConfig -> Py StageOut)
  (update : bool) (swept : nat) (entry_gate : Py string)
  (comment : option string) (t : TuningResult)
  : Py (bool * StageResult * TuningResult) :=
  do settings <- get_data_settings;
  pinchoff_classifier ;;;
  do options <- pinchoff_fit_options;
  do out <- run_stage (mkStageConfig settings [swept] update options);
  do status <- get_gate_status;
  do gname <- entry_gate;
  let result := mkStageResult (low_voltage (snd out)) status in
  ret (fst (fst out), result,
       add_result t ("characterization_" +:+ gname) (fst (fst out))
         (snd (fst out)) result comment).

(** ** characterize_gates (tuner.py, lines 228-275) *)

Definition append_tuningresult (t : TuningResult) : Py unit :=
  fun w =>
    let earlier := default [] (tuningresults w !! device_name w) in
    (with_tuningresults
       (<[device_name w := earlier ++ [t]]> (tuningresults w)) w, Ok tt).

(** [str] of a list, as an f-string formats it: the [repr] of the
    elements between brackets. *)
Definition format_list (reprs : list string) : string :=
  "[" +:+ String.concat ", " reprs +:+ "]".

(** The default comment is [f'Characterizing {gates}.']. The [repr] of a
    gate is qcodes', which is not in the sources: it is the parameter
    [gate_repr]. *)
Definition characterize_gates (gate_repr : Gate -> string)
  (run_stage : StageConfig -> Py StageOut)
  (gs : list nat) (use_safety_ranges : bool) (comment : option string)
  : Py TuningResult :=
  fun w =>
    let comment :=
      match comment with
      | Some c => c
      | None =>
          "Characterizing " +:+
          format_list (map (fun g => gate_repr (gate w g)) gs) +:+ "."
      end in
    if negb (has_pinchoff w) then (w, Raise KeyError)
    else
      (do tuningresult <-
         set_back_valid_ranges gs
           ((if use_safety_ranges
             then for_enumerate gs (fun _ g =>
                    do r <- get_safety_range g;
                    parameter_set current_valid_range_parameter g r)
             else ret tt) ;;;
            device_specific_settings
              (for_fold gs (mkTuningResult (device_name w) [])
                 (fun t g =>
                    do r <- run_and_record run_stage true g (gate_name g)
                              (Some comment) t;
                    ret (snd r))));
       append_tuningresult tuningresult ;;;
       ret tuningresult) w.

(** ** measure_initial_ranges (tuner.py, lines 277-373) *)

(** [n_steps = abs(v_range[0] - v_range[1]) / voltage_step]: a float
    quotient, used as it is. *)
Definition n_steps (v_range : Q * Q) (voltage_step : Q) : result Q :=
  if Qeq_bool voltage_step 0 then Raise ZeroDivisionError
  else Ok (Qabs (fst v_range - snd v_range) / voltage_step).

(** [np.linspace(start, stop, num)]: [num] samples from [start] to
    [stop], both ends included. numpy is not part of the sources; how it
    reads the count is the parameter [np_index]. *)
Definition linspace (np_index : Q -> result nat) (start stop num : Q)
  : result (list Q) :=
  match np_index num with
  | Raise e => Raise e
  | Ok n =>
      Ok (match n with
          | O => []
          | S O => [start]
          | S (S _) =>
              map (fun i : nat =>
                     Qred (start + inject_Z (Z.of_nat i) *
                             ((stop - start) / inject_Z (Z.of_nat (n - 1)))))
                (seq 0 n)
          end)
  end.

(** numpy from 1.18 on reads the count with [operator.index]: a Python
    float, which [n_steps] always is, is refused with TypeError. *)
Definition np_index_strict (num : Q) : result nat := Raise TypeError.

(** numpy before 1.18 took [int(num)] (with a deprecation warning): the
    quotient is truncated, and a negative count is a ValueError. *)
Definition np_index_truncating (num : Q) : result nat :=
  let n := if Qle_bool 0 num then Qfloor num else Qceiling num in
  if (n <? 0)%Z then Raise ValueError else Ok (Z.to_nat n).

(** The value of the local [last_gate]: [None] at first, then the
    position [gid] of a gate in [gates_to_sweep] (line 329 stores the
    index, not the gate). [PGate] is a gate object. *)
Inductive PyVal :=
| PNone
| PInt (n : nat)
| PGate (g : nat).

(** The locals the forward scan assigns. [gate_variable] is the inner
    loop's variable [gate], unbound until the loop has run once; line 360
    reads it after the loop. *)
Record ScanLocals := mkScanLocals {
  skip_gates : gmap Z bool;
  last_gate : PyVal;
  gate_variable : option nat;
  tuningresult : TuningResult;
}.

(** [all(skip_gates.values())]. *)
Definition all_values (d : gmap Z bool) : bool :=
  forallb (fun kv => snd kv) (map_to_list d).

(** One turn of the inner loop, lines 307-329. [skip_gates] was keyed by
    layout id on line 294 and is read by position [gid] here. *)
Definition forward_sweep (run_stage : StageConfig -> Py StageOut)
  (st : ScanLocals) (gid : nat) (g : nat) : Py ScanLocals :=
  match skip_gates st !! Z.of_nat gid with
  | None => raise KeyError
  | Some true =>
      ret (mkScanLocals (skip_gates st) (last_gate st) (Some g)
             (tuningresult st))
  | Some false =>
      do r <- run_and_record run_stage false g (gate_name g) None
                (tuningresult st);
      if fst (fst r)
      then ret (mkScanLocals (<[Z.of_nat gid := true]> (skip_gates st))
                  (PInt gid) (Some g) (snd r))
      else ret (mkScanLocals (skip_gates st) (last_gate st) (Some g) (snd r))
  end.

(** The outer loop, lines 304-332, with its [break]. *)
Fixpoint forward_steps (run_stage : StageConfig -> Py StageOut)
  (gate_to_set : nat) (to_sweep : list nat) (v_steps : list Q)
  (st : ScanLocals) : Py ScanLocals :=
  match v_steps with
  | [] => ret st
  | voltage :: rest =>
      parameter_set dc_voltage_parameter gate_to_set voltage ;;;
      do st1 <- for_fold_enumerate_from 0 to_sweep st
                  (forward_sweep run_stage);
      if all_values (skip_gates st1) then ret st1
      else forward_steps run_stage gate_to_set to_sweep rest st1
  end.

(** [last_gate.safety_range()] and [last_gate.dc_voltage(v)]: an
    attribute of an int or of None does not exist. *)
Definition last_gate_safety_range (last : PyVal) : Py (Q * Q) :=
  match last with
  | PGate g => get_safety_range g
  | PInt _ | PNone => raise AttributeError
  end.

Definition last_gate_set_voltage (last : PyVal) (v : Q) : Py unit :=
  match last with
  | PGate g => parameter_set dc_voltage_parameter g v
  | PInt _ | PNone => raise AttributeError
  end.

(** [gate.name] on line 360, [gate] being the forward loop's variable. *)
Definition leaked_gate_name (gate_variable : option nat) : Py string :=
  match gate_variable with
  | Some g => gate_name g
  | None => raise NameError
  end.

(** The loop of the reverse probe, lines 344-369. On a success line 365
    reads the feature, line 366 rounds it (float arithmetic, which
    raises nothing), and line 367 reads [self.top_barrier], which has no
    value: the rest of line 367 and line 368 are never evaluated. *)
Fixpoint reverse_steps (run_stage : StageConfig -> Py StageOut)
  (gate_to_set : nat) (last : PyVal) (gate_variable : option nat)
  (v_steps : list Q) (init_range : option Q * option Q) (t : TuningResult)
  : Py ((option Q * option Q) * TuningResult) :=
  match v_steps with
  | [] => ret (init_range, t)
  | voltage :: rest =>
      last_gate_set_voltage last voltage ;;;
      do r <- run_and_record run_stage false gate_to_set
                (leaked_gate_name gate_variable) None t;
      if fst (fst r)
      then
        do L <- match low_voltage (snd (fst r)) with
                | Some L => ret L
                | None => raise KeyError
                end;
        do top_barrier <- getattr_Tuner (A := Empty_set) "top_barrier";
        match top_barrier with end
      else
        reverse_steps run_stage gate_to_set last gate_variable rest
          init_range (snd r)
  end.

(** Lines 337-373: the reverse probe and the return, as a function of
    the locals that are live on line 337. *)
Definition reverse_probe (run_stage : StageConfig -> Py StageOut)
  (np_index : Q -> result nat) (gate_to_set : nat) (last : PyVal)
  (gate_variable : option nat) (steps : Q)
  (init_range : option Q * option Q) (t : TuningResult)
  : Py ((option Q * option Q) * TuningResult) :=
  all_gates_to_highest ;;;
  do v_range <- last_gate_safety_range last;
  do probed <-
    device_specific_settings
      (do v_steps <- lift (linspace np_index (range_max v_range)
                             (range_min v_range) steps);
       reverse_steps run_stage gate_to_set last gate_variable v_steps
         init_range t);
  all_gates_to_highest ;;;
  ret probed.

(** Lines 286-333: the checks, the forward scan, and the assignment of
    the lower bound to the tuple [init_range_gate_to_set]. *)
Definition forward_scan (run_stage : StageConfig -> Py StageOut)
  (np_index : Q -> result nat) (gate_to_set : nat) (to_sweep : list nat)
  (v_range : Q * Q) (steps : Q) : Py ScanLocals :=
  fun w =>
    let layout_ids := map (fun g => layout_id (gate w g)) to_sweep in
    device_specific_settings
      (do v_steps <- lift (linspace np_index (range_max v_range)
                             (range_min v_range) steps);
       forward_steps run_stage gate_to_set to_sweep v_steps
         (mkScanLocals (fromkeys layout_ids false) PNone None
            (mkTuningResult (device_name w) []))) w.

Definition measure_initial_ranges (run_stage : StageConfig -> Py StageOut)
  (np_index : Q -> result nat) (gate_to_set : nat) (to_sweep : list nat)
  (voltage_step : Q) : Py ((option Q * option Q) * TuningResult) :=
  fun w =>
    if negb (has_pinchoff w) then (w, Raise KeyError)
    else
      (all_gates_to_highest ;;;
       do v_range <- get_safety_range gate_to_set;
       do steps <- lift (n_steps v_range voltage_step);
       do st <- forward_scan run_stage np_index gate_to_set to_sweep
                  v_range steps;
       do lower <- parameter_get dc_voltage_parameter gate_to_set;
       tuple_setitem (None, None) 0 (Some lower) ;;;
       reverse_probe run_stage np_index gate_to_set (last_gate st)
         (gate_variable st) steps (None, None) (tuningresult st)) w.

(** ** Setting several gates (tuner.py, lines 170-200) *)

(** [update_gate_voltages] and [update_gate_ranges] are one loop on the
    two parameters: the gate at position [gid] of [gates] is set to
    [new_values[gid]]. The subscript is evaluated before the set command
    is sent; past the end of the list it raises IndexError. *)
Definition update_gate_parameter {V} (p : GateParameter V) (gs : list nat)
  (new_values : list V) : Py unit :=
  for_enumerate gs (fun gid g =>
    match new_values !! gid with
    | Some v => parameter_set p g v
    | None => raise IndexError
    end).

Definition update_gate_voltages (gs : list nat) (new_voltages : list Q)
  : Py unit :=
  update_gate_parameter dc_voltage_parameter gs new_voltages.

Definition update_gate_ranges (gs : list nat) (new_valid_ranges : list (Q * Q))
  : Py unit :=
  update_gate_parameter current_valid_range_parameter gs new_valid_ranges.

(** [clear_gate_ranges]: every gate whose position [ig] in [gates] is not
    among [skip_gate_ids] gets its safety range as its valid range. *)
Definition clear_gate_ranges (gs : list nat) (skip_gate_ids : list Z)
  : Py unit :=
  for_enumerate gs (fun ig g =>
    if bool_decide (Z.of_nat ig ∈ skip_gate_ids) then ret tt
    else
      do r <- get_safety_range g;
      parameter_set current_valid_range_parameter g r).

(** * nanotune: the data set (src/nanotune/data/dataset.py) *)

(** The class [Dataset]. Its exceptions, the values its metadata can
    hold and the floats of its arrays are kept apart from the tuner's. *)
Module Dataset.

(** The exceptions the modelled methods can raise. [JSONDecodeError] is
    a subclass of ValueError; neither is a RuntimeError or a TypeError. *)
Inductive error :=
| KeyError
| TypeError
| AttributeError
| IndexError
| ValueError
| RuntimeError
| AssertionError
| NotImplementedError
| JSONDecodeError.

Inductive outcome (A : Type) :=
| Return (a : A)
| Raised (e : error).
Arguments Return {A} a.
Arguments Raised {A} e.

Definition and_then {A B} (m : outcome A) (k : A -> outcome B) : outcome B :=
  match m with
  | Return a => k a
  | Raised e => Raised e
  end.

(** ** Python values and dicts *)

(** What [json.loads] and a metadata column can produce: [None], a
    bool, a number, a str, a list, a dict. A dict keeps its entries in
    insertion order; the keys of a JSON object are strs. *)
#[warnings="-register-all"]
Inductive value :=
| VNone
| VBool (b : bool)
| VNum (q : Q)
| VStr (s : string)
| VList (l : list value)
| VDict (d : list (string * value)).

Section Dicts.
Context {K V : Type} (eqb : K -> K -> bool).

(** [d[k]] when the key is there. *)
Fixpoint dict_get (k : K) (d : list (K * V)) : option V :=
  match d with
  | [] => None
  | (k', v) :: rest => if eqb k k' then Some v else dict_get k rest
  end.

(** [d[k] = v]: an entry under an equal key keeps its place and its key
    and gets the value; else the entry is added at the end. *)
Fixpoint dict_set (k : K) (v : V) (d : list (K * V)) : list (K * V) :=
  match d with
  | [] => [(k, v)]
  | (k', v') :: rest =>
      if eqb k k' then (k', v) :: rest else (k', v') :: dict_set k v rest
  end.

(** The dict after [d.pop(k)]: the entries under the other keys. *)
Definition dict_pop (k : K) (d : list (K * V)) : list (K * V) :=
  List.filter (fun kv => negb (eqb k (fst kv))) d.

(** [d.update(new)], and [dict(pairs)] as the update of the empty dict. *)
Definition dict_update (new d : list (K * V)) : list (K * V) :=
  fold_left (fun acc kv => dict_set (fst kv) (snd kv) acc) new d.
End Dicts.

(** [a == b] for two hashable values, as a dict compares its keys:
    [True == 1] and [False == 0]. *)
Definition key_eqb (a b : value) : bool :=
  match a, b with
  | VNone, VNone => true
  | VBool x, VBool y => Bool.eqb x y
  | VNum p, VNum q => Qeq_bool p q
  | VBool x, VNum q | VNum q, VBool x => Qeq_bool q (if x then 1 else 0)
  | VStr s, VStr t => String.eqb s t
  | _, _ => false
  end.

(** Lists and dicts cannot be keys. *)
Definition hashable (k : value) : bool :=
  match k with
  | VList _ | VDict _ => false
  | _ => true
  end.

(** [dict(pairs)] on top of the entries [d]; an unhashable key raises
    TypeError. *)
Fixpoint dict_of_pairs (pairs d : list (value * value))
  : outcome (list (value * value)) :=
  match pairs with
  | [] => Return d
  | (k, v) :: rest =>
      if hashable k then dict_of_pairs rest (dict_set key_eqb k v d)
      else Raised TypeError
  end.

(** [dict(zip(keys, values))]. *)
Definition dict_of_zip (keys values : list value)
  : outcome (list (value * value)) :=
  dict_of_pairs (combine keys values) [].

(** [obj[k]] for a str [k]: only a dict can be subscripted by a str. *)
Definition getitem (obj : value) (k : string) : outcome value :=
  match obj with
  | VDict d =>
      match assoc k d with
      | Some v => Return v
      | None => Raised KeyError
      end
  | _ => Raised TypeError
  end.

(** [k in obj] for a str [k]: a key of a dict, an element of a list, a
    substring of a str; anything else is not iterable. *)
Definition contains (obj : value) (k : string) : outcome bool :=
  match obj with
  | VDict d => Return (bool_decide (is_Some (assoc k d)))
  | VList l => Return (existsb (key_eqb (VStr k)) l)
  | VStr s => Return (bool_decide (is_Some (String.index 0 k s)))
  | _ => Raised TypeError
  end.

(** ** The attributes set by the loader *)

Record state := mkState {
  _normalization_constants : list (string * value);
  _snapshot : value;
  _nt_metadata : value;
  device_name : value;
  readout_methods : list (value * value);
  quality : option Z;
  ml_label : list string;
}.

(** The property [features] (lines 121-127). *)
Definition features (self : state) : outcome value :=
  and_then (contains (_nt_metadata self) "features") (fun present =>
    if present then getitem (_nt_metadata self) "features"
    else Return (VDict [])).

(** ** _load_metadata_from_qcodes (lines 163-224) *)

(** [old_readout_methods], lines 21-24, in the order of the literal. *)
Definition old_readout_methods : list (string * string) :=
  [("dc_current", "transport"); ("dc_sensor", "sensing")]%string.

(** Lines 164-166. *)
Definition default_constants : list (string * value) :=
  map (fun key => (key, VList [VNum 0; VNum 1]))
    ["transport"; "rf"; "sensing"]%string.

(** Lines 182-183, for one pair of [old_readout_methods]:
    [if old_key in nm.keys(): nm[new_key] = nm.pop(old_key)]. *)
Definition rename_legacy (nm : list (string * value))
  (old_key new_key : string) : list (string * value) :=
  match assoc old_key nm with
  | Some v => dict_set String.eqb new_key v (dict_pop String.eqb old_key nm)
  | None => nm
  end.

(** Lines 179-186. A KeyError (no constants in the metadata) leaves the
    defaults; subscripting metadata that is no dict raises TypeError and
    [nm.keys()] on constants that are no dict raises AttributeError,
    neither of which is caught. [nm] is the dict inside the metadata: the
    renaming shows in [_nt_metadata] too. Returns the constants and the
    metadata. *)
Definition merge_constants (constants : list (string * value))
  (nt_metadata : value) : outcome (list (string * value) * value) :=
  match getitem nt_metadata "normalization_constants" with
  | Raised KeyError => Return (constants, nt_metadata)
  | Raised e => Raised e
  | Return (VDict nm) =>
      let renamed :=
        fold_left (fun acc pair => rename_legacy acc (fst pair) (snd pair))
          old_readout_methods nm in
      Return (dict_update String.eqb renamed constants,
              match nt_metadata with
              | VDict md =>
                  VDict (dict_set String.eqb "normalization_constants"
                           (VDict renamed) md)
              | other => other
              end)
  | Return _ => Raised AttributeError
  end.

(** [int(v)]. How Python reads an int from a str is [int_of_str]
    ([None]: ValueError); a float is truncated towards zero. *)
Definition py_int (int_of_str : string -> option Z) (v : value) : outcome Z :=
  match v with
  | VNum q => Return (if Qle_bool 0 q then Qfloor q else Qceiling q)
  | VBool b => Return (if b then 1 else 0)%Z
  | VStr s =>
      match int_of_str s with
      | Some z => Return z
      | None => Raised ValueError
      end
  | VNone | VList _ | VDict _ => Raised TypeError
  end.

Section Loader.
(** [json.loads] on a str ([None]: JSONDecodeError), [int] on a str,
    [nt.meta_tag], and the two entries of [nt.config] the module reads:
    [default_readout_methods], taken to be a list of names (line 207
    slices it), and [LABELS], the keys of a dict. *)
Variable json_loads : string -> option value.
Variable int_of_str : string -> option Z.
Variable meta_tag : string.
Variable default_readout_methods : list string.
Variable LABELS : list string.

(** [qc_dataset.get_metadata] and the names of [raw_data.data_vars]. *)
Variable get_metadata : string -> outcome value.
Variable data_vars : list string.

(** [json.loads(x)]: anything but a str is a TypeError. *)
Definition loads (x : value) : outcome value :=
  match x with
  | VStr s =>
      match json_loads s with
      | Some v => Return v
      | None => Raised JSONDecodeError
      end
  | _ => Raised TypeError
  end.

(** Lines 170-173 and 174-177:
    [try: target = json.loads(qc_dataset.get_metadata(tag))]
    [except (RuntimeError, TypeError): pass]. *)
Definition load_or_keep (tag : string) (current : value) : outcome value :=
  match and_then (get_metadata tag) loads with
  | Return v => Return v
  | Raised RuntimeError | Raised TypeError => Return current
  | Raised e => Raised e
  end.

(** Lines 188-192. *)
Definition load_device_name (nt_metadata : value) : outcome value :=
  match getitem nt_metadata "device_name" with
  | Raised KeyError => Return (VStr "noname_device")
  | other => other
  end.

(** Lines 194-209. A dict that is not empty is kept; anything else is
    replaced by [dict(zip(methods, read_params))]. *)
Definition load_readout_methods (nt_metadata : value)
  : outcome (list (value * value)) :=
  and_then
    (match getitem nt_metadata "readout_methods" with
     | Raised KeyError => Return (VDict [])
     | other => other
     end)
    (fun readout_methods =>
       let read_params := map VStr data_vars in
       match readout_methods with
       | VDict (entry :: rest) =>
           Return (map (fun kv => (VStr (fst kv), snd kv)) (entry :: rest))
       | VStr s => dict_of_zip [VStr s] read_params
       | VList methods => dict_of_zip methods read_params
       | _ =>
           dict_of_zip
             (map VStr (take (length data_vars) default_readout_methods))
             read_params
       end).

(** Lines 211-215. *)
Definition load_quality : outcome (option Z) :=
  and_then (get_metadata "good") (fun quality =>
    match quality with
    | VNone => Return None
    | v => and_then (py_int int_of_str v) (fun z => Return (Some z))
    end).

(** Lines 217-224. *)
Fixpoint load_labels (labels : list string) (ml_label : list string)
  : outcome (list string) :=
  match labels with
  | [] => Return ml_label
  | label :: rest =>
      if String.eqb label "good" then load_labels rest ml_label
      else
        and_then (get_metadata label) (fun lbl =>
          let lbl := match lbl with VNone => VNum 0 | v => v end in
          and_then (py_int int_of_str lbl) (fun n =>
            load_labels rest
              (if (n =? 1)%Z then ml_label ++ [label] else ml_label)))
  end.

(** The attributes after the call, or the exception that ended it. *)
Definition _load_metadata_from_qcodes : outcome state :=
  and_then (load_or_keep "snapshot" (VDict [])) (fun snapshot =>
  and_then (load_or_keep meta_tag (VDict [])) (fun loaded =>
  and_then (merge_constants default_constants loaded) (fun merged =>
  and_then (load_device_name (snd merged)) (fun name =>
  and_then (load_readout_methods (snd merged)) (fun methods =>
  and_then load_quality (fun quality =>
  and_then (load_labels LABELS []) (fun labels =>
  Return (mkState (fst merged) snapshot (snd merged) name methods quality
            labels)))))))).
End Loader.

(** ** _normalize_data (lines 262-278) *)

(** [np.max] and [np.min] of a non-empty array, NaN being contagious.
    Of two zeros either may come back: they compare equal. *)
Definition fmax (a b : float64) : float64 :=
  match a, b with
  | NaN, _ | _, NaN => NaN
  | _, _ => if flt a b then b else a
  end.

Definition fmin (a b : float64) : float64 :=
  match a, b with
  | NaN, _ | _, NaN => NaN
  | _, _ => if flt b a then b else a
  end.

(** The method reads two attributes, given here at the types the class
    declares for them ([Dict[str, List[float]]] and
    [Tuple[float, float]]); [signal] holds the elements of the array,
    whatever its shape. It returns the normalized array, together with
    whether the warning of line 277 was logged. The arithmetic is
    numpy's, which raises nothing; [np.max] of an empty array raises
    ValueError. *)
Definition _normalize_data
  (normalization_constants : list (string * list float64))
  (_normalization_tolerances : float64 * float64) (signal : list float64)
  (signal_type : string) : outcome (list float64 * bool) :=
  match assoc signal_type normalization_constants with
  | None => Raised KeyError
  | Some constants =>
      match constants !! 0%nat with
      | None => Raised IndexError
      | Some minv =>
          match constants !! 1%nat with
          | None => Raised IndexError
          | Some maxv =>
              let normalized_sig :=
                map (fun x => fdiv (fsub x minv) (fsub maxv minv)) signal in
              match normalized_sig with
              | [] => Raised ValueError
              | first :: rest =>
                  Return
                    (normalized_sig,
                     fgt (fold_left fmax rest first)
                       (snd _normalization_tolerances)
                     || flt (fold_left fmin rest first)
                          (fst _normalization_tolerances))
              end
          end
      end
  end.

(** ** get_plot_label (lines 129-149) *)

(** [default_coord_names], lines 17-20. *)
Definition default_coord_names (kind : string) : list string :=
  if String.eqb kind "voltage" then ["voltage_x"; "voltage_y"]%string
  else if String.eqb kind "frequency" then ["frequency_x"; "frequency_y"]%string
  else [].

(** [s.replace("_", " ")]. *)
Fixpoint replace_underscores (s : string) : string :=
  match s with
  | EmptyString => EmptyString
  | String c rest =>
      String (if Ascii.eqb c "_"%char then " "%char else c)
        (replace_underscores rest)
  end.

(** What the method reads of [self.data[readout_method]]: its name, what
    [data.unit] finds ([None]: AttributeError) and, for each coordinate,
    the attributes of the coordinate. *)
Record DataArray := mkDataArray {
  name : string;
  unit : option string;
  coords : list (string * list (string * string));
}.

(** [seq[i]] for an index that is not negative. *)
Definition index {A} (l : list A) (i : Z) : outcome A :=
  match l !! Z.to_nat i with
  | Some a => Return a
  | None => Raised IndexError
  end.

Definition lookup_key {A} (k : string) (d : list (string * A)) : outcome A :=
  match assoc k d with
  | Some a => Return a
  | None => Raised KeyError
  end.

Definition get_plot_label (dimensions : list (string * Z))
  (data : list (string * DataArray)) (readout_method : string) (axis : Z)
  (power_spect : bool) : outcome string :=
  and_then (lookup_key readout_method dimensions) (fun curr_dim =>
    if (curr_dim <? axis)%Z then Raised AssertionError
    else
      and_then (lookup_key readout_method data) (fun data =>
        if (axis =? 0)%Z || ((axis =? 1)%Z && (1 <? curr_dim)%Z)
        then
          if power_spect
          then
            and_then (index (default_coord_names "frequency") axis)
              (fun n => Return (replace_underscores n))
          else
            and_then (index (default_coord_names "voltage") axis) (fun n =>
            and_then (lookup_key n (coords data)) (fun coord =>
            lookup_key "label" coord))
        else
          if power_spect
          then Return (replace_underscores
                         ("power spectrum " +:+ name data))
          else
            match unit data with
            | None => Raised AttributeError
            | Some ut =>
                Return (replace_underscores
                          (name data +:+ " [" +:+ ut +:+ "]"))
            end)).

(** ** _rename_xarray_variables (lines 252-260) *)

(** Lines 254-258: the renaming handed to [xarray.Dataset.rename] on
    line 260. [depends_on old_n] is [self.raw_data[old_n].depends_on],
    the setpoints of a variable in order. *)
Fixpoint rename_coordinates (c_i : nat) (depends : list string)
  (new_names_all : list (string * string)) : outcome (list (string * string)) :=
  match depends with
  | [] => Return new_names_all
  | old_crd :: rest =>
      and_then (index (default_coord_names "voltage") (Z.of_nat c_i))
        (fun n =>
           rename_coordinates (S c_i) rest
             (dict_set String.eqb old_crd n new_names_all))
  end.

Fixpoint rename_all (depends_on : string -> outcome (list string))
  (old_names : list string) (new_names_all : list (string * string))
  : outcome (list (string * string)) :=
  match old_names with
  | [] => Return new_names_all
  | old_n :: rest =>
      and_then (depends_on old_n) (fun depends =>
      and_then (rename_coordinates 0 depends new_names_all) (fun renamed =>
      rename_all depends_on rest renamed))
  end.

Definition _rename_xarray_variables
  (readout_methods : list (string * string))
  (depends_on : string -> outcome (list string))
  : outcome (list (string * string)) :=
  let new_names :=
    fold_left (fun acc kv => dict_set String.eqb (snd kv) (fst kv) acc)
      readout_methods [] in
  rename_all depends_on (map fst new_names) new_names.

End Dataset.

(** * Vocabulary of the properties *)

(** A run of [m] leaves the part [proj] of the world as it found it,
    whatever the outcome. *)
Definition unchanged {X A} (proj : World -> X) (m : Py A) : Prop :=
  forall w, proj (fst (m w)) = proj w.

(** From a world that satisfies [I], [m] returns a value that satisfies
    [post], in a world that satisfies [I] again. *)
Definition returns {A} (I : World -> Prop) (m : Py A) (post : A -> Prop)
  : Prop :=
  forall w, I w -> I (fst (m w)) /\ exists a, snd (m w) = Ok a /\ post a.



(** The driver accepts every command. *)
Definition accepting (w : World) : Prop := forall c, rejects w c = false.

(** The position of the first element of a list that satisfies [P]. *)
Fixpoint first_index {A} (P : A -> bool) (l : list A) : option nat :=
  match l with
  | [] => None
  | x :: rest => if P x then Some O else option_map S (first_index P rest)
  end.

(** The dict [skip_gates] holds exactly the positions [0 .. k-1], the
    flag of position [j] being [F j]. *)
Definition flags_are (k : nat) (F : nat -> bool) (d : gmap Z bool) : Prop :=
  forall z : Z,
    d !! z = if decide (0 <= z < Z.of_nat k)%Z
             then Some (F (Z.to_nat z)) else None.

(** Whether the gate at position [j] of [to_sweep] shows its signature
    when the driving gate is at [v]. *)
Definition response_at (responds : Q -> nat -> bool) (to_sweep : list nat)
  (v : Q) (j : nat) : bool :=
  match to_sweep !! j with
  | Some g => responds v g
  | None => false
  end.

(** The voltage commands of a trace, in order. *)
Definition voltage_sets (t : list Cmd) : list (nat * Q) :=
  flat_map (fun c => match c with
                     | SetVoltage g v => [(g, v)]
                     | SetRange _ _ => []
                     end) t.

(** The gates of [gs] whose position, counted from [i], is not among
    [skip_gate_ids], in the order of the list. *)
Fixpoint unskipped_from (i : nat) (skip_gate_ids : list Z) (gs : list nat)
  : list nat :=
  match gs with
  | [] => []
  | g :: rest =>
      if bool_decide (Z.of_nat i ∈ skip_gate_ids)
      then unskipped_from (S i) skip_gate_ids rest
      else g :: unskipped_from (S i) skip_gate_ids rest
  end.

(** The tuner has what a stage is built with: a pinchoff classifier and
    fit options for the pinchoff fit. *)
Definition equipped (w : World) : Prop :=
  has_pinchoff w = true /\ is_Some (_fit_options w !! "pinchofffit").

(** The driver accepts every command, the tuner is equipped and the gates
    are named as in [w]. *)
Definition named_as (w : World) (w' : World) : Prop :=
  accepting w' /\ equipped w'
  /\ forall g, name (gate w' g) = name (gate w g).

(** The test of lines 218-219 on a reading [raw], with the constants
    [(minv, maxv)] and the threshold [th]. *)
Definition above_threshold (raw minv maxv th : Q) : bool :=
  fgt (fdiv (fsub (as_float raw) (as_float minv))
         (fsub (as_float maxv) (as_float minv)))
    (as_float th).

(** ** Vocabulary for the data set *)

(** What [round64] rounds a positive rational to, before it checks the
    range. *)
Definition rounded (q : Q) : Q :=
  let ulp := pow2 (Z.max (ilog2 q - 52) (-1074)) in
  inject_Z (round_half_even (q / ulp)) * ulp.

(** * Sample inputs *)

(** A device with three gates, each with safety range [-2, 0], sitting
    at -1 with its valid range narrowed to [-3/2, -1/2], and one readout
    channel. The driver accepts every command. *)
Definition sample_gates (g : nat) : Gate :=
  mkGate (match g with
          | O => "top_barrier"
          | S O => "left_barrier"
          | _ => "plunger"
          end)
    (Z.of_nat g) (-2, 0) (-1) (-(3 # 2), -(1 # 2)).

(** The fit options [Tuner.__init__] sets when it is given none, for the
    two fits of the docstring: every fit has the empty dict. *)
Definition sample_fit_options : gmap string (gmap string Setting) :=
  fromkeys ["pinchofffit"; "dotfit"] ∅.

Definition sample_world : World :=
  mkWorld sample_gates (fun _ => false) [] [0; 1; 2]%nat "device"
    [("dc_current", true)] {[ "dc_current" := (0, 1) ]}
    {[ "db_name" := SStr "experiments.db" ]} sample_fit_options
    ["pinchoff"] ∅.

(** The driver of one gate refuses every set command. *)
Definition refuses_gate (g0 : nat) (c : Cmd) : bool :=
  match c with
  | SetVoltage g _ | SetRange g _ => Nat.eqb g g0
  end.

Definition stuck_world (g0 : nat) : World :=
  mkWorld sample_gates (refuses_gate g0) [] [0; 1; 2]%nat "device"
    [("dc_current", true)] {[ "dc_current" := (0, 1) ]}
    {[ "db_name" := SStr "experiments.db" ]} sample_fit_options
    ["pinchoff"] ∅.

(** A block that moves two gates, widens a range, and then raises before
    its last command. *)
Definition sample_block : Py unit :=
  parameter_set dc_voltage_parameter 0 (-(3 # 2)) ;;;
  parameter_set dc_voltage_parameter 1 (-(1 # 4)) ;;;
  parameter_set current_valid_range_parameter 1 (-2, 0) ;;;
  (raise StageError : Py unit) ;;;
  parameter_set dc_voltage_parameter 2 0.

(** A device whose setter replaces the constants it holds. *)
Definition replace_constants (c : gmap string (Q * Q)) : Py unit :=
  fun w => (with_normalization_constants c w, Ok tt).

(** A [repr] of a gate. *)
Definition sample_repr (g : Gate) : string := "<Gate: " +:+ name g +:+ ">".

(** A readout whose value follows the voltage of gate 0. *)
Definition sample_reading (channel : string) (w : World) : result Q :=
  Ok (dc_voltage (gate w 0) + 3).

(** A stage that never sees the signature, one that always does and
    reports the feature [-5], and one that sees it from a given voltage
    of a given gate downwards. None of them touches the world. *)
Definition never_pinches (c : StageConfig) : Py StageOut :=
  ret (false, ["no pinchoff"], mkStageResult None []).

Definition always_pinches (c : StageConfig) : Py StageOut :=
  ret (true, [], mkStageResult (Some (-5)) []).

Definition pinches_below (g : nat) (v : Q) (c : StageConfig) : Py StageOut :=
  fun w =>
    if Qle_bool (dc_voltage (gate w g)) v
    then (w, Ok (true, [], mkStageResult (Some (-(1 # 2))) []))
    else (w, Ok (false, ["no pinchoff"], mkStageResult None [])).

(** Metadata of a sample run. [sample_json_loads] and
    [sample_int_of_str] are [json.loads] and [int] on the few strs the
    samples hold. *)
Definition sample_json_loads (s : string) : option Dataset.value :=
  if String.eqb s "[]" then Some (Dataset.VList [])
  else if String.eqb s "{}" then Some (Dataset.VDict [])
  else None.

Definition sample_int_of_str (s : string) : option Z :=
  if String.eqb s "1" then Some 1%Z
  else if String.eqb s "0" then Some 0%Z
  else None.

Definition sample_labels : list string :=
  ["pinchoff"; "singledot"; "doubledot"; "dotregime"; "good"].

Definition sample_get_metadata (tag : string) : Dataset.outcome Dataset.value :=
  if String.eqb tag "nanotune_metadata"
  then Dataset.Return (Dataset.VStr "[]")
  else if String.eqb tag "pinchoff" then Dataset.Return (Dataset.VNum 1)
  else if String.eqb tag "doubledot"
       then Dataset.Return (Dataset.VStr "1")
       else if String.eqb tag "dotregime"
            then Dataset.Return (Dataset.VNum 0)
            else Dataset.Return Dataset.VNone.

Definition no_metadata (tag : string) : Dataset.outcome Dataset.value :=
  Dataset.Return Dataset.VNone.

(** * Properties *)

(** ** The monad *)

Lemma bind_ok {A B} (m : Py A) (k : A -> Py B) w w1 a :
  m w = (w1, Ok a) -> bind m k w = k a w1.
Proof. unfold bind. intros ->. reflexivity. Qed.

Lemma bind_raise {A B} (m : Py A) (k : A -> Py B) w w1 e :
  m w = (w1, Raise e) -> bind m k w = (w1, Raise e).
Proof. unfold bind. intros ->. reflexivity. Qed.

Lemma for_enumerate_from_app {A} (xs ys : list A) f i w :
  for_enumerate_from i (xs ++ ys) f w =
  (for_enumerate_from i xs f ;;;
   for_enumerate_from (i + length xs) ys f) w.
Proof.
  revert i w. induction xs as [|x xs IH]; intros i w; simpl.
  - unfold bind, ret. rewrite Nat.add_0_r. reflexivity.
  - unfold bind in *. destruct (f i x w) as [w1 [[]|e]]; [|reflexivity].
    rewrite IH.
    replace (i + S (length xs))%nat with (S i + length xs)%nat by lia.
    reflexivity.
Qed.

(** ** Setting a gate parameter *)

Section GateParameters.
Context {V : Type} (p : GateParameter V).

Lemma parameter_set_accepted g v w :
  rejects w (pcmd p g v) = false ->
  parameter_set p g v w =
  (with_gate (update_gate g (pput p v) (gate w))
     (with_trace (trace w ++ [pcmd p g v]) w), Ok tt).
Proof. unfold parameter_set. intros ->. reflexivity. Qed.

Lemma parameter_set_rejected g v w :
  rejects w (pcmd p g v) = true ->
  parameter_set p g v w =
  (with_trace (trace w ++ [pcmd p g v]) w,
   Raise (DriverError (pcmd p g v))).
Proof. unfold parameter_set. intros ->. reflexivity. Qed.

Hypothesis get_put : forall v g, pget p (pput p v g) = v.

(** The restoring loop of a rollback scope, when the driver accepts
    every command: each gate of the list ends with its saved value,
    the commands go out in the order of the list, and nothing else
    changes. [saved] is the list of saved values, read by position. *)
Lemma restore_accepted (old : nat -> V) (saved : list V) (gs : list nat) :
  forall i w,
    (forall k g, gs !! k = Some g -> saved !! (i + k)%nat = Some (old g)) ->
    (forall g, In g gs -> rejects w (pcmd p g (old g)) = false) ->
    exists w',
      for_enumerate_from i gs (fun ig g =>
        match saved !! ig with
        | Some v => parameter_set p g v
        | None => raise IndexError
        end) w = (w', Ok tt)
      /\ trace w' = trace w ++ map (fun g => pcmd p g (old g)) gs
      /\ rejects w' = rejects w
      /\ (forall g, In g gs -> pget p (gate w' g) = old g)
      /\ (forall g, ~ In g gs -> gate w' g = gate w g).
Proof.
  induction gs as [|g rest IH]; intros i w Hsaved Hacc; simpl.
  - exists w. unfold ret. rewrite app_nil_r. repeat split; tauto.
  - pose proof (Hsaved 0%nat g eq_refl) as H0. rewrite Nat.add_0_r in H0.
    rewrite H0. unfold bind at 1.
    rewrite parameter_set_accepted by (apply Hacc; now left).
    set (w1 := with_gate _ _).
    destruct (IH (S i) w1) as (w' & Hrun & Htr & Hrej & Hin & Hout).
    + intros k g' Hk. replace (S i + k)%nat with (i + S k)%nat by lia.
      apply Hsaved. exact Hk.
    + intros g' Hg'. apply Hacc. now right.
    + exists w'. rewrite Hrun. split; [reflexivity|].
      split; [rewrite Htr; simpl; rewrite <- app_assoc; reflexivity|].
      split; [rewrite Hrej; reflexivity|].
      split.
      * intros g' [->|Hg']; [|now apply Hin].
        destruct (in_dec Nat.eq_dec g' rest) as [Hr|Hr]; [now apply Hin|].
        rewrite (Hout g' Hr). simpl. unfold update_gate.
        rewrite Nat.eqb_refl. apply get_put.
      * intros g' Hg'. rewrite Hout by tauto. simpl. unfold update_gate.
        destruct (Nat.eqb_spec g' g) as [->|]; [|reflexivity].
        exfalso. apply Hg'. now left.
Qed.

Lemma saved_lookup (old : nat -> V) (gs : list nat) k g :
  gs !! k = Some g -> map old gs !! k = Some (old g).
Proof.
  intros H. change (map old gs) with (old <$> gs).
  rewrite list_lookup_fmap, H. reflexivity.
Qed.

(** A rollback scope whose restoring commands are all accepted. *)
Lemma set_back_accepted {A} gs (body : Py A) w :
  (forall g, In g gs ->
     rejects (fst (body w)) (pcmd p g (pget p (gate w g))) = false) ->
  snd (set_back p gs body w) = snd (body w)
  /\ (forall g, In g gs ->
        pget p (gate (fst (set_back p gs body w)) g) = pget p (gate w g))
  /\ trace (fst (set_back p gs body w)) =
     trace (fst (body w)) ++ map (fun g => pcmd p g (pget p (gate w g))) gs.
Proof.
  intros Hacc. unfold set_back, try_finally, for_enumerate.
  destruct (body w) as [w1 r] eqn:Hb. simpl in Hacc.
  destruct (restore_accepted (fun g => pget p (gate w g))
              (map (fun g => pget p (gate w g)) gs) gs 0%nat w1)
    as (w' & Hrun & Htr & _ & Hin & _).
  - intros k g Hk. simpl.
    now apply (saved_lookup (fun g => pget p (gate w g))).
  - exact Hacc.
  - rewrite Hrun. simpl. auto.
Qed.

(** The restoring loop stops at the first command the driver refuses:
    the gates before it are set back, the refused command is the last
    one sent, and every gate outside that prefix is as it was. *)
Lemma set_back_rejected {A} pre g post (body : Py A) w :
  (forall g', In g' pre ->
     rejects (fst (body w)) (pcmd p g' (pget p (gate w g'))) = false) ->
  rejects (fst (body w)) (pcmd p g (pget p (gate w g))) = true ->
  snd (set_back p (pre ++ g :: post) body w) =
    Raise (DriverError (pcmd p g (pget p (gate w g))))
  /\ trace (fst (set_back p (pre ++ g :: post) body w)) =
     trace (fst (body w))
     ++ map (fun g' => pcmd p g' (pget p (gate w g'))) pre
     ++ [pcmd p g (pget p (gate w g))]
  /\ (forall g', In g' pre ->
        pget p (gate (fst (set_back p (pre ++ g :: post) body w)) g') =
        pget p (gate w g'))
  /\ (forall g', ~ In g' pre ->
        gate (fst (set_back p (pre ++ g :: post) body w)) g' =
        gate (fst (body w)) g').
Proof.
  intros Hacc Hrej.
  set (old := fun g => pget p (gate w g)).
  set (saved := map old (pre ++ g :: post)).
  destruct (body w) as [w1 r] eqn:Hb. simpl in Hacc, Hrej.
  destruct (restore_accepted old saved pre 0%nat w1)
    as (w' & Hrun & Htr & Hrj & Hin & Hout).
  { intros k g' Hk. simpl. subst saved. apply saved_lookup.
    now apply lookup_app_l_Some. }
  { exact Hacc. }
  assert (Hs : saved !! length pre = Some (old g)).
  { subst saved. apply saved_lookup.
    rewrite lookup_app_r by lia. now rewrite Nat.sub_diag. }
  assert (Heq : set_back p (pre ++ g :: post) body w =
                (with_trace (trace w' ++ [pcmd p g (old g)]) w',
                 Raise (DriverError (pcmd p g (old g))))).
  { unfold set_back, try_finally, for_enumerate. rewrite Hb.
    fold old. fold saved. rewrite for_enumerate_from_app.
    unfold bind at 1. rewrite Hrun. simpl. rewrite Hs. unfold bind.
    rewrite parameter_set_rejected by (rewrite Hrj; exact Hrej).
    reflexivity. }
  rewrite Heq. simpl. rewrite Htr, <- app_assoc. auto.
Qed.
End GateParameters.

Lemma dc_voltage_get_put v g :
  pget dc_voltage_parameter (pput dc_voltage_parameter v g) = v.
Proof. reflexivity. Qed.

Lemma current_valid_range_get_put r g :
  pget current_valid_range_parameter
    (pput current_valid_range_parameter r g) = r.
Proof. reflexivity. Qed.

(** ** Rollback scopes *)

(** C1. For every list of gates and every block run inside
    [set_back_voltages] (respectively [set_back_valid_ranges]), a block
    that raises partway included: when the driver accepts the restoring
    commands, the scope passes on the block's own outcome, every gate of
    the list reads the dc voltage (respectively valid range) it had just
    before the scope was entered, and the restoring commands are the last
    ones sent, one per gate, in the order of the list. *)
Theorem set_back_restores :
  forall (A : Type) (gs : list nat) (body : Py A) (w : World),
    ((forall g, In g gs ->
        rejects (fst (body w)) (SetVoltage g (dc_voltage (gate w g))) = false) ->
     snd (set_back_voltages gs body w) = snd (body w)
     /\ (forall g, In g gs ->
           dc_voltage (gate (fst (set_back_voltages gs body w)) g) =
           dc_voltage (gate w g))
     /\ trace (fst (set_back_voltages gs body w)) =
        trace (fst (body w))
        ++ map (fun g => SetVoltage g (dc_voltage (gate w g))) gs)
    /\
    ((forall g, In g gs ->
        rejects (fst (body w))
          (SetRange g (current_valid_range (gate w g))) = false) ->
     snd (set_back_valid_ranges gs body w) = snd (body w)
     /\ (forall g, In g gs ->
           current_valid_range
             (gate (fst (set_back_valid_ranges gs body w)) g) =
           current_valid_range (gate w g))
     /\ trace (fst (set_back_valid_ranges gs body w)) =
        trace (fst (body w))
        ++ map (fun g => SetRange g (current_valid_range (gate w g))) gs).
Proof.
  intros A gs body w. split; intros Hacc.
  - exact (set_back_accepted dc_voltage_parameter dc_voltage_get_put
             gs body w Hacc).
  - exact (set_back_accepted current_valid_range_parameter
             current_valid_range_get_put gs body w Hacc).
Qed.

Lemma set_back_restores_witness :
  (snd (set_back_voltages [0; 1]%nat sample_block sample_world) =
     Raise StageError
   /\ (forall g, In g [0; 1]%nat ->
         dc_voltage
           (gate (fst (set_back_voltages [0; 1]%nat sample_block
                         sample_world)) g) = -1)
   /\ trace (fst (set_back_voltages [0; 1]%nat sample_block sample_world)) =
      [SetVoltage 0 (-(3 # 2)); SetVoltage 1 (-(1 # 4)); SetRange 1 (-2, 0);
       SetVoltage 0 (-1); SetVoltage 1 (-1)])
  /\
  (snd (set_back_valid_ranges [1; 2]%nat sample_block sample_world) =
     Raise StageError
   /\ (forall g, In g [1; 2]%nat ->
         current_valid_range
           (gate (fst (set_back_valid_ranges [1; 2]%nat sample_block
                         sample_world)) g) = (-(3 # 2), -(1 # 2)))
   /\ trace (fst (set_back_valid_ranges [1; 2]%nat sample_block
                    sample_world)) =
      [SetVoltage 0 (-(3 # 2)); SetVoltage 1 (-(1 # 4)); SetRange 1 (-2, 0);
       SetRange 1 (-(3 # 2), -(1 # 2)); SetRange 2 (-(3 # 2), -(1 # 2))]).
Proof.
  split.
  - apply (proj1 (set_back_restores unit [0; 1]%nat sample_block
                    sample_world)).
    intros g _. reflexivity.
  - apply (proj2 (set_back_restores unit [1; 2]%nat sample_block
                    sample_world)).
    intros g _. reflexivity.
Defined.

(** C9, as the code has it. When the driver refuses the restoring
    command of one gate, restoration stops there: the gates before it in
    the list are set back, the refused command is the last one sent (no
    command goes out for the gates after it), every gate outside the
    restored prefix is left as the block left it, and the scope raises
    that one driver error, whatever the block's own outcome was. This
    holds for [set_back_voltages] and for [set_back_valid_ranges]. *)
Theorem set_back_stops_at_first_failure :
  forall (A : Type) (pre : list nat) (g : nat) (post : list nat)
         (body : Py A) (w : World),
    ((forall g', In g' pre ->
        rejects (fst (body w)) (SetVoltage g' (dc_voltage (gate w g'))) = false) ->
     rejects (fst (body w)) (SetVoltage g (dc_voltage (gate w g))) = true ->
     snd (set_back_voltages (pre ++ g :: post) body w) =
       Raise (DriverError (SetVoltage g (dc_voltage (gate w g))))
     /\ trace (fst (set_back_voltages (pre ++ g :: post) body w)) =
        trace (fst (body w))
        ++ map (fun g' => SetVoltage g' (dc_voltage (gate w g'))) pre
        ++ [SetVoltage g (dc_voltage (gate w g))]
     /\ (forall g', In g' pre ->
           dc_voltage
             (gate (fst (set_back_voltages (pre ++ g :: post) body w)) g') =
           dc_voltage (gate w g'))
     /\ (forall g', ~ In g' pre ->
           gate (fst (set_back_voltages (pre ++ g :: post) body w)) g' =
           gate (fst (body w)) g'))
    /\
    ((forall g', In g' pre ->
        rejects (fst (body w))
          (SetRange g' (current_valid_range (gate w g'))) = false) ->
     rejects (fst (body w))
       (SetRange g (current_valid_range (gate w g))) = true ->
     snd (set_back_valid_ranges (pre ++ g :: post) body w) =
       Raise (DriverError (SetRange g (current_valid_range (gate w g))))
     /\ trace (fst (set_back_valid_ranges (pre ++ g :: post) body w)) =
        trace (fst (body w))
        ++ map (fun g' => SetRange g' (current_valid_range (gate w g'))) pre
        ++ [SetRange g (current_valid_range (gate w g))]
     /\ (forall g', In g' pre ->
           current_valid_range
             (gate (fst (set_back_valid_ranges (pre ++ g :: post) body w))
                g') =
           current_valid_range (gate w g'))
     /\ (forall g', ~ In g' pre ->
           gate (fst (set_back_valid_ranges (pre ++ g :: post) body w)) g' =
           gate (fst (body w)) g')).
Proof.
  intros A pre g post body w. split; intros Hacc Hrej.
  - exact (set_back_rejected dc_voltage_parameter dc_voltage_get_put
             pre g post body w Hacc Hrej).
  - exact (set_back_rejected current_valid_range_parameter
             current_valid_range_get_put pre g post body w Hacc Hrej).
Qed.

Lemma set_back_stops_at_first_failure_witness :
  (snd (set_back_voltages ([0] ++ 1 :: [2])%nat sample_block
          (stuck_world 1)) =
     Raise (DriverError (SetVoltage 1 (-1)))
   /\ trace (fst (set_back_voltages ([0] ++ 1 :: [2])%nat sample_block
                    (stuck_world 1))) =
      [SetVoltage 0 (-(3 # 2)); SetVoltage 1 (-(1 # 4));
       SetVoltage 0 (-1); SetVoltage 1 (-1)])
  /\
  (snd (set_back_valid_ranges ([0] ++ 1 :: [2])%nat sample_block
          (stuck_world 1)) =
     Raise (DriverError (SetRange 1 (-(3 # 2), -(1 # 2))))
   /\ trace (fst (set_back_valid_ranges ([0] ++ 1 :: [2])%nat sample_block
                    (stuck_world 1))) =
      [SetVoltage 0 (-(3 # 2)); SetVoltage 1 (-(1 # 4));
       SetRange 0 (-(3 # 2), -(1 # 2)); SetRange 1 (-(3 # 2), -(1 # 2))]).
Proof.
  split.
  - destruct (proj1 (set_back_stops_at_first_failure unit [0]%nat 1%nat
                       [2]%nat sample_block (stuck_world 1)))
      as (Hr & Ht & _).
    + intros g' [<-|[]]. reflexivity.
    + reflexivity.
    + split; [exact Hr | exact Ht].
  - destruct (proj2 (set_back_stops_at_first_failure unit [0]%nat 1%nat
                       [2]%nat sample_block (stuck_world 1)))
      as (Hr & Ht & _).
    + intros g' [<-|[]]. reflexivity.
    + reflexivity.
    + split; [exact Hr | exact Ht].
Defined.

(** C9 as the specification states it fails. Gate 0 refuses its
    restoring command; the block had moved gate 1 from -1 to 5 and gate
    2 from -1 to 0. No restoring command is sent for gates 1 and 2,
    which stay where the block left them, and the block's own error
    (none here) is not reported with the driver's. *)
Lemma set_back_does_not_restore_after_failure :
  let final :=
    fst (set_back_voltages [0; 1; 2]%nat
           (parameter_set dc_voltage_parameter 1 5 ;;;
            parameter_set dc_voltage_parameter 2 0)
           (stuck_world 0)) in
  trace final = [SetVoltage 1 5; SetVoltage 2 0; SetVoltage 0 (-1)]
  /\ ~ In (SetVoltage 1 (-1)) (trace final)
  /\ ~ In (SetVoltage 2 (-1)) (trace final)
  /\ dc_voltage (gate final 1) = 5
  /\ dc_voltage (gate final 2) = 0
  /\ dc_voltage (gate (stuck_world 0) 1) = -1
  /\ dc_voltage (gate (stuck_world 0) 2) = -1.
Proof.
  vm_compute. repeat split; try reflexivity.
  - intros [H|[H|[H|[]]]]; discriminate H.
  - intros [H|[H|[H|[]]]]; discriminate H.
Qed.

(** ** The settings overlay *)

Lemma overlay_restored_by_update (k : string) (v : Setting)
  (original : gmap string Setting) :
  original !! k = None ->
  original ∪ ({[ k := v ]} ∪ original) = <[ k := v ]> original.
Proof.
  intros Hk. apply map_eq. intros i.
  destruct (decide (i = k)) as [->|Hne].
  - rewrite lookup_insert_eq, lookup_union_r by exact Hk.
    rewrite lookup_union_l by exact Hk. apply lookup_singleton_eq.
  - rewrite lookup_insert_ne by congruence.
    destruct (original !! i) as [x|] eqn:Hi.
    + erewrite lookup_union_Some_l; eauto.
    + rewrite lookup_union_r by exact Hi. rewrite lookup_union_r; [exact Hi|].
      apply lookup_singleton_ne. congruence.
Qed.

(** C3, what the code does instead. The scope restores the settings with
    [update_data_settings], which merges: when the bundle had no
    [normalization_constants] entry on entry and the block leaves the
    settings alone, the bundle after the scope is the original one plus
    the injected entry, on a normal exit and on an exception alike. *)
Theorem device_specific_settings_leaves_overlay :
  forall (A : Type) (body : Py A) (w : World),
    _data_settings w !! "normalization_constants" = None ->
    (forall w0, _data_settings (fst (body w0)) = _data_settings w0) ->
    _data_settings (fst (device_specific_settings body w)) =
      <[ "normalization_constants" := SNorm (normalization_constants w) ]>
        (_data_settings w)
    /\ _data_settings (fst (device_specific_settings body w)) !!
         "normalization_constants" = Some (SNorm (normalization_constants w))
    /\ _data_settings (fst (device_specific_settings body w)) <>
       _data_settings w.
Proof.
  intros A body w Hnone Hbody.
  assert (Heq : _data_settings (fst (device_specific_settings body w)) =
                <[ "normalization_constants" :=
                     SNorm (normalization_constants w) ]> (_data_settings w)).
  { unfold device_specific_settings, bind, get_data_settings,
      get_normalization_constants, update_data_settings, try_finally.
    simpl.
    match goal with |- context [body ?w1] =>
      pose proof (Hbody w1) as Hb; destruct (body w1) as [w2 r] end.
    simpl in *. rewrite Hb.
    now apply overlay_restored_by_update. }
  split; [exact Heq|]. split.
  - rewrite Heq. apply lookup_insert_eq.
  - rewrite Heq. intros Hsame.
    assert (H : (<[ "normalization_constants" :=
                      SNorm (normalization_constants w) ]>
                   (_data_settings w)) !! "normalization_constants" = None)
      by (rewrite Hsame; exact Hnone).
    rewrite lookup_insert_eq in H. discriminate H.
Qed.

(** ** Parts of the world a run leaves alone *)

Section Unchanged.
Context {X : Type} (proj : World -> X).

Lemma unchanged_ret {A} (a : A) : unchanged proj (ret a).
Proof. intros w. reflexivity. Qed.

Lemma unchanged_raise {A} e : unchanged proj (@raise A e).
Proof. intros w. reflexivity. Qed.

Lemma unchanged_lift {A} (r : result A) : unchanged proj (lift r).
Proof. intros w. reflexivity. Qed.

Lemma unchanged_bind {A B} (m : Py A) (k : A -> Py B) :
  unchanged proj m -> (forall a, unchanged proj (k a)) ->
  unchanged proj (bind m k).
Proof.
  intros Hm Hk w. unfold bind. specialize (Hm w).
  destruct (m w) as [w1 [a|e]]; simpl in *.
  - rewrite Hk. exact Hm.
  - exact Hm.
Qed.

Lemma unchanged_try_finally {A} (body : Py A) (fin : Py unit) :
  unchanged proj body -> unchanged proj fin ->
  unchanged proj (try_finally body fin).
Proof.
  intros Hb Hf w. unfold try_finally. specialize (Hb w).
  destruct (body w) as [w1 r]. specialize (Hf w1).
  destruct (fin w1) as [w2 [[]|e]]; simpl in *; congruence.
Qed.

Lemma unchanged_reading {A} (f : World -> result A) :
  unchanged proj (fun w => (w, f w)).
Proof. intros w. reflexivity. Qed.

(** A routine that first reads the world it starts in. *)
Lemma unchanged_dependent {A} (f : World -> Py A) :
  (forall w0, unchanged proj (f w0)) -> unchanged proj (fun w => f w w).
Proof. intros H w. apply H. Qed.

Lemma unchanged_for_enumerate_from {A} (xs : list A) f :
  (forall i x, unchanged proj (f i x)) ->
  forall i, unchanged proj (for_enumerate_from i xs f).
Proof.
  intros Hf. induction xs as [|x xs IH]; intros i; simpl.
  - apply unchanged_ret.
  - apply unchanged_bind; [apply Hf | intros _; apply IH].
Qed.

Lemma unchanged_for_fold {A St} (xs : list A) (f : St -> A -> Py St) :
  (forall s x, unchanged proj (f s x)) ->
  forall s, unchanged proj (for_fold xs s f).
Proof.
  intros Hf. induction xs as [|x xs IH]; intros s; simpl.
  - apply unchanged_ret.
  - apply unchanged_bind; [apply Hf | intros s1; apply IH].
Qed.

Lemma unchanged_for_fold_enumerate_from {A St} (xs : list A)
  (f : St -> nat -> A -> Py St) :
  (forall s i x, unchanged proj (f s i x)) ->
  forall i s, unchanged proj (for_fold_enumerate_from i xs s f).
Proof.
  intros Hf. induction xs as [|x xs IH]; intros i s; simpl.
  - apply unchanged_ret.
  - apply unchanged_bind; [apply Hf | intros s1; apply IH].
Qed.
End Unchanged.

(** A set command changes the gate objects and the trace only. *)
Lemma unchanged_parameter_set {X V} (proj : World -> X)
  (p : GateParameter V) g v :
  (forall f w, proj (with_gate f w) = proj w) ->
  (forall t w, proj (with_trace t w) = proj w) ->
  unchanged proj (parameter_set p g v).
Proof.
  intros Hg Ht w. unfold parameter_set.
  destruct (rejects w (pcmd p g v)); simpl.
  - apply Ht.
  - rewrite Hg. apply Ht.
Qed.

Lemma unchanged_all_gates_to {X} (proj : World -> X) (pick : Q * Q -> Q) :
  (forall f w, proj (with_gate f w) = proj w) ->
  (forall t w, proj (with_trace t w) = proj w) ->
  unchanged proj (fun w =>
    for_enumerate (gates w) (fun _ g =>
      do r <- get_safety_range g;
      parameter_set dc_voltage_parameter g (pick r)) w).
Proof.
  intros Hg Ht. apply (unchanged_dependent proj (fun w0 =>
    for_enumerate (gates w0) (fun _ g =>
      do r <- get_safety_range g;
      parameter_set dc_voltage_parameter g (pick r)))).
  intros w0. apply unchanged_for_enumerate_from. intros i g.
  apply unchanged_bind; [intros w; reflexivity|].
  intros r. now apply unchanged_parameter_set.
Qed.

Lemma unchanged_set_back {X V A} (proj : World -> X) (p : GateParameter V)
  gs (body : Py A) :
  (forall g v, unchanged proj (parameter_set p g v)) ->
  unchanged proj body -> unchanged proj (set_back p gs body).
Proof.
  intros Hset Hb.
  apply (unchanged_dependent proj (fun w0 =>
    try_finally body
      (for_enumerate gs (fun ig g =>
         match map (fun g => pget p (gate w0 g)) gs !! ig with
         | Some v => parameter_set p g v
         | None => raise IndexError
         end)))).
  intros w0. apply unchanged_try_finally; [exact Hb|].
  apply unchanged_for_enumerate_from. intros i g.
  destruct (_ !! i); [apply Hset|]. apply unchanged_raise.
Qed.

(** Building and running one stage changes what the stage changes. *)
Lemma unchanged_run_and_record {X} (proj : World -> X) run_stage update swept
  entry_gate comment t :
  (forall cfg, unchanged proj (run_stage cfg)) ->
  unchanged proj entry_gate ->
  unchanged proj
    (run_and_record run_stage update swept entry_gate comment t).
Proof.
  intros Hstage Hname. unfold run_and_record.
  apply unchanged_bind; [intros w; reflexivity|]. intros settings.
  apply unchanged_bind.
  { intros w. unfold pinchoff_classifier. now destruct (has_pinchoff w). }
  intros _. apply unchanged_bind.
  { intros w. unfold pinchoff_fit_options.
    now destruct (get_fit_options (_fit_options w) !! "pinchofffit"). }
  intros options. apply unchanged_bind; [apply Hstage|]. intros out.
  apply unchanged_bind; [intros w; reflexivity|]. intros status.
  apply unchanged_bind; [exact Hname|]. intros gname.
  apply unchanged_ret.
Qed.

(** ** update_normalization_constants *)

Lemma record_extremum_raises reading k ks constants i w :
  exists e, snd (record_extremum reading (k :: ks) constants i w) = Raise e.
Proof.
  unfold record_extremum, for_enumerate. simpl. unfold bind.
  destruct (reading k w) as [val|e]; [|eauto].
  destruct (constants !! k); simpl; eauto.
Qed.

Lemma bind_raises {A B} (m : Py A) (k : A -> Py B) w :
  (forall a w1, exists e, snd (k a w1) = Raise e) ->
  exists e, snd (bind m k w) = Raise e.
Proof.
  intros Hk. unfold bind. destruct (m w) as [w1 [a|e]]; [apply Hk|].
  simpl. eauto.
Qed.

Lemma bind_raises_first {A B} (m : Py A) (k : A -> Py B) w :
  (exists e, snd (m w) = Raise e) -> exists e, snd (bind m k w) = Raise e.
Proof.
  intros [e He]. unfold bind. destruct (m w) as [w1 r]. simpl in He.
  subst r. simpl. eauto.
Qed.

Lemma try_finally_raises {A} (body : Py A) fin w :
  (exists e, snd (body w) = Raise e) ->
  exists e, snd (try_finally body fin w) = Raise e.
Proof.
  intros [e He]. unfold try_finally. destruct (body w) as [w1 r].
  simpl in He. subst r. destruct (fin w1) as [w2 [[]|e2]]; simpl; eauto.
Qed.

(** C2, what the code does. With at least one readout method, the call
    raises before it reaches the commit on line 168: the first pass reads
    the first channel and then assigns into the tuple [(0.0, 1.0)], which
    raises TypeError (unless the drive to the lowest extreme or the read
    raised first). The device's normalization constants are never
    written, whatever the device's setter would do with them: after the
    call they are what they were before it. *)
Theorem update_normalization_constants_never_commits :
  forall (set_normalization_constants : gmap string (Q * Q) -> Py unit)
         (reading : string -> World -> result Q) (w : World),
    readout_methods w <> [] ->
    (exists e,
        snd (update_normalization_constants set_normalization_constants
               reading w) = Raise e)
    /\ normalization_constants
         (fst (update_normalization_constants set_normalization_constants
                 reading w)) =
       normalization_constants w.
Proof.
  intros set_normalization_constants reading w Hne.
  destruct (readout_methods w) as [|[k is_param] rest] eqn:Hr; [done|].
  unfold update_normalization_constants. rewrite Hr. simpl map.
  set (constants := fromkeys _ _).
  set (block := (all_gates_to_lowest ;;;
                 record_extremum reading (k :: map fst rest) constants 0 ;;;
                 all_gates_to_highest ;;;
                 record_extremum reading (k :: map fst rest) constants 1)).
  assert (Hraise : exists e,
             snd (set_back_voltages (gates w) block w) = Raise e).
  { unfold set_back_voltages, set_back. apply try_finally_raises.
    apply bind_raises. intros _ w2. apply bind_raises_first.
    apply record_extremum_raises. }
  assert (Hn : normalization_constants
                 (fst (set_back_voltages (gates w) block w)) =
               normalization_constants w).
  { apply (unchanged_set_back normalization_constants dc_voltage_parameter).
    { intros g v. apply unchanged_parameter_set; reflexivity. }
    apply unchanged_bind.
    { apply (unchanged_all_gates_to _ range_min); reflexivity. }
    intros _. apply unchanged_bind.
    { apply unchanged_for_enumerate_from. intros i x.
      apply unchanged_bind; [apply unchanged_reading|].
      intros val. destruct (constants !! x); apply unchanged_raise. }
    intros _. apply unchanged_bind.
    { apply (unchanged_all_gates_to _ range_max); reflexivity. }
    intros _. apply unchanged_for_enumerate_from. intros i x.
    apply unchanged_bind; [apply unchanged_reading|].
    intros val. destruct (constants !! x); apply unchanged_raise. }
  unfold bind.
  destruct (set_back_voltages (gates w) block w) as [w1 r].
  simpl in Hraise, Hn. destruct Hraise as [e ->]. simpl.
  split; [eauto|exact Hn].
Qed.

Lemma update_normalization_constants_never_commits_witness :
  (exists e,
      snd (update_normalization_constants replace_constants sample_reading
             sample_world) = Raise e)
  /\ normalization_constants
       (fst (update_normalization_constants replace_constants sample_reading
               sample_world)) =
     normalization_constants sample_world.
Proof.
  apply (update_normalization_constants_never_commits replace_constants
           sample_reading sample_world).
  discriminate.
Defined.

(** On the sample device both reads would succeed; the exception is the
    TypeError of the tuple assignment, the gates are back at -1, and the
    constants still are the ones the device had. *)
Example update_normalization_constants_sample :
  snd (update_normalization_constants replace_constants sample_reading
         sample_world) = Raise TypeError
  /\ trace (fst (update_normalization_constants replace_constants
                   sample_reading sample_world)) =
     [SetVoltage 0 (-2); SetVoltage 1 (-2); SetVoltage 2 (-2);
      SetVoltage 0 (-1); SetVoltage 1 (-1); SetVoltage 2 (-1)]
  /\ normalization_constants
       (fst (update_normalization_constants replace_constants sample_reading
               sample_world)) !! "dc_current" = Some (0, 1).
Proof. vm_compute. auto. Qed.

Lemma device_specific_settings_leaves_overlay_witness :
  _data_settings
    (fst (device_specific_settings (raise StageError : Py unit)
            sample_world)) =
    <[ "normalization_constants" := SNorm {[ "dc_current" := (0, 1) ]} ]>
      {[ "db_name" := SStr "experiments.db" ]}
  /\ _data_settings
       (fst (device_specific_settings (raise StageError : Py unit)
               sample_world)) !! "normalization_constants" =
     Some (SNorm {[ "dc_current" := (0, 1) ]})
  /\ _data_settings
       (fst (device_specific_settings (raise StageError : Py unit)
               sample_world)) <>
     {[ "db_name" := SStr "experiments.db" ]}.
Proof.
  apply (device_specific_settings_leaves_overlay unit
           (raise StageError : Py unit) sample_world).
  - reflexivity.
  - intros w0. reflexivity.
Defined.

(** ** getting_signal *)

(** C8, what the code does. Line 210 reads [self.normalization_constants]
    on the tuner, which has no such attribute: every call raises
    AttributeError before a channel is read, whatever the thresholds and
    the channels to check. *)
Theorem getting_signal_raises_AttributeError :
  forall (reading : string -> World -> result Q)
         (thresholds_normalized : gmap string Q)
         (readout_method_to_check : option (list string)) (w : World),
    getting_signal reading thresholds_normalized readout_method_to_check w =
    (w, Raise AttributeError).
Proof. intros. reflexivity. Qed.

(** ** The step count *)

(** C5, what the code does at width 2 and step 0.6. Line 297 keeps the
    quotient 10/3 as it is; nothing rounds it up to 4. numpy either
    refuses the float count with TypeError or, before 1.18, truncates it
    to 3 samples. *)
Theorem n_steps_is_not_rounded_up :
  exists q,
    n_steps (-2, 0) (3 # 5) = Ok q
    /\ q == 10 # 3
    /\ Qceiling q = 4%Z
    /\ ~ q == inject_Z (Qceiling q)
    /\ linspace np_index_strict (range_max (-2, 0)) (range_min (-2, 0)) q =
       Raise TypeError
    /\ exists v_steps,
         linspace np_index_truncating (range_max (-2, 0))
           (range_min (-2, 0)) q = Ok v_steps
         /\ length v_steps = 3%nat.
Proof.
  eexists. split; [reflexivity|]. split; [reflexivity|].
  split; [reflexivity|]. split; [intros H; discriminate H|].
  split; [reflexivity|]. eexists. split; reflexivity.
Qed.

(** ** measure_initial_ranges *)

(** C4, what the code does. Whatever the stage, numpy's reading of the
    count, the gates and the step, the call never returns a range: when
    the forward scan completes, line 333 assigns the lower bound into the
    tuple [(None, None)] and raises TypeError; otherwise an earlier
    statement has raised. *)
Theorem measure_initial_ranges_never_returns :
  forall (run_stage : StageConfig -> Py StageOut)
         (np_index : Q -> result nat) (gate_to_set : nat)
         (to_sweep : list nat) (voltage_step : Q) (w : World),
    exists e,
      snd (measure_initial_ranges run_stage np_index gate_to_set to_sweep
             voltage_step w) = Raise e.
Proof.
  intros run_stage np_index gate_to_set to_sweep voltage_step w.
  unfold measure_initial_ranges.
  destruct (negb (has_pinchoff w)); [simpl; eauto|].
  apply bind_raises. intros _ w1.
  apply bind_raises. intros v_range w2.
  apply bind_raises. intros steps w3.
  apply bind_raises. intros st w4.
  apply bind_raises. intros lower w5.
  apply bind_raises_first. simpl. eauto.
Qed.

(** Two runs on the sample device, with the truncating numpy and a step
    of 1/2 (four samples: 0, -2/3, -4/3, -2). Sweeping gates 0 and 1
    against gate 2, both respond at the third sample, the scan stops
    there, and line 333 raises TypeError with gate 2 at -4/3. Sweeping
    gates 1 and 2 against gate 0, [skip_gates] has the keys 1 and 2 (the
    layout ids) and the first lookup, at position 0, raises KeyError.
    With the strict numpy the first run raises TypeError at line 303. *)
Example measure_initial_ranges_sample :
  (let run := measure_initial_ranges (pinches_below 2 (-1))
                np_index_truncating 2 [0; 1]%nat (1 # 2) sample_world in
   snd run = Raise TypeError
   /\ trace (fst run) =
      [SetVoltage 0 0; SetVoltage 1 0; SetVoltage 2 0;
       SetVoltage 2 0; SetVoltage 2 (-2 # 3); SetVoltage 2 (-4 # 3)]
   /\ dc_voltage (gate (fst run) 2) = -4 # 3)
  /\ (let run := measure_initial_ranges (pinches_below 0 (-1))
                   np_index_truncating 0 [1; 2]%nat (1 # 2) sample_world in
      snd run = Raise KeyError
      /\ trace (fst run) =
         [SetVoltage 0 0; SetVoltage 1 0; SetVoltage 2 0; SetVoltage 0 0])
  /\ (let run := measure_initial_ranges (pinches_below 2 (-1))
                   np_index_strict 2 [0; 1]%nat (1 # 2) sample_world in
      snd run = Raise TypeError
      /\ trace (fst run) = [SetVoltage 0 0; SetVoltage 1 0; SetVoltage 2 0]).
Proof. vm_compute. auto 10. Qed.

(** ** What a run returns, when it returns *)










(** ** The reverse probe *)








(** ** Runs that return *)

Section Returns.
Variable I : World -> Prop.

Lemma returns_ret {A} (a : A) (post : A -> Prop) :
  post a -> returns I (ret a) post.
Proof. intros Hp w Hw. simpl. eauto. Qed.

Lemma returns_bind {A B} (m : Py A) (k : A -> Py B) mid post :
  returns I m mid -> (forall a, mid a -> returns I (k a) post) ->
  returns I (bind m k) post.
Proof.
  intros Hm Hk w Hw. unfold bind.
  destruct (Hm w Hw) as (Hw1 & a & Ha & Hmid).
  destruct (m w) as [w1 r]. simpl in *. subst r.
  exact (Hk a Hmid w1 Hw1).
Qed.

Lemma returns_weaken {A} (m : Py A) (post post' : A -> Prop) :
  returns I m post -> (forall a, post a -> post' a) -> returns I m post'.
Proof.
  intros Hm Himp w Hw. destruct (Hm w Hw) as (Hw1 & a & Ha & Hp). eauto.
Qed.

Lemma returns_dependent {A} (f : World -> Py A) post :
  (forall w0, returns I (f w0) post) -> returns I (fun w => f w w) post.
Proof. intros H w. apply H. Qed.

Lemma returns_try_finally {A} (body : Py A) (fin : Py unit) post :
  returns I body post -> returns I fin (fun _ => True) ->
  returns I (try_finally body fin) post.
Proof.
  intros Hb Hf w Hw. unfold try_finally.
  destruct (Hb w Hw) as (Hw1 & a & Ha & Hp).
  destruct (body w) as [w1 r]. simpl in *. subst r.
  destruct (Hf w1 Hw1) as (Hw2 & [] & Hu & _).
  destruct (fin w1) as [w2 r2]. simpl in *. subst r2. simpl. eauto.
Qed.

Lemma returns_for_enumerate_from {A} (xs : list A) f :
  (forall i x, returns I (f i x) (fun _ => True)) ->
  forall i, returns I (for_enumerate_from i xs f) (fun _ => True).
Proof.
  intros Hf. induction xs as [|x xs IH]; intros i; simpl.
  - now apply returns_ret.
  - eapply returns_bind; [apply Hf|]. intros _ _. apply IH.
Qed.
End Returns.

Lemma returns_parameter_set {V} (p : GateParameter V) g v :
  returns accepting (parameter_set p g v) (fun _ => True).
Proof.
  intros w Hw. unfold parameter_set. rewrite (Hw (pcmd p g v)). simpl.
  split; [exact Hw|]. eauto.
Qed.

Lemma returns_all_gates_to_highest :
  returns accepting all_gates_to_highest (fun _ => True).
Proof.
  unfold all_gates_to_highest.
  apply (returns_dependent accepting (fun w0 =>
    for_enumerate (gates w0) (fun _ g =>
      do r <- get_safety_range g;
      parameter_set dc_voltage_parameter g (range_max r)))).
  intros w0. apply returns_for_enumerate_from. intros i g.
  eapply returns_bind with (mid := fun _ => True).
  - intros w Hw. simpl. eauto.
  - intros r _. apply returns_parameter_set.
Qed.

Lemma returns_device_specific_settings {A} (body : Py A) post :
  returns accepting body post ->
  returns accepting (device_specific_settings body) post.
Proof.
  intros Hb. unfold device_specific_settings.
  eapply returns_bind with (mid := fun _ => True).
  { intros w Hw. simpl. eauto. }
  intros original _. eapply returns_bind with (mid := fun _ => True).
  { intros w Hw. simpl. eauto. }
  intros constants _. eapply returns_bind with (mid := fun _ => True).
  { intros w Hw. simpl. eauto. }
  intros _ _. apply returns_try_finally; [exact Hb|].
  intros w Hw. simpl. eauto.
Qed.

Lemma linspace_length np_index start stop steps n :
  np_index steps = Ok n ->
  exists v_steps,
    linspace np_index start stop steps = Ok v_steps /\ length v_steps = n.
Proof.
  intros Hn. unfold linspace. rewrite Hn.
  destruct n as [|[|n]]; eexists; (split; [reflexivity|]).
  - reflexivity.
  - reflexivity.
  - rewrite length_map, length_seq. reflexivity.
Qed.

(** ** characterize_gates *)

Lemma voltage_sets_app t1 t2 :
  voltage_sets (t1 ++ t2) = voltage_sets t1 ++ voltage_sets t2.
Proof. unfold voltage_sets. apply flat_map_app. Qed.

(** Setting a valid range sends no voltage command and leaves every dc
    voltage as it is. *)
Lemma range_set_keeps_voltage g r g' :
  unchanged (fun w => dc_voltage (gate w g'))
    (parameter_set current_valid_range_parameter g r).
Proof.
  intros w. unfold parameter_set.
  destruct (rejects w _); simpl; [reflexivity|].
  unfold update_gate. destruct (Nat.eqb g' g); reflexivity.
Qed.

Lemma range_set_sends_no_voltage g r :
  unchanged (fun w => voltage_sets (trace w))
    (parameter_set current_valid_range_parameter g r).
Proof.
  intros w. unfold parameter_set.
  destruct (rejects w _); simpl; rewrite voltage_sets_app; simpl;
    apply app_nil_r.
Qed.


(** Two runs on the sample device. With an accepting driver every gate
    is characterized, the ranges are widened and set back, and the result
    is archived; with gate 1 stuck the call raises the driver's error. *)
Example characterize_gates_sample :
  (let run := characterize_gates sample_repr always_pinches [0; 1]%nat true
                None sample_world in
   (exists t, snd run = Ok t
              /\ map entry_name (entries t) =
                 ["characterization_top_barrier";
                  "characterization_left_barrier"]
              /\ map entry_comment (entries t) =
                 [Some "Characterizing [<Gate: top_barrier>, <Gate: left_barrier>].";
                  Some "Characterizing [<Gate: top_barrier>, <Gate: left_barrier>]."]
              /\ tuningresults (fst run) !! "device" = Some [t])
   /\ trace (fst run) =
      [SetRange 0 (-2, 0); SetRange 1 (-2, 0);
       SetRange 0 (-(3 # 2), -(1 # 2)); SetRange 1 (-(3 # 2), -(1 # 2))])
  /\ snd (characterize_gates sample_repr always_pinches [0; 1; 2]%nat true
            None (stuck_world 1)) =
     Raise (DriverError (SetRange 1 (-(3 # 2), -(1 # 2)))).
Proof.
  vm_compute. split; [|reflexivity]. split; [|reflexivity].
  eexists. split; [reflexivity|]. split; [reflexivity|].
  split; reflexivity.
Qed.

(** ** The forward scan *)

Lemma fromkeys_lookup {V} (keys : list Z) (v : V) (z : Z) :
  fromkeys keys v !! z = if decide (z ∈ keys) then Some v else None.
Proof.
  unfold fromkeys. induction keys as [|k keys IH]; simpl.
  - rewrite lookup_empty. destruct (decide (z ∈ [])) as [H|]; [|reflexivity].
    inversion H.
  - destruct (decide (k = z)) as [->|Hne].
    + rewrite lookup_insert_eq.
      destruct (decide (z ∈ z :: keys)) as [|H]; [reflexivity|].
      exfalso. apply H. left.
    + rewrite lookup_insert_ne by exact Hne. rewrite IH.
      destruct (decide (z ∈ keys)) as [H|H];
        destruct (decide (z ∈ k :: keys)) as [H'|H']; try reflexivity.
      * exfalso. apply H'. now right.
      * exfalso. apply H. inversion H'; subst; [congruence|assumption].
Qed.

Lemma all_values_true (d : gmap Z bool) :
  all_values d = true <-> forall z b, d !! z = Some b -> b = true.
Proof.
  unfold all_values. rewrite forallb_forall. split.
  - intros H z b Hz. apply (H (z, b)). apply list_elem_of_In.
    now apply elem_of_map_to_list.
  - intros H [z b] Hin. simpl. apply (H z).
    apply list_elem_of_In in Hin. now apply elem_of_map_to_list in Hin.
Qed.

Lemma flags_are_ext k F F' d :
  (forall j, F j = F' j) -> flags_are k F d -> flags_are k F' d.
Proof. intros Heq H z. rewrite H. now rewrite Heq. Qed.

Lemma flags_are_lookup k F d j :
  (j < k)%nat -> flags_are k F d -> d !! Z.of_nat j = Some (F j).
Proof.
  intros Hj H. rewrite H. rewrite decide_True by lia.
  now rewrite Nat2Z.id.
Qed.

Lemma flags_are_insert k F d i :
  (i < k)%nat -> flags_are k F d ->
  flags_are k (fun j => if Nat.eqb j i then true else F j)
    (<[Z.of_nat i := true]> d).
Proof.
  intros Hi H z. destruct (decide (Z.of_nat i = z)) as [<-|Hne].
  - rewrite lookup_insert_eq, decide_True by lia.
    now rewrite Nat2Z.id, Nat.eqb_refl.
  - rewrite lookup_insert_ne by exact Hne. rewrite H.
    destruct (decide (0 <= z < Z.of_nat k)%Z); [|reflexivity].
    destruct (Nat.eqb_spec (Z.to_nat z) i); [lia|reflexivity].
Qed.

Lemma flags_are_all_values k F d :
  flags_are k F d ->
  all_values d = true <-> forall j, (j < k)%nat -> F j = true.
Proof.
  intros H. rewrite all_values_true. split.
  - intros Hall j Hj. apply (Hall (Z.of_nat j)).
    exact (flags_are_lookup k F d j Hj H).
  - intros Hall z b Hz. rewrite H in Hz.
    destruct (decide (0 <= z < Z.of_nat k)%Z); [|discriminate].
    injection Hz as <-. apply Hall. lia.
Qed.

Lemma flags_are_fromkeys k :
  flags_are k (fun _ => false) (fromkeys (map Z.of_nat (seq 0 k)) false).
Proof.
  intros z. rewrite fromkeys_lookup.
  destruct (decide (0 <= z < Z.of_nat k)%Z) as [Hz|Hz].
  - rewrite decide_True; [reflexivity|].
    apply list_elem_of_In, in_map_iff. exists (Z.to_nat z).
    split; [lia|]. apply in_seq. lia.
  - rewrite decide_False; [reflexivity|].
    intros Hin. apply list_elem_of_In, in_map_iff in Hin.
    destruct Hin as (j & <- & Hj). apply in_seq in Hj. lia.
Qed.

Lemma existsb_take_first_index {A} (P : A -> bool) (l : list A) :
  forall i,
    existsb P (take (S i) l) = true <->
    exists s, first_index P l = Some s /\ (s <= i)%nat.
Proof.
  induction l as [|x l IH]; intros i; simpl.
  - split; [discriminate|]. intros (s & H & _). discriminate H.
  - destruct (P x) eqn:Hx; simpl.
    + split; [|reflexivity]. intros _. exists 0%nat. split; [reflexivity|lia].
    + destruct i as [|i].
      * rewrite take_0. simpl. split; [discriminate|].
        intros (s & H & Hs). destruct (first_index P l); simpl in H;
          [injection H as <-; lia|discriminate].
      * rewrite IH. split.
        -- intros (s & -> & Hs). exists (S s). split; [reflexivity|lia].
        -- intros (s & H & Hs). destruct (first_index P l) as [s'|];
             simpl in H; [|discriminate]. injection H as <-.
           exists s'. split; [reflexivity|lia].
Qed.

Lemma first_index_lt {A} (P : A -> bool) (l : list A) :
  forall s, first_index P l = Some s -> (s < length l)%nat.
Proof.
  induction l as [|x l IH]; intros s; simpl; [discriminate|].
  destruct (P x); [intros [= <-]; lia|].
  destruct (first_index P l) as [s'|]; simpl; [|discriminate].
  intros [= <-]. specialize (IH s' eq_refl). lia.
Qed.

Lemma existsb_pointwise {A} (P P' : A -> bool) (l : list A) :
  (forall x, P x = P' x) -> existsb P l = existsb P' l.
Proof. intros H. induction l as [|x l IH]; simpl; congruence. Qed.

Section ForwardScan.
Variable run_stage : StageConfig -> Py StageOut.
Variable gate_to_set : nat.
Variable to_sweep : list nat.
Variable responds : Q -> nat -> bool.

(** The stage is an observation: it leaves the world as it is, and
    whether the swept gate shows its signature is a function of the
    driving gate's voltage. *)
Hypothesis stage_observes :
  forall settings g update options w,
    exists reasons res,
      run_stage (mkStageConfig settings [g] update options) w =
      (w, Ok (responds (dc_voltage (gate w gate_to_set)) g, reasons, res)).

Local Abbreviation answer := (response_at responds to_sweep).

Lemma run_and_record_observes g t w :
  equipped w ->
  exists r,
    run_and_record run_stage false g (gate_name g) None t w = (w, Ok r)
    /\ fst (fst r) = responds (dc_voltage (gate w gate_to_set)) g.
Proof.
  intros [Hclassifier [options Hoptions]].
  unfold run_and_record, bind, get_data_settings, pinchoff_classifier,
    pinchoff_fit_options, get_fit_options.
  rewrite Hclassifier, Hoptions.
  destruct (stage_observes (_data_settings w) g false options w)
    as (reasons & res & ->).
  simpl. eexists. split; reflexivity.
Qed.

Lemma forward_sweep_observes st i g F w :
  equipped w ->
  to_sweep !! i = Some g ->
  flags_are (length to_sweep) F (skip_gates st) ->
  exists st1,
    forward_sweep run_stage st i g w = (w, Ok st1)
    /\ flags_are (length to_sweep)
         (fun j => if Nat.eqb j i
                   then F j || answer (dc_voltage (gate w gate_to_set)) j
                   else F j)
         (skip_gates st1).
Proof.
  intros Heq Hg Hflags.
  assert (Hi : (i < length to_sweep)%nat) by (eapply lookup_lt_Some; eauto).
  unfold forward_sweep. rewrite (flags_are_lookup _ _ _ _ Hi Hflags).
  destruct (F i) eqn:HF.
  - eexists. split; [reflexivity|]. simpl.
    eapply flags_are_ext; [|exact Hflags]. intros j.
    destruct (Nat.eqb_spec j i) as [->|]; [now rewrite HF|reflexivity].
  - destruct (run_and_record_observes g (tuningresult st) w Heq)
      as (r & Hr & Hs).
    unfold bind. rewrite Hr, Hs.
    destruct (responds _ g) eqn:Hresp; eexists; (split; [reflexivity|]);
      simpl.
    + pose proof (flags_are_insert _ F _ i Hi Hflags) as Hins.
      eapply flags_are_ext; [|exact Hins]. intros j.
      simpl. destruct (Nat.eqb_spec j i) as [->|]; [|reflexivity].
      unfold response_at. now rewrite HF, Hg, Hresp.
    + eapply flags_are_ext; [|exact Hflags]. intros j.
      destruct (Nat.eqb_spec j i) as [->|]; [|reflexivity].
      unfold response_at. now rewrite HF, Hg, Hresp.
Qed.

Lemma inner_loop_observes rest :
  forall i st F w,
    equipped w ->
    (forall j g, rest !! j = Some g -> to_sweep !! (i + j)%nat = Some g) ->
    flags_are (length to_sweep) F (skip_gates st) ->
    exists st1,
      for_fold_enumerate_from i rest st (forward_sweep run_stage) w =
      (w, Ok st1)
      /\ flags_are (length to_sweep)
           (fun j => if (i <=? j)%nat && (j <? i + length rest)%nat
                     then F j || answer (dc_voltage (gate w gate_to_set)) j
                     else F j)
           (skip_gates st1).
Proof.
  induction rest as [|g rest IH]; intros i st F w Heq Hrest Hflags; simpl.
  - exists st. split; [reflexivity|].
    eapply flags_are_ext; [|exact Hflags]. intros j.
    destruct (Nat.leb_spec i j); destruct (Nat.ltb_spec j (i + 0));
      simpl; try reflexivity; lia.
  - pose proof (Hrest 0%nat g eq_refl) as Hg. rewrite Nat.add_0_r in Hg.
    destruct (forward_sweep_observes st i g F w Heq Hg Hflags)
      as (st1 & Hrun & Hflags1).
    unfold bind. rewrite Hrun.
    destruct (IH (S i) st1
                (fun j => if Nat.eqb j i
                          then F j || answer (dc_voltage (gate w gate_to_set)) j
                          else F j) w Heq) as (st2 & Hrun2 & Hflags2);
      [|exact Hflags1|].
    { intros j g' Hj. replace (S i + j)%nat with (i + S j)%nat by lia.
      now apply Hrest. }
    exists st2. split; [exact Hrun2|].
    eapply flags_are_ext; [|exact Hflags2]. intros j. cbv beta.
    replace (S i + length rest)%nat with (i + S (length rest))%nat by lia.
    destruct (Nat.eqb_spec j i) as [->|Hne].
    + replace (S i <=? i)%nat with false by (symmetry; apply Nat.leb_gt; lia).
      replace (i <=? i)%nat with true by (symmetry; apply Nat.leb_le; lia).
      replace (i <? i + S (length rest))%nat with true
        by (symmetry; apply Nat.ltb_lt; lia).
      reflexivity.
    + replace (S i <=? j)%nat with (i <=? j)%nat; [reflexivity|].
      destruct (Nat.leb_spec i j); symmetry;
        [apply Nat.leb_le|apply Nat.leb_gt]; lia.
Qed.
(** The outer loop: it takes the steps up to the first one after which
    every flag is set, and stops there. *)
Lemma forward_steps_observes v_steps :
  forall m st F w,
    accepting w ->
    equipped w ->
    flags_are (length to_sweep) F (skip_gates st) ->
    (forall j, (j < length to_sweep)%nat ->
       F j || existsb (fun v => answer v j) (take (S m) v_steps) = true) ->
    (forall i, (i < m)%nat ->
       exists j, (j < length to_sweep)%nat
                 /\ F j || existsb (fun v => answer v j)
                             (take (S i) v_steps) = false) ->
    (m < length v_steps)%nat ->
    exists st' w' v,
      forward_steps run_stage gate_to_set to_sweep v_steps st w =
      (w', Ok st')
      /\ v_steps !! m = Some v
      /\ dc_voltage (gate w' gate_to_set) = v
      /\ trace w' =
         trace w ++ map (SetVoltage gate_to_set) (take (S m) v_steps).
Proof.
  induction v_steps as [|v rest IH];
    intros m st F w Hacc Heq Hflags Hall Hmin Hm; [simpl in Hm; lia|].
  simpl forward_steps. unfold bind at 1.
  rewrite (parameter_set_accepted dc_voltage_parameter)
    by apply Hacc.
  set (w1 := with_gate _ _).
  assert (Hv : dc_voltage (gate w1 gate_to_set) = v).
  { subst w1. simpl. unfold update_gate. now rewrite Nat.eqb_refl. }
  assert (Hacc1 : accepting w1) by exact Hacc.
  assert (Heq1 : equipped w1) by exact Heq.
  destruct (inner_loop_observes to_sweep 0 st F w1) as (st1 & Hrun & Hflags1);
    [exact Heq1|intros j g Hg; exact Hg|exact Hflags|].
  rewrite Hv in Hflags1.
  assert (HF1 : flags_are (length to_sweep) (fun j => F j || answer v j)
                  (skip_gates st1)).
  { intros z. rewrite Hflags1.
    destruct (decide (0 <= z < Z.of_nat (length to_sweep))%Z); [|reflexivity].
    replace (Z.to_nat z <? 0 + length to_sweep)%nat with true
      by (symmetry; apply Nat.ltb_lt; lia).
    reflexivity. }
  unfold bind. rewrite Hrun.
  destruct m as [|m].
  - assert (Hdone : all_values (skip_gates st1) = true).
    { apply (flags_are_all_values _ _ _ HF1). intros j Hj.
      specialize (Hall j Hj). simpl in Hall. rewrite ?take_0 in Hall.
      simpl in Hall. now rewrite orb_false_r in Hall. }
    rewrite Hdone. exists st1, w1, v.
    split; [reflexivity|]. split; [reflexivity|]. split; [exact Hv|].
    subst w1. simpl. now rewrite ?take_0.
  - assert (Hnot : all_values (skip_gates st1) = false).
    { destruct (all_values (skip_gates st1)) eqn:Hd; [|reflexivity].
      destruct (Hmin 0%nat) as (j & Hj & Hfalse); [lia|].
      apply (flags_are_all_values _ _ _ HF1) with (j := j) in Hd; [|exact Hj].
      simpl in Hfalse. rewrite ?take_0 in Hfalse. simpl in Hfalse.
      rewrite orb_false_r in Hfalse. congruence. }
    rewrite Hnot.
    destruct (IH m st1 (fun j => F j || answer v j) w1 Hacc1 Heq1 HF1)
      as (st' & w' & v' & Hrun' & Hlook & Hv' & Htrace).
    + intros j Hj. specialize (Hall j Hj). simpl in Hall.
      now rewrite orb_assoc in Hall.
    + intros i Hi. destruct (Hmin (S i)) as (j & Hj & Hfalse); [lia|].
      exists j. split; [exact Hj|]. simpl in Hfalse.
      now rewrite orb_assoc in Hfalse.
    + simpl in Hm. lia.
    + exists st', w', v'. split; [exact Hrun'|]. split; [exact Hlook|].
      split; [exact Hv'|]. rewrite Htrace. subst w1. simpl.
      now rewrite <- app_assoc.
Qed.

(** The forward scan on gates [G1..Gk] read by position, for a stage
    that is an observation (it changes nothing in the world and its
    verdict is a function of the driving gate's voltage), a driver that
    accepts every command and a tuner that has a pinchoff classifier and
    fit options for the pinchoff fit. When [Gi] first responds at step
    [si], every gate responds by step [m], and some gate first responds
    at step [m] (so [m] is the largest of the [si]), the scan takes the
    steps [0..m] and no other, and leaves the driving gate at the voltage
    of step [m]. With [m = 0] that is the first step. *)
Theorem forward_steps_stops_at_last_response v_steps m t0 w :
  accepting w ->
  equipped w ->
  (forall j g, to_sweep !! j = Some g ->
     exists s, first_index (fun v => responds v g) v_steps = Some s
               /\ (s <= m)%nat) ->
  (exists j g, to_sweep !! j = Some g
               /\ first_index (fun v => responds v g) v_steps = Some m) ->
  exists st w' v,
    forward_steps run_stage gate_to_set to_sweep v_steps
      (mkScanLocals
         (fromkeys (map Z.of_nat (seq 0 (length to_sweep))) false)
         PNone None t0) w = (w', Ok st)
    /\ v_steps !! m = Some v
    /\ dc_voltage (gate w' gate_to_set) = v
    /\ trace w' =
       trace w ++ map (SetVoltage gate_to_set) (take (S m) v_steps).
Proof.
  intros Hacc Heq Hall (jm & gm & Hjm & Hm).
  assert (Hans : forall j g, to_sweep !! j = Some g ->
            forall l, existsb (fun v => answer v j) l =
                      existsb (fun v => responds v g) l).
  { intros j g Hg l. apply existsb_pointwise. intros v. unfold response_at.
    now rewrite Hg. }
  apply (forward_steps_observes v_steps m _ (fun _ => false)).
  - exact Hacc.
  - exact Heq.
  - apply flags_are_fromkeys.
  - intros j Hj. destruct (lookup_lt_is_Some_2 to_sweep j Hj) as [g Hg].
    simpl orb. rewrite (Hans j g Hg). apply existsb_take_first_index.
    now apply (Hall j g).
  - intros i Hi. exists jm. split; [eapply lookup_lt_Some; eauto|].
    simpl orb. rewrite (Hans jm gm Hjm).
    destruct (existsb _ (take (S i) v_steps)) eqn:He; [|reflexivity].
    apply existsb_take_first_index in He. destruct He as (s & Hs & Hle).
    rewrite Hm in Hs. injection Hs as <-. lia.
  - eapply first_index_lt. exact Hm.
Qed.
End ForwardScan.

Lemma forward_steps_stops_at_last_response_witness :
  exists st w' v,
    forward_steps (pinches_below 2 (-1)) 2 [0; 1]%nat
      [0; -2 # 3; -4 # 3; -2]
      (mkScanLocals (fromkeys (map Z.of_nat (seq 0 (length [0; 1]%nat))) false)
         PNone None (mkTuningResult "device" [])) sample_world = (w', Ok st)
    /\ [0; -2 # 3; -4 # 3; -2] !! 2%nat = Some v
    /\ dc_voltage (gate w' 2) = v
    /\ trace w' =
       trace sample_world
       ++ map (SetVoltage 2) (take 3 [0; -2 # 3; -4 # 3; -2]).
Proof.
  apply (forward_steps_stops_at_last_response (pinches_below 2 (-1)) 2
           [0; 1]%nat (fun v _ => Qle_bool v (-1))).
  - intros settings g update options w. unfold pinches_below.
    destruct (Qle_bool (dc_voltage (gate w 2)) (-1));
      eexists; eexists; reflexivity.
  - intros c. reflexivity.
  - split; [reflexivity|]. eexists. reflexivity.
  - intros j g Hg. exists 2%nat. split; [reflexivity|lia].
  - exists 0%nat, 0%nat. split; reflexivity.
Defined.

(** ** The loop of getting_signal, given the constants *)

Lemma check_readout_compares reading norm_consts thresholds acc ch w
  c0 c1 raw th :
  assoc ch (readout_methods w) = Some true ->
  norm_consts !! ch = Some (c0, c1) ->
  is_zero (fsub (as_float c1) (as_float c0)) = false ->
  reading ch w = Ok raw ->
  thresholds !! ch = Some th ->
  exists b,
    check_readout reading norm_consts thresholds acc ch w = (w, Ok b)
    /\ (b = true <-> acc = true \/ above_threshold raw c0 c1 th = true).
Proof.
  intros Hp Hc Hne Hr Ht. unfold check_readout.
  rewrite Hp, Hc, Hr, Ht. simpl fst. simpl snd. rewrite Hne.
  fold (above_threshold raw c0 c1 th).
  destruct (above_threshold raw c0 c1 th).
  - exists true. split; [reflexivity|]. tauto.
  - exists acc. split; [reflexivity|]. split; [auto|].
    intros [H|H]; [exact H|discriminate H].
Qed.

(** The comparison of lines 214-225, for constants [norm_consts]
    however obtained. When every channel to check is a parameter with a
    reading, a threshold and constants whose difference [max - min], as
    floats, is not a zero, the loop returns, and it returns true exactly
    when some checked channel has [(raw - min) / (max - min)], computed
    in binary64 arithmetic, strictly above its threshold. *)
Theorem getting_signal_loop_or :
  forall (reading : string -> World -> result Q)
         (norm_consts : gmap string (Q * Q)) (thresholds : gmap string Q)
         (to_check : list string) (w : World),
    (forall ch, In ch to_check ->
       exists c0 c1 raw th,
         assoc ch (readout_methods w) = Some true
         /\ norm_consts !! ch = Some (c0, c1)
         /\ is_zero (fsub (as_float c1) (as_float c0)) = false
         /\ reading ch w = Ok raw
         /\ thresholds !! ch = Some th) ->
    exists b,
      getting_signal_loop reading norm_consts thresholds (Some to_check) w =
      (w, Ok b)
      /\ (b = true <->
          exists ch c0 c1 raw th,
            In ch to_check
            /\ norm_consts !! ch = Some (c0, c1)
            /\ reading ch w = Ok raw
            /\ thresholds !! ch = Some th
            /\ fgt (fdiv (fsub (as_float raw) (as_float c0))
                      (fsub (as_float c1) (as_float c0)))
                 (as_float th) = true).
Proof.
  intros reading norm_consts thresholds to_check w Hall.
  unfold getting_signal_loop.
  assert (Hgen : forall acc,
    exists b,
      for_fold to_check acc (check_readout reading norm_consts thresholds) w
      = (w, Ok b)
      /\ (b = true <->
          acc = true \/
          exists ch c0 c1 raw th,
            In ch to_check
            /\ norm_consts !! ch = Some (c0, c1)
            /\ reading ch w = Ok raw
            /\ thresholds !! ch = Some th
            /\ above_threshold raw c0 c1 th = true)).
  { induction to_check as [|ch rest IH]; intros acc; simpl.
    - exists acc. split; [reflexivity|]. split; [auto|].
      intros [H|(ch & c0 & c1 & raw & th & [] & _)]. exact H.
    - destruct (Hall ch (or_introl eq_refl))
        as (c0 & c1 & raw & th & Hp & Hc & Hne & Hr & Ht).
      destruct (check_readout_compares reading norm_consts thresholds acc
                  ch w c0 c1 raw th Hp Hc Hne Hr Ht) as (b1 & Hrun & Hb1).
      unfold bind. rewrite Hrun.
      destruct (IH (fun c Hin => Hall c (or_intror Hin)) b1)
        as (b & Hrun' & Hb).
      exists b. split; [exact Hrun'|]. rewrite Hb, Hb1. split.
      + intros [[H|H]|(ch' & c0' & c1' & raw' & th' & Hin & H)].
        * now left.
        * right. exists ch, c0, c1, raw, th. simpl. auto.
        * right. exists ch', c0', c1', raw', th'. simpl. tauto.
      + intros [H|(ch' & c0' & c1' & raw' & th' & [<-|Hin] & Hc' & Hr' & Ht'
                   & Hlt)].
        * left. now left.
        * left. right. rewrite Hc in Hc'. rewrite Hr in Hr'.
          rewrite Ht in Ht'. injection Hc' as <- <-. injection Hr' as <-.
          injection Ht' as <-. exact Hlt.
        * right. exists ch', c0', c1', raw', th'. auto.
  }
  destruct (Hgen false) as (b & Hrun & Hb). exists b.
  split; [exact Hrun|]. rewrite Hb. split.
  - intros [H|H]; [discriminate H|exact H].
  - intros H. now right.
Qed.

(** On the sample device the reading is 2 and the constants are (0, 1):
    the normalized signal 2 is above the threshold 1/2. *)
Lemma getting_signal_loop_or_witness :
  exists b,
    getting_signal_loop sample_reading {[ "dc_current" := (0, 1) ]}
      {[ "dc_current" := 1 # 2 ]} (Some ["dc_current"]) sample_world =
    (sample_world, Ok b)
    /\ (b = true <->
        exists ch c0 c1 raw th,
          In ch ["dc_current"]
          /\ ({[ "dc_current" := (0, 1) ]} : gmap string (Q * Q)) !! ch =
             Some (c0, c1)
          /\ sample_reading ch sample_world = Ok raw
          /\ ({[ "dc_current" := 1 # 2 ]} : gmap string Q) !! ch = Some th
          /\ fgt (fdiv (fsub (as_float raw) (as_float c0))
                    (fsub (as_float c1) (as_float c0)))
               (as_float th) = true).
Proof.
  apply (getting_signal_loop_or sample_reading {[ "dc_current" := (0, 1) ]}
           {[ "dc_current" := 1 # 2 ]} ["dc_current"] sample_world).
  intros ch [<-|[]]. exists 0, 1, (-1 + 3), (1 # 2).
  repeat split.
Defined.

(** A reading that normalizes to exactly the threshold is no signal. And
    the comparison is one of floats: with the reading 0.32, the
    constants (0.1, 1.2) and the threshold 0.2 the normalized signal is
    the float next above 0.2, which is a signal, where the exact
    quotient 0.22 / 1.1 equals the threshold. *)
Example getting_signal_loop_at_threshold :
  getting_signal_loop sample_reading {[ "dc_current" := (0, 4) ]}
    {[ "dc_current" := 1 # 2 ]} None sample_world =
  (sample_world, Ok false)
  /\ getting_signal_loop (fun _ _ => Ok (32 # 100))
       {[ "dc_current" := (1 # 10, 12 # 10) ]}
       {[ "dc_current" := 2 # 10 ]} None sample_world =
     (sample_world, Ok true)
  /\ ((32 # 100) - (1 # 10)) / ((12 # 10) - (1 # 10)) == 2 # 10.
Proof. vm_compute. repeat split. Qed.

(** ** Setting several gates *)

Section UpdateGateParameter.
Context {V : Type} (p : GateParameter V).
Hypothesis get_put : forall v g, pget p (pput p v g) = v.

(** The loop of [update_gate_voltages] and [update_gate_ranges] from
    position [i] on, [news] being the values from position [i] on. *)
Lemma update_loop_accepted (new_values : list V) (gs : list nat) :
  forall i w,
    accepting w ->
    exists w',
      for_enumerate_from i gs (fun gid g =>
        match new_values !! gid with
        | Some v => parameter_set p g v
        | None => raise IndexError
        end) w =
      (w', if decide (length gs <= length (drop i new_values))%nat
           then Ok tt else Raise IndexError)
      /\ trace w' = trace w ++ zip_with (pcmd p) gs (drop i new_values)
      /\ rejects w' = rejects w
      /\ (forall k g v,
            gs !! k = Some g -> drop i new_values !! k = Some v ->
            (forall k', (k < k')%nat -> gs !! k' = Some g ->
                        drop i new_values !! k' = None) ->
            pget p (gate w' g) = v)
      /\ (forall g,
            (forall k, gs !! k = Some g -> drop i new_values !! k = None) ->
            gate w' g = gate w g).
Proof.
  induction gs as [|g rest IH]; intros i w Hacc.
  - exists w. simpl for_enumerate_from. unfold ret.
    destruct (decide _) as [_|Hn]; [|simpl in Hn; lia].
    simpl zip_with. rewrite app_nil_r. repeat split; try reflexivity.
    intros k g v Hk. rewrite lookup_nil in Hk. discriminate Hk.
  - simpl for_enumerate_from.
    destruct (new_values !! i) as [v|] eqn:Hi.
    + assert (Hdrop : drop i new_values = v :: drop (S i) new_values).
      { now apply drop_S. }
      unfold bind at 1.
      rewrite parameter_set_accepted by apply Hacc.
      set (w1 := with_gate _ _).
      destruct (IH (S i) w1 Hacc) as (w' & Hrun & Htr & Hrej & Hset & Hout).
      exists w'. rewrite Hrun, Hdrop. split.
      { simpl length.
        destruct (decide (length rest <= length (drop (S i) new_values))%nat);
          [rewrite decide_True by lia|rewrite decide_False by lia];
          reflexivity. }
      split. { rewrite Htr. subst w1. simpl. now rewrite <- app_assoc. }
      split. { rewrite Hrej. reflexivity. }
      split.
      * intros k g' v' Hk Hv Hlast. destruct k as [|k].
        -- simpl in Hk, Hv. injection Hk as <-. injection Hv as <-.
           rewrite Hout.
           ++ subst w1. simpl. unfold update_gate. rewrite Nat.eqb_refl.
              apply get_put.
           ++ intros k Hk. apply (Hlast (S k)); [lia|exact Hk].
        -- simpl in Hk, Hv. apply (Hset k g' v' Hk Hv).
           intros k' Hlt Hk'. apply (Hlast (S k')); [lia|exact Hk'].
      * intros g' Hnone. rewrite Hout.
        -- subst w1. simpl. unfold update_gate.
           destruct (Nat.eqb_spec g' g) as [->|]; [|reflexivity].
           specialize (Hnone 0%nat eq_refl). discriminate Hnone.
        -- intros k Hk. apply (Hnone (S k)). exact Hk.
    + assert (Hdrop : drop i new_values = []).
      { apply drop_ge. now apply lookup_ge_None. }
      exists w. rewrite Hdrop. unfold bind, raise.
      destruct (decide _) as [Hn|_]; [simpl in Hn; lia|].
      simpl zip_with. rewrite app_nil_r.
      repeat split; try reflexivity.
      intros k g' v' _ Hv. rewrite lookup_nil in Hv. discriminate Hv.
Qed.
End UpdateGateParameter.
Lemma unskipped_from_spec skip gs :
  forall i g,
    In g (unskipped_from i skip gs) <->
    exists k, gs !! k = Some g /\ Z.of_nat (i + k) ∉ skip.
Proof.
  induction gs as [|g0 rest IH]; intros i g; simpl.
  - split; [intros []|]. intros (k & Hk & _). rewrite lookup_nil in Hk.
    discriminate Hk.
  - destruct (bool_decide_reflect (Z.of_nat i ∈ skip)) as [Hin|Hnin].
    + rewrite IH. split.
      * intros (k & Hk & Hs). exists (S k). split; [exact Hk|].
        now replace (i + S k)%nat with (S i + k)%nat by lia.
      * intros ([|k] & Hk & Hs).
        -- rewrite Nat.add_0_r in Hs. contradiction.
        -- exists k. split; [exact Hk|].
           now replace (S i + k)%nat with (i + S k)%nat by lia.
    + simpl. rewrite IH. split.
      * intros [->|(k & Hk & Hs)].
        -- exists 0%nat. split; [reflexivity|]. now rewrite Nat.add_0_r.
        -- exists (S k). split; [exact Hk|].
           now replace (i + S k)%nat with (S i + k)%nat by lia.
      * intros ([|k] & Hk & Hs).
        -- left. simpl in Hk. now injection Hk.
        -- right. exists k. split; [exact Hk|].
           now replace (S i + k)%nat with (i + S k)%nat by lia.
Qed.

Lemma clear_loop_accepted skip gs :
  forall i w,
    accepting w ->
    exists w',
      for_enumerate_from i gs (fun ig g =>
        if bool_decide (Z.of_nat ig ∈ skip) then ret tt
        else
          do r <- get_safety_range g;
          parameter_set current_valid_range_parameter g r) w = (w', Ok tt)
      /\ trace w' =
         trace w ++ map (fun g => SetRange g (safety_range (gate w g)))
                      (unskipped_from i skip gs)
      /\ rejects w' = rejects w
      /\ (forall g, In g (unskipped_from i skip gs) ->
            current_valid_range (gate w' g) = safety_range (gate w g))
      /\ (forall g, ~ In g (unskipped_from i skip gs) ->
            gate w' g = gate w g)
      /\ (forall g, dc_voltage (gate w' g) = dc_voltage (gate w g))
      /\ (forall g, safety_range (gate w' g) = safety_range (gate w g)).
Proof.
  induction gs as [|g0 rest IH]; intros i w Hacc.
  - exists w. simpl. unfold ret. rewrite app_nil_r.
    repeat split; try reflexivity. intros g [].
  - simpl. destruct (bool_decide_reflect (Z.of_nat i ∈ skip)) as [Hin|Hnin].
    + unfold bind at 1. unfold ret at 1. apply IH. exact Hacc.
    + unfold bind at 1. unfold bind at 1. unfold get_safety_range at 1.
      rewrite (parameter_set_accepted current_valid_range_parameter)
        by apply Hacc.
      set (w1 := with_gate _ _).
      assert (Hsafe1 : forall g, safety_range (gate w1 g) = safety_range (gate w g)).
      { intros g. subst w1. simpl. unfold update_gate.
        destruct (Nat.eqb g g0); reflexivity. }
      assert (Hvolt1 : forall g, dc_voltage (gate w1 g) = dc_voltage (gate w g)).
      { intros g. subst w1. simpl. unfold update_gate.
        destruct (Nat.eqb g g0); reflexivity. }
      destruct (IH (S i) w1 Hacc)
        as (w' & Hrun & Htr & Hrej & Hin' & Hout & Hvolt & Hsafe).
      exists w'. split; [exact Hrun|].
      split.
      { rewrite Htr. subst w1. simpl trace. rewrite <- app_assoc. simpl.
        f_equal. f_equal. apply map_ext. intros g. f_equal.
        unfold update_gate. destruct (Nat.eqb g g0); reflexivity. }
      split; [rewrite Hrej; reflexivity|].
      split.
      { intros g [<-|Hg].
        - destruct (in_dec Nat.eq_dec g0 (unskipped_from (S i) skip rest))
            as [Hr|Hr].
          + rewrite (Hin' g0 Hr). apply Hsafe1.
          + rewrite (Hout g0 Hr). subst w1. simpl. unfold update_gate.
            now rewrite Nat.eqb_refl.
        - rewrite (Hin' g Hg). apply Hsafe1. }
      split.
      { intros g Hg. rewrite Hout by (intros H; apply Hg; now right).
        subst w1. simpl. unfold update_gate.
        destruct (Nat.eqb_spec g g0) as [->|]; [|reflexivity].
        exfalso. apply Hg. now left. }
      split.
      { intros g. rewrite Hvolt. apply Hvolt1. }
      { intros g. rewrite Hsafe. apply Hsafe1. }
Qed.

(** [update_gate_voltages] and [update_gate_ranges] with a value for every
    gate. When the driver accepts every command and the list of values is
    at least as long as the list of gates, the call returns, one command
    per gate goes out in the order of the list (values past the last gate
    are ignored), each gate holds the value at its position (the value of
    its last position, should it be listed more than once), and a gate that
    is not listed is left as it was. *)
Theorem update_gate_parameter_sets_by_position :
  forall (gs : list nat) (w : World),
    accepting w ->
    (forall new_voltages : list Q,
        (length gs <= length new_voltages)%nat ->
        snd (update_gate_voltages gs new_voltages w) = Ok tt
        /\ trace (fst (update_gate_voltages gs new_voltages w)) =
           trace w ++ zip_with SetVoltage gs new_voltages
        /\ (forall k g v,
              gs !! k = Some g -> new_voltages !! k = Some v ->
              (forall k', (k < k')%nat -> gs !! k' <> Some g) ->
              dc_voltage (gate (fst (update_gate_voltages gs new_voltages w)) g)
              = v)
        /\ (forall g, ~ In g gs ->
              gate (fst (update_gate_voltages gs new_voltages w)) g =
              gate w g))
    /\
    (forall new_valid_ranges : list (Q * Q),
        (length gs <= length new_valid_ranges)%nat ->
        snd (update_gate_ranges gs new_valid_ranges w) = Ok tt
        /\ trace (fst (update_gate_ranges gs new_valid_ranges w)) =
           trace w ++ zip_with SetRange gs new_valid_ranges
        /\ (forall k g r,
              gs !! k = Some g -> new_valid_ranges !! k = Some r ->
              (forall k', (k < k')%nat -> gs !! k' <> Some g) ->
              current_valid_range
                (gate (fst (update_gate_ranges gs new_valid_ranges w)) g) = r)
        /\ (forall g, ~ In g gs ->
              gate (fst (update_gate_ranges gs new_valid_ranges w)) g =
              gate w g)).
Proof.
  intros gs w Hacc. split.
  - intros new Hlen.
    destruct (update_loop_accepted dc_voltage_parameter dc_voltage_get_put
                new gs 0%nat w Hacc)
      as (w' & Hrun & Htr & _ & Hset & Hout).
    rewrite drop_0 in *. rewrite decide_True in Hrun by exact Hlen.
    unfold update_gate_voltages, update_gate_parameter, for_enumerate.
    rewrite Hrun. simpl. split; [reflexivity|]. split; [exact Htr|]. split.
    + intros k g v Hk Hv Hlast. apply (Hset k g v Hk Hv).
      intros k' Hlt Hk'. exfalso. exact (Hlast k' Hlt Hk').
    + intros g Hg. apply Hout. intros k Hk. exfalso. apply Hg.
      apply list_elem_of_In. eapply list_elem_of_lookup_2. exact Hk.
  - intros new Hlen.
    destruct (update_loop_accepted current_valid_range_parameter
                current_valid_range_get_put new gs 0%nat w Hacc)
      as (w' & Hrun & Htr & _ & Hset & Hout).
    rewrite drop_0 in *. rewrite decide_True in Hrun by exact Hlen.
    unfold update_gate_ranges, update_gate_parameter, for_enumerate.
    rewrite Hrun. simpl. split; [reflexivity|]. split; [exact Htr|]. split.
    + intros k g v Hk Hv Hlast. apply (Hset k g v Hk Hv).
      intros k' Hlt Hk'. exfalso. exact (Hlast k' Hlt Hk').
    + intros g Hg. apply Hout. intros k Hk. exfalso. apply Hg.
      apply list_elem_of_In. eapply list_elem_of_lookup_2. exact Hk.
Qed.

Lemma update_gate_parameter_sets_by_position_witness :
  snd (update_gate_voltages [2; 0]%nat [-(1 # 4); -(3 # 4); 5] sample_world)
    = Ok tt
  /\ trace (fst (update_gate_voltages [2; 0]%nat [-(1 # 4); -(3 # 4); 5]
                   sample_world)) =
     [SetVoltage 2 (-(1 # 4)); SetVoltage 0 (-(3 # 4))]
  /\ dc_voltage
       (gate (fst (update_gate_voltages [2; 0]%nat [-(1 # 4); -(3 # 4); 5]
                     sample_world)) 0) = -(3 # 4)
  /\ gate (fst (update_gate_voltages [2; 0]%nat [-(1 # 4); -(3 # 4); 5]
                  sample_world)) 1 = sample_gates 1.
Proof.
  destruct (proj1 (update_gate_parameter_sets_by_position [2; 0]%nat
                     sample_world (fun c => eq_refl))
              [-(1 # 4); -(3 # 4); 5])
    as (Hr & Ht & Hset & Hout).
  { simpl. lia. }
  split; [exact Hr|]. split; [exact Ht|]. split.
  - apply (Hset 1%nat 0%nat); [reflexivity|reflexivity|].
    intros [|[|k']] Hlt H; try lia; discriminate H.
  - apply Hout. intros [H|[H|[]]]; discriminate H.
Defined.

(** [update_gate_voltages] and [update_gate_ranges] with fewer values
    than gates. The gates that have a value are set, in order, and then
    the subscript of the first gate without one raises IndexError: the
    commands already sent stay in effect (nothing is set back), and no
    command goes out for the remaining gates. *)
Theorem update_gate_parameter_short_list :
  forall (gs : list nat) (w : World),
    accepting w ->
    (forall new_voltages : list Q,
        (length new_voltages < length gs)%nat ->
        snd (update_gate_voltages gs new_voltages w) = Raise IndexError
        /\ trace (fst (update_gate_voltages gs new_voltages w)) =
           trace w
           ++ zip_with SetVoltage (take (length new_voltages) gs) new_voltages
        /\ (forall k g v,
              gs !! k = Some g -> new_voltages !! k = Some v ->
              (forall k', (k < k' < length new_voltages)%nat ->
                          gs !! k' <> Some g) ->
              dc_voltage (gate (fst (update_gate_voltages gs new_voltages w)) g)
              = v)
        /\ (forall g, ~ In g (take (length new_voltages) gs) ->
              gate (fst (update_gate_voltages gs new_voltages w)) g =
              gate w g))
    /\
    (forall new_valid_ranges : list (Q * Q),
        (length new_valid_ranges < length gs)%nat ->
        snd (update_gate_ranges gs new_valid_ranges w) = Raise IndexError
        /\ trace (fst (update_gate_ranges gs new_valid_ranges w)) =
           trace w
           ++ zip_with SetRange (take (length new_valid_ranges) gs)
                new_valid_ranges
        /\ (forall k g r,
              gs !! k = Some g -> new_valid_ranges !! k = Some r ->
              (forall k', (k < k' < length new_valid_ranges)%nat ->
                          gs !! k' <> Some g) ->
              current_valid_range
                (gate (fst (update_gate_ranges gs new_valid_ranges w)) g) = r)
        /\ (forall g, ~ In g (take (length new_valid_ranges) gs) ->
              gate (fst (update_gate_ranges gs new_valid_ranges w)) g =
              gate w g)).
Proof.
  intros gs w Hacc. split.
  - intros new Hlen.
    destruct (update_loop_accepted dc_voltage_parameter dc_voltage_get_put
                new gs 0%nat w Hacc)
      as (w' & Hrun & Htr & _ & Hset & Hout).
    rewrite drop_0 in *. rewrite decide_False in Hrun by lia.
    unfold update_gate_voltages, update_gate_parameter, for_enumerate.
    rewrite Hrun. simpl. split; [reflexivity|]. split.
    { rewrite Htr. f_equal. symmetry. apply zip_with_take_l'. lia. }
    split.
    + intros k g v Hk Hv Hlast. apply (Hset k g v Hk Hv).
      intros k' Hlt Hk'. apply lookup_ge_None.
      destruct (Nat.lt_ge_cases k' (length new)) as [Hin|Hge]; [|exact Hge].
      exfalso. apply (Hlast k'); [lia|exact Hk'].
    + intros g Hg. apply Hout. intros k Hk. apply lookup_ge_None.
      destruct (Nat.lt_ge_cases k (length new)) as [Hin|Hge]; [|exact Hge].
      exfalso. apply Hg. apply list_elem_of_In.
      apply (list_elem_of_lookup_2 _ k). rewrite lookup_take_lt by exact Hin.
      exact Hk.
  - intros new Hlen.
    destruct (update_loop_accepted current_valid_range_parameter
                current_valid_range_get_put new gs 0%nat w Hacc)
      as (w' & Hrun & Htr & _ & Hset & Hout).
    rewrite drop_0 in *. rewrite decide_False in Hrun by lia.
    unfold update_gate_ranges, update_gate_parameter, for_enumerate.
    rewrite Hrun. simpl. split; [reflexivity|]. split.
    { rewrite Htr. f_equal. symmetry. apply zip_with_take_l'. lia. }
    split.
    + intros k g v Hk Hv Hlast. apply (Hset k g v Hk Hv).
      intros k' Hlt Hk'. apply lookup_ge_None.
      destruct (Nat.lt_ge_cases k' (length new)) as [Hin|Hge]; [|exact Hge].
      exfalso. apply (Hlast k'); [lia|exact Hk'].
    + intros g Hg. apply Hout. intros k Hk. apply lookup_ge_None.
      destruct (Nat.lt_ge_cases k (length new)) as [Hin|Hge]; [|exact Hge].
      exfalso. apply Hg. apply list_elem_of_In.
      apply (list_elem_of_lookup_2 _ k). rewrite lookup_take_lt by exact Hin.
      exact Hk.
Qed.

Lemma update_gate_parameter_short_list_witness :
  snd (update_gate_ranges [0; 1; 2]%nat [(-1, 0)] sample_world)
    = Raise IndexError
  /\ trace (fst (update_gate_ranges [0; 1; 2]%nat [(-1, 0)] sample_world)) =
     [SetRange 0 (-1, 0)]
  /\ current_valid_range
       (gate (fst (update_gate_ranges [0; 1; 2]%nat [(-1, 0)] sample_world)) 0)
     = (-1, 0)
  /\ gate (fst (update_gate_ranges [0; 1; 2]%nat [(-1, 0)] sample_world)) 1 =
     sample_gates 1.
Proof.
  destruct (proj2 (update_gate_parameter_short_list [0; 1; 2]%nat
                     sample_world (fun c => eq_refl))
              [(-1, 0)])
    as (Hr & Ht & Hset & Hout).
  { simpl. lia. }
  split; [exact Hr|]. split; [exact Ht|]. split.
  - apply (Hset 0%nat 0%nat); [reflexivity|reflexivity|].
    intros k' Hlt. simpl in Hlt. lia.
  - apply Hout. intros [H|[]]. discriminate H.
Defined.

(** [clear_gate_ranges], when the driver accepts every command: the call
    returns; a gate standing at some position of the list that is not
    among [skip_gate_ids] has its safety range as its valid range; a gate
    all of whose positions are skipped, or that is not listed, is left as
    it was; no dc voltage changes; and the commands sent are the range
    commands of the gates not skipped, in the order of the list. The ids
    are positions in the list: a negative id or one past the end skips
    nothing. *)
Theorem clear_gate_ranges_skips_by_position :
  forall (gs : list nat) (skip_gate_ids : list Z) (w : World),
    accepting w ->
    snd (clear_gate_ranges gs skip_gate_ids w) = Ok tt
    /\ (forall g,
          (exists k, gs !! k = Some g /\ Z.of_nat k ∉ skip_gate_ids) ->
          current_valid_range
            (gate (fst (clear_gate_ranges gs skip_gate_ids w)) g) =
          safety_range (gate w g))
    /\ (forall g,
          (forall k, gs !! k = Some g -> Z.of_nat k ∈ skip_gate_ids) ->
          gate (fst (clear_gate_ranges gs skip_gate_ids w)) g = gate w g)
    /\ (forall g,
          dc_voltage (gate (fst (clear_gate_ranges gs skip_gate_ids w)) g) =
          dc_voltage (gate w g))
    /\ trace (fst (clear_gate_ranges gs skip_gate_ids w)) =
       trace w ++ map (fun g => SetRange g (safety_range (gate w g)))
                    (unskipped_from 0 skip_gate_ids gs).
Proof.
  intros gs skip w Hacc.
  destruct (clear_loop_accepted skip gs 0%nat w Hacc)
    as (w' & Hrun & Htr & _ & Hin & Hout & Hvolt & _).
  unfold clear_gate_ranges, for_enumerate. rewrite Hrun. simpl.
  split; [reflexivity|]. split.
  { intros g Hg. apply Hin. apply unskipped_from_spec. exact Hg. }
  split.
  { intros g Hg. apply Hout. intros H. apply unskipped_from_spec in H.
    destruct H as (k & Hk & Hs). apply Hs. simpl. now apply Hg. }
  split; [exact Hvolt|exact Htr].
Qed.

Lemma clear_gate_ranges_skips_by_position_witness :
  snd (clear_gate_ranges [0; 1; 2]%nat [1; -1; 7]%Z sample_world) = Ok tt
  /\ current_valid_range
       (gate (fst (clear_gate_ranges [0; 1; 2]%nat [1; -1; 7]%Z sample_world))
          2) = (-2, 0)
  /\ gate (fst (clear_gate_ranges [0; 1; 2]%nat [1; -1; 7]%Z sample_world)) 1
     = sample_gates 1
  /\ trace (fst (clear_gate_ranges [0; 1; 2]%nat [1; -1; 7]%Z sample_world)) =
     [SetRange 0 (-2, 0); SetRange 2 (-2, 0)].
Proof.
  destruct (clear_gate_ranges_skips_by_position [0; 1; 2]%nat [1; -1; 7]%Z
              sample_world (fun c => eq_refl))
    as (Hr & Hin & Hout & _ & Ht).
  split; [exact Hr|]. split.
  - apply (Hin 2%nat). exists 2%nat. split; [reflexivity|].
    intros H. apply list_elem_of_In in H.
    destruct H as [H|[H|[H|[]]]]; discriminate H.
  - split; [|exact Ht]. apply Hout.
    intros [|[|[|k]]] H; try discriminate H. apply list_elem_of_In. now left.
Defined.

(** ** The settings parameters *)

(** [data_settings(value)] and [fit_options(value)] are [dict.update] on
    the stored dict. After a set, every entry of the new dict reads back,
    every other entry is the one stored before, and so no key the dict
    had is ever lost; setting a parameter to what its getter returns
    changes nothing; two sets in a row are one set of the second dict
    merged over the first. *)
Theorem settings_parameters_merge :
  (forall (new_settings : gmap string Setting) (w : World),
      snd (update_data_settings new_settings w) = Ok tt
      /\ (forall k v, new_settings !! k = Some v ->
            _data_settings (fst (update_data_settings new_settings w)) !! k =
            Some v)
      /\ (forall k, new_settings !! k = None ->
            _data_settings (fst (update_data_settings new_settings w)) !! k =
            _data_settings w !! k)
      /\ (forall k, is_Some (_data_settings w !! k) ->
            is_Some (_data_settings
                       (fst (update_data_settings new_settings w)) !! k)))
  /\ (forall w : World,
        (do s <- get_data_settings; update_data_settings s) w = (w, Ok tt))
  /\ (forall (a b : gmap string Setting) (w : World),
        (update_data_settings a ;;; update_data_settings b) w =
        update_data_settings (b ∪ a) w)
  /\ (forall (V : Type) (new_fit_options _fit_options : gmap string V),
        (forall k v, new_fit_options !! k = Some v ->
           get_fit_options (set_fit_options new_fit_options _fit_options) !! k
           = Some v)
        /\ (forall k, new_fit_options !! k = None ->
              get_fit_options (set_fit_options new_fit_options _fit_options)
                !! k = _fit_options !! k)
        /\ set_fit_options (get_fit_options _fit_options) _fit_options =
           _fit_options).
Proof.
  split; [|split; [|split]].
  - intros new w. simpl. split; [reflexivity|]. split; [|split].
    + intros k v Hk. now apply lookup_union_Some_l.
    + intros k Hk. now apply lookup_union_r.
    + intros k [v Hv]. destruct (new !! k) as [v'|] eqn:Hk.
      * exists v'. now apply lookup_union_Some_l.
      * exists v. rewrite lookup_union_r by exact Hk. exact Hv.
  - intros w. unfold bind, get_data_settings, update_data_settings.
    rewrite (map_union_idemp (_data_settings w)). destruct w. reflexivity.
  - intros a b w. unfold bind, update_data_settings. simpl.
    rewrite map_union_assoc. reflexivity.
  - intros V new old. unfold get_fit_options, set_fit_options.
    split; [|split].
    + intros k v Hk. now apply lookup_union_Some_l.
    + intros k Hk. now apply lookup_union_r.
    + apply map_union_idemp.
Qed.

(** The scope as one step: the block runs on the settings with the
    overlay, then the settings found on entry are merged back over
    whatever the block left. *)
Lemma device_specific_settings_runs {A} (body : Py A) (w : World) :
  let inside :=
    with_data_settings
      (<[ "normalization_constants" := SNorm (normalization_constants w) ]>
         (_data_settings w)) w in
  device_specific_settings body w =
  (with_data_settings
     (_data_settings w ∪ _data_settings (fst (body inside)))
     (fst (body inside)), snd (body inside)).
Proof.
  intros inside.
  unfold device_specific_settings, bind, get_data_settings,
    get_normalization_constants, update_data_settings, try_finally.
  simpl. rewrite <- insert_union_singleton_l. fold inside.
  destruct (body inside) as [w2 r]. reflexivity.
Qed.

(** [device_specific_settings], for any block and whatever the block does
    to the settings: the block runs on the settings with the device's
    constants under [normalization_constants] and its outcome is the
    scope's outcome; after the scope every key the settings had on entry
    has the value it had on entry; a key they did not have on entry is as
    the block left it. *)
Theorem device_specific_settings_restores_entry_keys :
  forall (A : Type) (body : Py A) (w : World),
    let inside :=
      with_data_settings
        (<[ "normalization_constants" := SNorm (normalization_constants w) ]>
           (_data_settings w)) w in
    snd (device_specific_settings body w) = snd (body inside)
    /\ (forall k v, _data_settings w !! k = Some v ->
          _data_settings (fst (device_specific_settings body w)) !! k =
          Some v)
    /\ (forall k, _data_settings w !! k = None ->
          _data_settings (fst (device_specific_settings body w)) !! k =
          _data_settings (fst (body inside)) !! k).
Proof.
  intros A body w inside.
  rewrite (device_specific_settings_runs body w). fold inside. simpl.
  split; [reflexivity|]. split.
  - intros k v Hk. now apply lookup_union_Some_l.
  - intros k Hk. now apply lookup_union_r.
Qed.

(** ** What a rollback scope leaves as the block left it *)

Lemma parameter_set_other_gate {V} (p : GateParameter V) g v g' w :
  g' <> g -> gate (fst (parameter_set p g v w)) g' = gate w g'.
Proof.
  intros Hne. unfold parameter_set.
  destruct (rejects w (pcmd p g v)); simpl; [reflexivity|].
  unfold update_gate. destruct (Nat.eqb_spec g' g); [contradiction|reflexivity].
Qed.

(** The restoring loop sends commands to the gates of its list only. *)
Lemma restore_loop_outside {V} (p : GateParameter V) (saved : list V)
  (gs : list nat) g' :
  ~ In g' gs ->
  forall i w,
    gate (fst (for_enumerate_from i gs (fun ig g =>
                 match saved !! ig with
                 | Some v => parameter_set p g v
                 | None => raise IndexError
                 end) w)) g' = gate w g'.
Proof.
  induction gs as [|g rest IH]; intros Hout i w; simpl; [reflexivity|].
  unfold bind.
  destruct (saved !! i) as [v|]; [|reflexivity].
  pose proof (parameter_set_other_gate p g v g' w) as Hg.
  destruct (parameter_set p g v w) as [w1 [[]|e]]; simpl in *.
  - rewrite IH by tauto. apply Hg. intros ->. apply Hout. now left.
  - apply Hg. intros ->. apply Hout. now left.
Qed.

Lemma voltage_set_keeps_range g v g' :
  unchanged (fun w => current_valid_range (gate w g'))
    (parameter_set dc_voltage_parameter g v).
Proof.
  intros w. unfold parameter_set.
  destruct (rejects w _); simpl; [reflexivity|].
  unfold update_gate. destruct (Nat.eqb g' g); reflexivity.
Qed.

Lemma set_back_outside {V A} (p : GateParameter V) gs (body : Py A) w g :
  ~ In g gs ->
  gate (fst (set_back p gs body w)) g = gate (fst (body w)) g.
Proof.
  intros Hout. unfold set_back, try_finally, for_enumerate.
  destruct (body w) as [w1 r]. simpl.
  pose proof (restore_loop_outside p
                (map (fun g0 => pget p (gate w g0)) gs) gs g Hout 0%nat w1)
    as Hg.
  destruct (for_enumerate_from _ _ _ w1) as [w2 [[]|e]]; exact Hg.
Qed.

Lemma set_back_keeps {X V A} (proj : World -> X) (p : GateParameter V) gs
  (body : Py A) w :
  (forall g v, unchanged proj (parameter_set p g v)) ->
  proj (fst (set_back p gs body w)) = proj (fst (body w)).
Proof.
  intros Hset. unfold set_back, try_finally, for_enumerate.
  destruct (body w) as [w1 r]. simpl.
  assert (Hloop : unchanged proj
            (for_enumerate_from 0 gs (fun ig g =>
               match map (fun g0 => pget p (gate w g0)) gs !! ig with
               | Some v => parameter_set p g v
               | None => raise IndexError
               end))).
  { apply unchanged_for_enumerate_from. intros i g.
    destruct (_ !! i); [apply Hset|apply unchanged_raise]. }
  specialize (Hloop w1).
  destruct (for_enumerate_from _ _ _ w1) as [w2 [[]|e]]; exact Hloop.
Qed.

(** A rollback scope restores the parameter it saved on the gates of its
    list and nothing else, whether or not the driver accepts the restoring
    commands: a gate outside the list is as the block left it, after
    [set_back_voltages] every valid range is as the block left it, and
    after [set_back_valid_ranges] every dc voltage is as the block left it
    and no voltage command has been added to the block's. *)
Theorem set_back_restores_nothing_else :
  forall (A : Type) (gs : list nat) (body : Py A) (w : World),
    (forall g, ~ In g gs ->
       gate (fst (set_back_voltages gs body w)) g = gate (fst (body w)) g
       /\ gate (fst (set_back_valid_ranges gs body w)) g =
          gate (fst (body w)) g)
    /\ (forall g,
          current_valid_range (gate (fst (set_back_voltages gs body w)) g) =
          current_valid_range (gate (fst (body w)) g))
    /\ (forall g,
          dc_voltage (gate (fst (set_back_valid_ranges gs body w)) g) =
          dc_voltage (gate (fst (body w)) g))
    /\ voltage_sets (trace (fst (set_back_valid_ranges gs body w))) =
       voltage_sets (trace (fst (body w))).
Proof.
  intros A gs body w. split; [|split; [|split]].
  - intros g Hg. split; now apply set_back_outside.
  - intros g.
    apply (set_back_keeps (fun w0 => current_valid_range (gate w0 g))).
    intros g0 v. apply voltage_set_keeps_range.
  - intros g.
    apply (set_back_keeps (fun w0 => dc_voltage (gate w0 g))).
    intros g0 v. apply range_set_keeps_voltage.
  - apply (set_back_keeps (fun w0 => voltage_sets (trace w0))).
    intros g0 v. apply range_set_sends_no_voltage.
Qed.

(** ** update_normalization_constants on a device without readout methods *)

Lemma returns_all_gates_to_lowest :
  returns accepting all_gates_to_lowest (fun _ => True).
Proof.
  unfold all_gates_to_lowest.
  apply (returns_dependent accepting (fun w0 =>
    for_enumerate (gates w0) (fun _ g =>
      do r <- get_safety_range g;
      parameter_set dc_voltage_parameter g (range_min r)))).
  intros w0. apply returns_for_enumerate_from. intros i g.
  eapply returns_bind with (mid := fun _ => True).
  - intros w Hw. simpl. eauto.
  - intros r _. apply returns_parameter_set.
Qed.

(** With no readout method both reading loops are empty, so no tuple is
    assigned to and nothing raises: when the driver accepts every
    command, the call ends by handing the device the empty dict. Its
    outcome is that of the device's setter on the empty dict, run when
    every gate of the device is back at the voltage it had and the
    constants are still the ones the device held. Whether these are
    then replaced or kept is the setter's. *)
Theorem update_normalization_constants_without_channels :
  forall (set_normalization_constants : gmap string (Q * Q) -> Py unit)
         (reading : string -> World -> result Q) (w : World),
    readout_methods w = [] ->
    accepting w ->
    exists w1,
      update_normalization_constants set_normalization_constants reading w =
      set_normalization_constants ∅ w1
      /\ (forall g, In g (gates w) ->
            dc_voltage (gate w1 g) = dc_voltage (gate w g))
      /\ normalization_constants w1 = normalization_constants w.
Proof.
  intros set_normalization_constants reading w Hr Hacc.
  unfold update_normalization_constants. rewrite Hr. simpl map.
  set (body := (all_gates_to_lowest ;;; _) : Py unit).
  assert (Hbody : returns accepting body (fun _ => True)).
  { subst body.
    eapply returns_bind; [apply returns_all_gates_to_lowest|]. intros _ _.
    eapply returns_bind with (mid := fun _ => True).
    { apply returns_ret. exact Logic.I. }
    intros _ _.
    eapply returns_bind; [apply returns_all_gates_to_highest|]. intros _ _.
    apply returns_ret. exact Logic.I. }
  destruct (Hbody w Hacc) as (Hacc1 & [] & Hok & _).
  destruct (set_back_accepted dc_voltage_parameter dc_voltage_get_put
              (gates w) body w) as (Hres & Hvolt & _).
  { intros g _. apply Hacc1. }
  assert (Hconstants : normalization_constants
                         (fst (set_back dc_voltage_parameter (gates w) body w))
                       = normalization_constants w).
  { apply (unchanged_set_back normalization_constants dc_voltage_parameter).
    { intros g v. apply unchanged_parameter_set; reflexivity. }
    subst body. apply unchanged_bind.
    { apply (unchanged_all_gates_to _ range_min); reflexivity. }
    intros _. apply unchanged_bind; [apply unchanged_ret|].
    intros _. apply unchanged_bind; [|intros _; apply unchanged_ret].
    apply (unchanged_all_gates_to _ range_max); reflexivity. }
  unfold set_back_voltages, bind.
  destruct (set_back dc_voltage_parameter (gates w) body w) as [w1 r] eqn:Hsb.
  simpl in Hres, Hvolt, Hconstants. rewrite Hok in Hres. subst r.
  exists w1. split; [reflexivity|]. split; [exact Hvolt|exact Hconstants].
Qed.

(** On a device whose setter replaces the constants, the constants the
    device held are lost. *)
Lemma update_normalization_constants_without_channels_witness :
  let w := mkWorld sample_gates (fun _ => false) [] [0; 1; 2]%nat "device"
             [] {[ "dc_current" := (0, 1) ]}
             {[ "db_name" := SStr "experiments.db" ]} sample_fit_options
             ["pinchoff"] ∅ in
  exists w1,
    update_normalization_constants replace_constants sample_reading w =
    (with_normalization_constants ∅ w1, Ok tt)
    /\ (forall g, In g [0; 1; 2]%nat -> dc_voltage (gate w1 g) = -1)
    /\ normalization_constants w1 = {[ "dc_current" := (0, 1) ]}.
Proof.
  intros w.
  apply (update_normalization_constants_without_channels replace_constants
           sample_reading w).
  - reflexivity.
  - intros c. reflexivity.
Defined.

(** ** characterize_gates, when every step goes through *)

Section ReturnsMore.
Variable I : World -> Prop.

Lemma returns_for_fold {A St} (xs : list A) (f : St -> A -> Py St)
  (P : list A -> St -> Prop) :
  (forall done x s, P done s -> returns I (f s x) (P (done ++ [x]))) ->
  forall done s, P done s -> returns I (for_fold xs s f) (P (done ++ xs)).
Proof.
  intros Hf. induction xs as [|x xs IH]; intros done s Hs; simpl.
  - rewrite app_nil_r. now apply returns_ret.
  - eapply returns_bind; [apply Hf; exact Hs|].
    intros s1 Hs1. replace (done ++ x :: xs) with ((done ++ [x]) ++ xs)
      by (rewrite <- app_assoc; reflexivity).
    now apply IH.
Qed.

Lemma returns_reading {A} (f : World -> A) :
  returns I (fun w => (w, Ok (f w))) (fun _ => True).
Proof. intros w Hw. simpl. eauto. Qed.

(** The restoring loop of a rollback scope returns when every set command
    does: the list of saved values is as long as the list of gates. *)
Lemma returns_restore_loop {V} (p : GateParameter V) (saved : list V)
  (gs : list nat) :
  (forall g v, returns I (parameter_set p g v) (fun _ => True)) ->
  forall i, (i + length gs <= length saved)%nat ->
    returns I (for_enumerate_from i gs (fun ig g =>
                 match saved !! ig with
                 | Some v => parameter_set p g v
                 | None => raise IndexError
                 end)) (fun _ => True).
Proof.
  intros Hset. induction gs as [|g rest IH]; intros i Hlen; simpl.
  - now apply returns_ret.
  - simpl in Hlen. destruct (lookup_lt_is_Some_2 saved i) as [v Hv]; [lia|].
    rewrite Hv. eapply returns_bind; [apply Hset|].
    intros _ _. apply IH. lia.
Qed.

Lemma returns_set_back {V A} (p : GateParameter V) gs (body : Py A) post :
  (forall g v, returns I (parameter_set p g v) (fun _ => True)) ->
  returns I body post -> returns I (set_back p gs body) post.
Proof.
  intros Hset Hb. unfold set_back.
  apply (returns_dependent I (fun w0 =>
    try_finally body
      (for_enumerate gs (fun ig g =>
         match map (fun g0 => pget p (gate w0 g0)) gs !! ig with
         | Some v => parameter_set p g v
         | None => raise IndexError
         end)))).
  intros w0. apply returns_try_finally; [exact Hb|].
  apply returns_restore_loop; [exact Hset|].
  rewrite length_map. simpl. lia.
Qed.

Hypothesis I_data_settings : forall s w, I w -> I (with_data_settings s w).

Lemma returns_overlay {A} (body : Py A) post :
  returns I body post -> returns I (device_specific_settings body) post.
Proof.
  intros Hb. unfold device_specific_settings.
  eapply returns_bind; [apply returns_reading|]. intros original _.
  eapply returns_bind; [apply returns_reading|]. intros constants _.
  eapply returns_bind with (mid := fun _ => True).
  { intros w Hw. simpl. split; [now apply I_data_settings|]. eauto. }
  intros _ _. apply returns_try_finally; [exact Hb|].
  intros w Hw. simpl. split; [now apply I_data_settings|]. eauto.
Qed.
End ReturnsMore.

Lemma returns_range_set_named w g r :
  returns (named_as w) (parameter_set current_valid_range_parameter g r)
    (fun _ => True).
Proof.
  intros w0 (Hacc & Hequipped & Hname). unfold parameter_set.
  rewrite (Hacc (pcmd current_valid_range_parameter g r)). simpl.
  split; [|eauto]. split; [exact Hacc|]. split; [exact Hequipped|].
  intros g'. simpl. unfold update_gate.
  destruct (Nat.eqb g' g); [simpl|]; apply Hname.
Qed.

(** One sweep of [characterize_gates] by a stage that returns. *)
Lemma returns_run_and_record_named w run_stage update g comment t :
  (forall cfg, returns (named_as w) (run_stage cfg) (fun _ => True)) ->
  returns (named_as w)
    (run_and_record run_stage update g (gate_name g) comment t)
    (fun r => exists entry,
       snd r = mkTuningResult (result_device t) (entries t ++ [entry])
       /\ entry_name entry = "characterization_" +:+ name (gate w g)
       /\ entry_comment entry = comment).
Proof.
  intros Hstage. unfold run_and_record.
  eapply returns_bind; [apply returns_reading|]. intros settings _.
  eapply returns_bind with (mid := fun _ => True).
  { intros w0 Hw0. pose proof Hw0 as (_ & [Hclassifier _] & _).
    unfold pinchoff_classifier. rewrite Hclassifier. simpl. eauto. }
  intros _ _. eapply returns_bind with (mid := fun _ => True).
  { intros w0 Hw0. pose proof Hw0 as (_ & [_ [options Hoptions]] & _).
    unfold pinchoff_fit_options, get_fit_options. rewrite Hoptions.
    simpl. eauto. }
  intros options _.
  eapply returns_bind; [apply Hstage|]. intros out _.
  eapply returns_bind; [apply returns_reading|]. intros status _.
  eapply returns_bind with (mid := fun n => n = name (gate w g)).
  { intros w0 Hw0. pose proof Hw0 as (_ & _ & Hname).
    split; [exact Hw0|]. simpl. eauto. }
  intros gname ->. apply returns_ret. simpl. unfold add_result.
  eexists. split; [reflexivity|]. split; reflexivity.
Qed.

(** What the part of [characterize_gates] inside the rollback scope
    leaves alone. *)
Lemma unchanged_characterize_block {X} (proj : World -> X) run_stage gs
  (use_safety_ranges : bool) comment t0 :
  (forall g r, unchanged proj
                 (parameter_set current_valid_range_parameter g r)) ->
  (forall s w, proj (with_data_settings s w) = proj w) ->
  (forall cfg, unchanged proj (run_stage cfg)) ->
  unchanged proj
    ((if use_safety_ranges
      then for_enumerate gs (fun _ g =>
             do r <- get_safety_range g;
             parameter_set current_valid_range_parameter g r)
      else ret tt) ;;;
     device_specific_settings
       (for_fold gs t0
          (fun t g =>
             do r <- run_and_record run_stage true g (gate_name g)
                       comment t;
             ret (snd r)))).
Proof.
  intros Hset Hds Hstage.
  apply unchanged_bind.
  - destruct use_safety_ranges; [|apply unchanged_ret].
    apply unchanged_for_enumerate_from. intros i g.
    apply unchanged_bind; [intros w0; reflexivity|]. intros r. apply Hset.
  - intros _. unfold device_specific_settings.
    apply unchanged_bind; [intros w0; reflexivity|]. intros original.
    apply unchanged_bind; [intros w0; reflexivity|]. intros constants.
    apply unchanged_bind; [intros w0; apply Hds|]. intros _.
    apply unchanged_try_finally; [|intros w0; apply Hds].
    apply unchanged_for_fold. intros t g. apply unchanged_bind.
    + apply unchanged_run_and_record; [exact Hstage|].
      intros w0. reflexivity.
    + intros r. apply unchanged_ret.
Qed.

(** [characterize_gates] on a tuner with a pinchoff classifier and fit
    options for the pinchoff fit, a driver that accepts every command
    and a stage that returns and leaves the driver, the classifiers, the
    fit options, the gate names, the device name and the archive alone
    (it may change valid ranges). The call returns a TuningResult of the
    device with one entry per gate, in the order of the list, named
    [characterization_<gate name>] and carrying the comment given or
    else the default one; that result is appended to the archive under
    the device name; and every gate of the list has the valid range it
    had before the call. *)
Theorem characterize_gates_records_every_gate :
  forall (gate_repr : Gate -> string)
         (run_stage : StageConfig -> Py StageOut) (gs : list nat)
         (use_safety_ranges : bool) (comment : option string) (w : World),
    equipped w ->
    accepting w ->
    (forall cfg w0,
        rejects (fst (run_stage cfg w0)) = rejects w0
        /\ classifiers (fst (run_stage cfg w0)) = classifiers w0
        /\ _fit_options (fst (run_stage cfg w0)) = _fit_options w0
        /\ (forall g, name (gate (fst (run_stage cfg w0)) g) = name (gate w0 g))
        /\ device_name (fst (run_stage cfg w0)) = device_name w0
        /\ tuningresults (fst (run_stage cfg w0)) = tuningresults w0
        /\ exists out, snd (run_stage cfg w0) = Ok out) ->
    exists t,
      snd (characterize_gates gate_repr run_stage gs use_safety_ranges
             comment w) = Ok t
      /\ result_device t = device_name w
      /\ map entry_name (entries t) =
         map (fun g => "characterization_" +:+ name (gate w g)) gs
      /\ Forall
           (fun entry =>
              entry_comment entry =
              Some (match comment with
                    | Some c => c
                    | None =>
                        "Characterizing " +:+
                        format_list (map (fun g => gate_repr (gate w g)) gs)
                        +:+ "."
                    end)) (entries t)
      /\ tuningresults
           (fst (characterize_gates gate_repr run_stage gs use_safety_ranges
                   comment w))
         = <[ device_name w :=
                default [] (tuningresults w !! device_name w) ++ [t] ]>
             (tuningresults w)
      /\ (forall g, In g gs ->
            current_valid_range
              (gate (fst (characterize_gates gate_repr run_stage gs
                            use_safety_ranges comment w)) g) =
            current_valid_range (gate w g)).
Proof.
  intros gate_repr run_stage gs use_safety_ranges comment w Hequipped Hacc
    Hstage.
  unfold characterize_gates. rewrite (proj1 Hequipped). simpl negb.
  cbv iota.
  set (c := match comment with Some c0 => c0 | None => _ end).
  set (t0 := mkTuningResult (device_name w) []).
  set (block :=
         ((if use_safety_ranges
           then for_enumerate gs (fun _ g =>
                  do r <- get_safety_range g;
                  parameter_set current_valid_range_parameter g r)
           else ret tt) ;;;
          device_specific_settings
            (for_fold gs t0
               (fun t g =>
                  do r <- run_and_record run_stage true g (gate_name g)
                            (Some c) t;
                  ret (snd r)))) : Py TuningResult).
  set (good := fun t : TuningResult =>
         result_device t = device_name w
         /\ map entry_name (entries t) =
            map (fun g => "characterization_" +:+ name (gate w g)) gs
         /\ Forall (fun entry => entry_comment entry = Some c) (entries t)).
  assert (Hstage_named : forall cfg,
             returns (named_as w) (run_stage cfg) (fun _ => True)).
  { intros cfg w0 (Hacc0 & [Hclassifier0 Hoptions0] & Hname0).
    destruct (Hstage cfg w0)
      as (Hrej & Hcls & Hfit & Hname & _ & _ & out & Hout).
    split; [|eauto]. split; [|split].
    - intros cmd. rewrite Hrej. apply Hacc0.
    - split.
      + unfold has_pinchoff. rewrite Hcls. exact Hclassifier0.
      + rewrite Hfit. exact Hoptions0.
    - intros g. rewrite Hname. apply Hname0. }
  assert (Hblock : returns (named_as w) block good).
  { subst block good. eapply returns_bind with (mid := fun _ => True).
    { destruct use_safety_ranges; [|now apply returns_ret].
      apply returns_for_enumerate_from. intros i g.
      eapply returns_bind; [apply returns_reading|]. intros r _.
      apply returns_range_set_named. }
    intros _ _. apply returns_overlay.
    { intros s w0 Hw0. exact Hw0. }
    refine (returns_for_fold (named_as w) gs _
              (fun done t =>
                 result_device t = device_name w
                 /\ map entry_name (entries t) =
                    map (fun g => "characterization_" +:+ name (gate w g)) done
                 /\ Forall (fun entry => entry_comment entry = Some c)
                      (entries t)) _ [] t0 _).
    - intros done g t (Hdev & Hnames & Hcomments).
      eapply returns_bind;
        [apply returns_run_and_record_named; exact Hstage_named|].
      intros r (entry & Hr & Hname & Hcomment). apply returns_ret.
      rewrite Hr. simpl. split; [exact Hdev|]. split.
      + rewrite !map_app, Hnames. simpl. now rewrite Hname.
      + apply Forall_app. split; [exact Hcomments|]. now constructor.
    - subst t0. simpl. split; [reflexivity|]. split; [reflexivity|].
      constructor. }
  assert (Hscope : returns (named_as w) (set_back_valid_ranges gs block) good).
  { apply returns_set_back; [|exact Hblock].
    intros g v. apply returns_range_set_named. }
  assert (Hkeeps : forall {X} (proj : World -> X),
             (forall g r, unchanged proj
                (parameter_set current_valid_range_parameter g r)) ->
             (forall s w0, proj (with_data_settings s w0) = proj w0) ->
             (forall cfg, unchanged proj (run_stage cfg)) ->
             unchanged proj block).
  { intros X proj H1 H2 H3.
    apply (unchanged_characterize_block proj run_stage gs use_safety_ranges
             (Some c) t0 H1 H2 H3). }
  destruct (Hscope w) as (_ & t & Ht & Hdev & Hnames & Hcomments).
  { split; [exact Hacc|]. split; [exact Hequipped|reflexivity]. }
  assert (Hdevice : device_name (fst (set_back_valid_ranges gs block w)) =
                    device_name w).
  { apply (unchanged_set_back device_name current_valid_range_parameter).
    - intros g r. apply unchanged_parameter_set; reflexivity.
    - apply Hkeeps.
      + intros g r. apply unchanged_parameter_set; reflexivity.
      + reflexivity.
      + intros cfg w0. apply (Hstage cfg w0). }
  assert (Harchive : tuningresults (fst (set_back_valid_ranges gs block w)) =
                     tuningresults w).
  { apply (unchanged_set_back tuningresults current_valid_range_parameter).
    - intros g r. apply unchanged_parameter_set; reflexivity.
    - apply Hkeeps.
      + intros g r. apply unchanged_parameter_set; reflexivity.
      + reflexivity.
      + intros cfg w0. apply (Hstage cfg w0). }
  assert (Hranges : forall g, In g gs ->
            current_valid_range
              (gate (fst (set_back_valid_ranges gs block w)) g) =
            current_valid_range (gate w g)).
  { apply (set_back_accepted current_valid_range_parameter
             current_valid_range_get_put gs block w).
    intros g _.
    assert (Hrej : rejects (fst (block w)) = rejects w).
    { apply Hkeeps.
      - intros g0 r. apply unchanged_parameter_set; reflexivity.
      - reflexivity.
      - intros cfg w0. apply (Hstage cfg w0). }
    rewrite Hrej. apply Hacc. }
  exists t. unfold bind.
  destruct (set_back_valid_ranges gs block w) as [w1 r1] eqn:Hrun.
  simpl in Ht, Hdevice, Harchive, Hranges. subst r1.
  unfold append_tuningresult. simpl.
  rewrite Hdevice, Harchive.
  split; [reflexivity|]. split; [exact Hdev|]. split; [exact Hnames|].
  split; [exact Hcomments|]. split; [reflexivity|exact Hranges].
Qed.

Lemma characterize_gates_records_every_gate_witness :
  exists t,
    snd (characterize_gates sample_repr always_pinches [2; 0]%nat true
           None sample_world) = Ok t
    /\ result_device t = "device"
    /\ map entry_name (entries t) =
       ["characterization_plunger"; "characterization_top_barrier"]
    /\ Forall
         (fun entry =>
            entry_comment entry =
            Some "Characterizing [<Gate: plunger>, <Gate: top_barrier>].")
         (entries t)
    /\ tuningresults
         (fst (characterize_gates sample_repr always_pinches [2; 0]%nat true
                 None sample_world))
       = <[ "device" := [] ++ [t] ]> ∅
    /\ (forall g, In g [2; 0]%nat ->
          current_valid_range
            (gate (fst (characterize_gates sample_repr always_pinches
                          [2; 0]%nat true None sample_world)) g) =
          (-(3 # 2), -(1 # 2))).
Proof.
  apply (characterize_gates_records_every_gate sample_repr always_pinches
           [2; 0]%nat true None sample_world).
  - split; [reflexivity|]. eexists. reflexivity.
  - intros cmd. reflexivity.
  - intros cfg w0. repeat split. eexists. reflexivity.
Defined.

(** ** What characterize_gates changes *)






(** ** The forward scan at its edges *)

Lemma linspace_first np_index start stop steps n :
  np_index steps = Ok (S n) ->
  exists v rest,
    linspace np_index start stop steps = Ok (v :: rest) /\ v == start.
Proof.
  intros Hn. unfold linspace. rewrite Hn. destruct n as [|n].
  - exists start, []. split; reflexivity.
  - eexists. eexists. split; [reflexivity|].
    rewrite Qred_correct. unfold Qdiv.
    change (inject_Z (Z.of_nat 0)) with 0. ring.
Qed.

Lemma all_values_empty : all_values ∅ = true.
Proof. unfold all_values. now rewrite map_to_list_empty. Qed.

(** The forward scan with no gate to sweep. [skip_gates] is the empty
    dict, so [all(skip_gates.values())] holds after the first step: the
    driving gate is set to the first sample, the top of its range, and
    the scan stops, having run no stage and recorded nothing, with
    [last_gate] still [None]. *)
Theorem forward_scan_without_gates :
  forall (run_stage : StageConfig -> Py StageOut)
         (np_index : Q -> result nat) (gate_to_set : nat) (v_range : Q * Q)
         (steps : Q) (n : nat) (w : World),
    np_index steps = Ok (S n) ->
    accepting w ->
    exists st v,
      snd (forward_scan run_stage np_index gate_to_set [] v_range steps w) =
        Ok st
      /\ last_gate st = PNone
      /\ gate_variable st = None
      /\ entries (tuningresult st) = []
      /\ v == range_max v_range
      /\ trace (fst (forward_scan run_stage np_index gate_to_set [] v_range
                       steps w)) = trace w ++ [SetVoltage gate_to_set v].
Proof.
  intros run_stage np_index gate_to_set v_range steps n w Hn Hacc.
  destruct (linspace_first np_index (range_max v_range) (range_min v_range)
              steps n Hn) as (v & rest & Hl & Hv).
  unfold forward_scan. rewrite device_specific_settings_runs.
  cbv zeta. rewrite Hl.
  set (inside := with_data_settings _ w).
  set (st0 := mkScanLocals _ _ _ _).
  assert (Hrun :
    (do v_steps <- lift (Ok (v :: rest));
     forward_steps run_stage gate_to_set [] v_steps st0) inside =
    (with_gate (update_gate gate_to_set (put_dc_voltage v) (gate inside))
       (with_trace (trace inside ++ [SetVoltage gate_to_set v]) inside),
     Ok st0)).
  { unfold bind at 1, lift at 1. simpl forward_steps. unfold bind at 1.
    rewrite (parameter_set_accepted dc_voltage_parameter) by apply Hacc.
    unfold bind, ret. subst st0. unfold fromkeys. simpl.
    rewrite all_values_empty. reflexivity. }
  rewrite Hrun. simpl.
  exists st0, v. repeat split; try reflexivity. exact Hv.
Qed.

Lemma forward_scan_without_gates_witness :
  exists st v,
    snd (forward_scan never_pinches np_index_truncating 2 [] (-2, 0) 4
           sample_world) = Ok st
    /\ last_gate st = PNone
    /\ gate_variable st = None
    /\ entries (tuningresult st) = []
    /\ v == range_max (-2, 0)
    /\ trace (fst (forward_scan never_pinches np_index_truncating 2 [] (-2, 0)
                     4 sample_world)) =
       trace sample_world ++ [SetVoltage 2 v].
Proof.
  apply (forward_scan_without_gates never_pinches np_index_truncating 2
           (-2, 0) 4 3 sample_world).
  - reflexivity.
  - intros c. reflexivity.
Defined.

(** The forward scan on gates none of which has layout id 0.
    [skip_gates] is keyed by the layout ids (line 294) and read by the
    position in the list (line 308): the first lookup, at position 0,
    raises KeyError right after the driving gate has been set to the
    first sample, before any stage is run. *)
Theorem forward_scan_reads_flags_by_position :
  forall (run_stage : StageConfig -> Py StageOut)
         (np_index : Q -> result nat) (gate_to_set g : nat)
         (rest : list nat) (v_range : Q * Q) (steps : Q) (n : nat)
         (w : World),
    np_index steps = Ok (S n) ->
    accepting w ->
    (forall g', In g' (g :: rest) -> layout_id (gate w g') <> 0%Z) ->
    snd (forward_scan run_stage np_index gate_to_set (g :: rest) v_range
           steps w) = Raise KeyError
    /\ exists v,
         v == range_max v_range
         /\ trace (fst (forward_scan run_stage np_index gate_to_set
                          (g :: rest) v_range steps w)) =
            trace w ++ [SetVoltage gate_to_set v].
Proof.
  intros run_stage np_index gate_to_set g rest v_range steps n w Hn Hacc Hids.
  destruct (linspace_first np_index (range_max v_range) (range_min v_range)
              steps n Hn) as (v & vs & Hl & Hv).
  assert (Hkey : fromkeys (map (fun g0 => layout_id (gate w g0)) (g :: rest))
                   false !! Z.of_nat 0 = None).
  { rewrite fromkeys_lookup. rewrite decide_False; [reflexivity|].
    intros Hin. apply list_elem_of_In, in_map_iff in Hin.
    destruct Hin as (g' & Hid & Hg'). exact (Hids g' Hg' Hid). }
  unfold forward_scan. rewrite device_specific_settings_runs.
  cbv zeta. rewrite Hl.
  set (inside := with_data_settings _ w).
  assert (Hrun : forall st0,
    skip_gates st0 !! Z.of_nat 0 = None ->
    (do v_steps <- lift (Ok (v :: vs));
     forward_steps run_stage gate_to_set (g :: rest) v_steps st0) inside =
    (with_gate (update_gate gate_to_set (put_dc_voltage v) (gate inside))
       (with_trace (trace inside ++ [SetVoltage gate_to_set v]) inside),
     Raise KeyError)).
  { intros st0 Hst0. unfold bind at 1, lift at 1. simpl forward_steps.
    unfold bind at 1.
    rewrite (parameter_set_accepted dc_voltage_parameter) by apply Hacc.
    unfold bind at 1. simpl for_fold_enumerate_from. unfold bind at 1.
    unfold forward_sweep. rewrite Hst0. reflexivity. }
  rewrite Hrun by exact Hkey. simpl.
  split; [reflexivity|]. exists v. split; [exact Hv|reflexivity].
Qed.

Lemma forward_scan_reads_flags_by_position_witness :
  snd (forward_scan always_pinches np_index_truncating 0 [1; 2]%nat (-2, 0) 4
         sample_world) = Raise KeyError
  /\ exists v,
       v == range_max (-2, 0)
       /\ trace (fst (forward_scan always_pinches np_index_truncating 0
                        [1; 2]%nat (-2, 0) 4 sample_world)) =
          trace sample_world ++ [SetVoltage 0 v].
Proof.
  apply (forward_scan_reads_flags_by_position always_pinches
           np_index_truncating 0 1 [2]%nat (-2, 0) 4 3 sample_world).
  - reflexivity.
  - intros c. reflexivity.
  - intros g' [<-|[<-|[]]]; discriminate.
Defined.

Section ForwardScanExhausted.
Variable run_stage : StageConfig -> Py StageOut.
Variable gate_to_set : nat.
Variable to_sweep : list nat.
Variable responds : Q -> nat -> bool.

Hypothesis stage_observes :
  forall settings g update options w,
    exists reasons res,
      run_stage (mkStageConfig settings [g] update options) w =
      (w, Ok (responds (dc_voltage (gate w gate_to_set)) g, reasons, res)).

(** The outer loop while some flag stays unset: every step is taken. *)
Lemma forward_steps_runs_out v_steps :
  forall st F w,
    accepting w ->
    equipped w ->
    flags_are (length to_sweep) F (skip_gates st) ->
    (exists j, (j < length to_sweep)%nat /\ F j = false
               /\ forall v, In v v_steps ->
                    response_at responds to_sweep v j = false) ->
    exists st' w',
      forward_steps run_stage gate_to_set to_sweep v_steps st w =
      (w', Ok st')
      /\ trace w' = trace w ++ map (SetVoltage gate_to_set) v_steps
      /\ (forall v, last v_steps = Some v ->
            dc_voltage (gate w' gate_to_set) = v).
Proof.
  induction v_steps as [|v rest IH]; intros st F w Hacc Heq Hflags Hnever.
  - exists st, w. simpl. unfold ret. rewrite app_nil_r.
    split; [reflexivity|]. split; [reflexivity|]. intros v H. discriminate H.
  - destruct Hnever as (j & Hj & HFj & Hans).
    simpl forward_steps. unfold bind at 1.
    rewrite (parameter_set_accepted dc_voltage_parameter) by apply Hacc.
    set (w1 := with_gate _ _).
    assert (Hv : dc_voltage (gate w1 gate_to_set) = v).
    { subst w1. simpl. unfold update_gate. now rewrite Nat.eqb_refl. }
    assert (Hacc1 : accepting w1) by exact Hacc.
    assert (Heq1 : equipped w1) by exact Heq.
    destruct (inner_loop_observes run_stage gate_to_set to_sweep responds
                stage_observes to_sweep 0 st F w1)
      as (st1 & Hrun & Hflags1);
      [exact Heq1|intros k g Hg; exact Hg|exact Hflags|].
    rewrite Hv in Hflags1.
    assert (HF1 : flags_are (length to_sweep)
                    (fun k => F k || response_at responds to_sweep v k)
                    (skip_gates st1)).
    { intros z. rewrite Hflags1.
      destruct (decide (0 <= z < Z.of_nat (length to_sweep))%Z);
        [|reflexivity].
      replace (Z.to_nat z <? 0 + length to_sweep)%nat with true
        by (symmetry; apply Nat.ltb_lt; lia).
      reflexivity. }
    unfold bind. rewrite Hrun.
    assert (Hnot : all_values (skip_gates st1) = false).
    { destruct (all_values (skip_gates st1)) eqn:Hd; [|reflexivity].
      apply (flags_are_all_values _ _ _ HF1) with (j := j) in Hd;
        [|exact Hj].
      rewrite HFj, (Hans v) in Hd by now left. discriminate Hd. }
    rewrite Hnot.
    destruct (IH st1 (fun k => F k || response_at responds to_sweep v k) w1
                Hacc1 Heq1 HF1) as (st' & w' & Hrun' & Htrace & Hlast).
    { exists j. split; [exact Hj|]. split.
      - rewrite HFj, (Hans v) by now left. reflexivity.
      - intros v' Hv'. apply Hans. now right. }
    exists st', w'. split; [exact Hrun'|]. split.
    + rewrite Htrace. subst w1. simpl. now rewrite <- app_assoc.
    + intros v' Hv'. destruct rest as [|v2 rest].
      * simpl in Hv'. injection Hv' as <-. simpl in Hrun'.
        unfold ret in Hrun'. injection Hrun' as <- _. exact Hv.
      * apply Hlast. exact Hv'.
Qed.

(** The forward scan when some gate never responds (gates read by
    position; a stage that is an observation: it changes nothing in the
    world and its verdict is a function of the driving gate's voltage; a
    driver that accepts every command; a tuner that has a pinchoff
    classifier and fit options for the pinchoff fit): the scan takes
    every step, in order, raises nothing when the steps run out, and
    leaves the driving gate at the last sample. *)
Theorem forward_steps_runs_out_of_steps v_steps t0 w :
  accepting w ->
  equipped w ->
  (exists j g, to_sweep !! j = Some g
               /\ forall v, In v v_steps -> responds v g = false) ->
  exists st w',
    forward_steps run_stage gate_to_set to_sweep v_steps
      (mkScanLocals
         (fromkeys (map Z.of_nat (seq 0 (length to_sweep))) false)
         PNone None t0) w = (w', Ok st)
    /\ trace w' = trace w ++ map (SetVoltage gate_to_set) v_steps
    /\ (forall v, last v_steps = Some v ->
          dc_voltage (gate w' gate_to_set) = v).
Proof.
  intros Hacc Heq (j & g & Hg & Hnever).
  apply (forward_steps_runs_out v_steps _ (fun _ => false)).
  - exact Hacc.
  - exact Heq.
  - apply flags_are_fromkeys.
  - exists j. split; [eapply lookup_lt_Some; eauto|].
    split; [reflexivity|]. intros v Hv. unfold response_at.
    rewrite Hg. now apply Hnever.
Qed.
End ForwardScanExhausted.

Lemma forward_steps_runs_out_of_steps_witness :
  exists st w',
    forward_steps (pinches_below 2 (-3)) 2 [0; 1]%nat
      [0; -2 # 3; -4 # 3; -2]
      (mkScanLocals (fromkeys (map Z.of_nat (seq 0 (length [0; 1]%nat))) false)
         PNone None (mkTuningResult "device" [])) sample_world = (w', Ok st)
    /\ trace w' =
       trace sample_world ++ map (SetVoltage 2) [0; -2 # 3; -4 # 3; -2]
    /\ (forall v, last [0; -2 # 3; -4 # 3; -2] = Some v ->
          dc_voltage (gate w' 2) = v).
Proof.
  apply (forward_steps_runs_out_of_steps (pinches_below 2 (-3)) 2
           [0; 1]%nat (fun v _ => Qle_bool v (-3))).
  - intros settings g update options w. unfold pinches_below.
    destruct (Qle_bool (dc_voltage (gate w 2)) (-3));
      eexists; eexists; reflexivity.
  - intros c. reflexivity.
  - split; [reflexivity|]. eexists. reflexivity.
  - exists 0%nat, 0%nat. split; [reflexivity|].
    intros v [<-|[<-|[<-|[<-|[]]]]]; reflexivity.
Defined.

(** ** getting_signal: entries that are no parameter *)

(** The loop of lines 214-225 passes over an entry of the readout methods
    that is not a [qc.Parameter]: it is not read, needs neither constants
    nor a threshold, and never counts as a signal. For channels that all
    are readout methods of the device, the loop does on the list what it
    does on the parameters of the list. *)
Theorem getting_signal_loop_skips_non_parameters :
  forall (reading : string -> World -> result Q)
         (norm_consts : gmap string (Q * Q)) (thresholds : gmap string Q)
         (to_check : list string) (w : World),
    (forall ch, In ch to_check -> assoc ch (readout_methods w) <> None) ->
    getting_signal_loop reading norm_consts thresholds (Some to_check) w =
    getting_signal_loop reading norm_consts thresholds
      (Some (List.filter
               (fun ch => bool_decide
                            (assoc ch (readout_methods w) = Some true))
               to_check)) w.
Proof.
  intros reading norm_consts thresholds to_check w Hknown.
  unfold getting_signal_loop.
  assert (Hstay : forall acc ch,
            fst (check_readout reading norm_consts thresholds acc ch w) = w).
  { intros acc ch. unfold check_readout.
    destruct (assoc ch (readout_methods w)) as [[|]|]; try reflexivity.
    destruct (norm_consts !! ch); [|reflexivity].
    destruct (reading ch w); [|reflexivity].
    destruct (is_zero _); [reflexivity|].
    destruct (thresholds !! ch); reflexivity. }
  generalize false. induction to_check as [|ch rest IH]; intros acc;
    [reflexivity|].
  simpl. destruct (bool_decide_reflect
                     (assoc ch (readout_methods w) = Some true)) as [Hp|Hp].
  - simpl. unfold bind. specialize (Hstay acc ch).
    destruct (check_readout reading norm_consts thresholds acc ch w)
      as [w1 [b|e]]; simpl in Hstay; subst w1; [|reflexivity].
    apply IH. intros c Hc. apply Hknown. now right.
  - assert (Hskip : check_readout reading norm_consts thresholds acc ch w =
                    (w, Ok acc)).
    { unfold check_readout.
      destruct (assoc ch (readout_methods w)) as [[|]|] eqn:Ha.
      - contradiction.
      - reflexivity.
      - exfalso. apply (Hknown ch); [now left|exact Ha]. }
    unfold bind. rewrite Hskip.
    apply IH. intros c Hc. apply Hknown. now right.
Qed.

Lemma getting_signal_loop_skips_non_parameters_witness :
  let w := mkWorld sample_gates (fun _ => false) [] [0; 1; 2]%nat "device"
             [("dc_current", true); ("rf", false)]
             {[ "dc_current" := (0, 1) ]}
             {[ "db_name" := SStr "experiments.db" ]} sample_fit_options
    ["pinchoff"] ∅ in
  getting_signal_loop sample_reading {[ "dc_current" := (0, 1) ]}
    {[ "dc_current" := 1 # 2 ]} (Some ["rf"; "dc_current"]) w =
  getting_signal_loop sample_reading {[ "dc_current" := (0, 1) ]}
    {[ "dc_current" := 1 # 2 ]}
    (Some (List.filter
             (fun ch => bool_decide
                          (assoc ch (readout_methods w) = Some true))
             ["rf"; "dc_current"])) w.
Proof.
  intros w.
  apply (getting_signal_loop_skips_non_parameters sample_reading
           {[ "dc_current" := (0, 1) ]} {[ "dc_current" := 1 # 2 ]}
           ["rf"; "dc_current"] w).
  intros ch [<-|[<-|[]]]; discriminate.
Defined.

(** * The data set *)

(** ** Rounding to a float is monotone *)

Section Rounding.

Lemma pow2_pos e : 0 < pow2 e.
Proof. unfold pow2. now apply Qpower_0_lt. Qed.

Lemma pow2_add a b : pow2 (a + b) == pow2 a * pow2 b.
Proof. unfold pow2. apply Qpower_plus. discriminate. Qed.

Lemma pow2_le a b : (a <= b)%Z -> pow2 a <= pow2 b.
Proof. intros H. unfold pow2. now apply Qpower_le_compat_l. Qed.

Lemma pow2_int e : (0 <= e)%Z -> pow2 e == inject_Z (2 ^ e).
Proof. intros H. unfold pow2. now rewrite (Zpower_Qpower 2 e H). Qed.

Lemma pow2_succ e : pow2 (e + 1) == 2 * pow2 e.
Proof. rewrite pow2_add. unfold pow2 at 2. simpl. lra. Qed.

(** [ilog2] brackets a positive rational between two powers of 2. *)
Lemma ilog2_spec q : 0 < q -> pow2 (ilog2 q) <= q /\ q < pow2 (ilog2 q + 1).
Proof.
  intros Hq. destruct q as [n d]. unfold ilog2. simpl Qnum. simpl Qden.
  assert (Hn : (0 < n)%Z).
  { unfold Qlt in Hq. simpl in Hq. lia. }
  rewrite (Z.abs_eq n) by lia.
  rewrite (Qabs_pos (n # d)) by lra.
  set (ln := Z.log2 n). set (ld := Z.log2 (Z.pos d)).
  destruct (Z.log2_spec n Hn) as [Hn1 Hn2].
  destruct (Z.log2_spec (Z.pos d) eq_refl) as [Hd1 Hd2].
  fold ln in Hn1, Hn2. fold ld in Hd1, Hd2.
  assert (Hln : (0 <= ln)%Z) by apply Z.log2_nonneg.
  assert (Hld : (0 <= ld)%Z) by apply Z.log2_nonneg.
  assert (HA := pow2_pos ln). assert (HB := pow2_pos ld).
  assert (HN1 : pow2 ln <= inject_Z n).
  { rewrite pow2_int by lia. now rewrite <- Zle_Qle. }
  assert (HN2 : inject_Z n < 2 * pow2 ln).
  { rewrite <- pow2_succ, pow2_int by lia. rewrite <- Zlt_Qlt.
    now rewrite <- Z.add_1_r in Hn2. }
  assert (HD1 : pow2 ld <= inject_Z (Z.pos d)).
  { rewrite pow2_int by lia. now rewrite <- Zle_Qle. }
  assert (HD2 : inject_Z (Z.pos d) < 2 * pow2 ld).
  { rewrite <- pow2_succ, pow2_int by lia. rewrite <- Zlt_Qlt.
    now rewrite <- Z.add_1_r in Hd2. }
  assert (Hq' : n # d == inject_Z n / inject_Z (Z.pos d)) by apply Qmake_Qdiv.
  assert (HD : 0 < inject_Z (Z.pos d)) by (rewrite <- (Zlt_Qlt 0); lia).
  assert (He : pow2 ln == pow2 (ln - ld) * pow2 ld).
  { rewrite <- pow2_add. now replace (ln - ld + ld)%Z with ln by lia. }
  assert (HE := pow2_pos (ln - ld)).
  assert (Hup : n # d < pow2 (ln - ld + 1)).
  { rewrite Hq', pow2_succ. apply Qlt_shift_div_r; [exact HD|]. nra. }
  assert (Hlo : pow2 (ln - ld - 1) <= n # d).
  { assert (Hh : pow2 (ln - ld) == 2 * pow2 (ln - ld - 1)).
    { rewrite <- pow2_succ. now replace (ln - ld - 1 + 1)%Z with (ln - ld)%Z by lia. }
    rewrite Hq'. apply Qle_shift_div_l; [exact HD|]. nra. }
  destruct (Qle_bool (pow2 (ln - ld)) (n # d)) eqn:Hc.
  - apply Qle_bool_iff in Hc. split; [exact Hc|exact Hup].
  - split; [exact Hlo|].
    replace (ln - ld - 1 + 1)%Z with (ln - ld)%Z by lia.
    apply Qnot_le_lt. intros H. apply Qle_bool_iff in H. congruence.
Qed.

Lemma round_half_even_cases x :
  round_half_even x = Qfloor x \/ round_half_even x = (Qfloor x + 1)%Z.
Proof.
  unfold round_half_even.
  destruct (Qcompare _ _); [destruct (Z.even _)| |]; auto.
Qed.

Lemma round_half_even_le x y :
  x <= y -> (round_half_even x <= round_half_even y)%Z.
Proof.
  intros Hxy. pose proof (Qfloor_resp_le x y Hxy) as Hf.
  destruct (Z.eq_dec (Qfloor x) (Qfloor y)) as [He|Hne].
  - unfold round_half_even. rewrite <- He.
    destruct (Qcompare_spec (x - inject_Z (Qfloor x)) (1 # 2)) as [H1|H1|H1];
      destruct (Qcompare_spec (y - inject_Z (Qfloor x)) (1 # 2))
        as [H2|H2|H2];
      try lia; try (exfalso; lra);
      destruct (Z.even (Qfloor x)); lia.
  - destruct (round_half_even_cases x) as [-> | ->];
      destruct (round_half_even_cases y) as [-> | ->]; lia.
Qed.

Lemma round_half_even_int n : round_half_even (inject_Z n) = n.
Proof.
  unfold round_half_even. rewrite Qfloor_Z.
  destruct (Qcompare_spec (inject_Z n - inject_Z n) (1 # 2)) as [H|H|H];
    [exfalso; lra|reflexivity|exfalso; lra].
Qed.

Lemma ilog2_le a b : 0 < a -> a <= b -> (ilog2 a <= ilog2 b)%Z.
Proof.
  intros Ha Hab.
  destruct (ilog2_spec a Ha) as [Ha1 _].
  destruct (ilog2_spec b) as [_ Hb2]; [lra|].
  destruct (Z_lt_le_dec (ilog2 b) (ilog2 a)) as [Hlt|Hle]; [|exact Hle].
  exfalso. assert (pow2 (ilog2 b + 1) <= pow2 (ilog2 a)) by (apply pow2_le; lia).
  lra.
Qed.

Lemma rounded_nonneg a : 0 < a -> 0 <= rounded a.
Proof.
  intros Ha. unfold rounded.
  set (u := pow2 _). assert (Hu : 0 < u) by apply pow2_pos.
  assert (0 <= a / u) by (apply Qle_shift_div_l; lra).
  pose proof (round_half_even_le 0 (a / u) H) as Hr.
  change 0 with (inject_Z 0) in Hr at 1. rewrite round_half_even_int in Hr.
  assert (0 <= inject_Z (round_half_even (a / u))).
  { change 0 with (inject_Z 0). now rewrite <- Zle_Qle. }
  nra.
Qed.

Lemma rounded_le a b : 0 < a -> a <= b -> rounded a <= rounded b.
Proof.
  intros Ha Hab. assert (Hb : 0 < b) by lra.
  pose proof (ilog2_le a b Ha Hab) as Hexp.
  unfold rounded.
  set (ka := Z.max (ilog2 a - 52) (-1074)).
  set (kb := Z.max (ilog2 b - 52) (-1074)).
  assert (Hua := pow2_pos ka). assert (Hub := pow2_pos kb).
  destruct (Z.eq_dec ka kb) as [He|Hne].
  - rewrite <- He.
    assert (Hq : a / pow2 ka <= b / pow2 ka).
    { apply Qle_shift_div_l; [exact Hua|].
      assert (Hs : a / pow2 ka * pow2 ka == a) by (field; lra). lra. }
    apply round_half_even_le in Hq. rewrite Zle_Qle in Hq. nra.
  - assert (Hk : (ka < kb)%Z) by lia.
    assert (Hkb : kb = (ilog2 b - 52)%Z) by lia.
    destruct (ilog2_spec a Ha) as [_ Ha2].
    destruct (ilog2_spec b Hb) as [Hb1 _].
    set (eb := ilog2 b) in *.
    assert (Hab2 : pow2 (ilog2 a + 1) <= pow2 eb) by (apply pow2_le; lia).
    assert (Hsplit_a : pow2 eb == inject_Z (2 ^ (eb - ka)) * pow2 ka).
    { rewrite <- pow2_int by lia. rewrite <- pow2_add.
      now replace (eb - ka + ka)%Z with eb by lia. }
    assert (Hra : inject_Z (round_half_even (a / pow2 ka)) * pow2 ka
                  <= pow2 eb).
    { assert (Hq : a / pow2 ka <= inject_Z (2 ^ (eb - ka))).
      { apply Qle_shift_div_r; [exact Hua|]. lra. }
      apply round_half_even_le in Hq. rewrite round_half_even_int in Hq.
      rewrite Zle_Qle in Hq. rewrite Hsplit_a. nra. }
    assert (Hsplit_b : pow2 eb == inject_Z (2 ^ 52) * pow2 kb).
    { rewrite <- pow2_int by lia. rewrite <- pow2_add.
      now replace (52 + kb)%Z with eb by lia. }
    assert (Hrb : pow2 eb
                  <= inject_Z (round_half_even (b / pow2 kb)) * pow2 kb).
    { assert (Hq : inject_Z (2 ^ 52) <= b / pow2 kb).
      { apply Qle_shift_div_l; [exact Hub|]. lra. }
      apply round_half_even_le in Hq. rewrite round_half_even_int in Hq.
      rewrite Zle_Qle in Hq. rewrite Hsplit_b. nra. }
    lra.
Qed.

(** Rounding is monotone: below a float, a positive result rounds to a
    float that is not above it. *)
Lemma round64_le a b d :
  0 < a -> a <= b -> round64 b = Finite d ->
  exists n, round64 a = Finite n /\ 0 <= n <= d.
Proof.
  intros Ha Hab Hb. assert (Hbpos : 0 < b) by lra.
  pose proof (rounded_le a b Ha Hab) as Hle.
  pose proof (rounded_nonneg a Ha) as Hna.
  unfold rounded in Hle, Hna. unfold round64 in Hb |- *.
  assert (Hza : Qeq_bool a 0 = false).
  { apply not_true_is_false. intros H. apply Qeq_bool_iff in H. lra. }
  assert (Hzb : Qeq_bool b 0 = false).
  { apply not_true_is_false. intros H. apply Qeq_bool_iff in H. lra. }
  rewrite Hza. rewrite Hzb in Hb.
  set (ra := inject_Z (round_half_even (a / pow2 (Z.max (ilog2 a - 52) (-1074))))
             * pow2 (Z.max (ilog2 a - 52) (-1074))) in *.
  set (rb := inject_Z (round_half_even (b / pow2 (Z.max (ilog2 b - 52) (-1074))))
             * pow2 (Z.max (ilog2 b - 52) (-1074))) in *.
  assert (H0a : Qle_bool 0 a = true) by (apply Qle_bool_iff; lra).
  assert (H0b : Qle_bool 0 b = true) by (apply Qle_bool_iff; lra).
  rewrite H0a. rewrite H0b in Hb.
  destruct (Qle_bool (pow2 1024) (Qabs rb)) eqn:Hob; [discriminate Hb|].
  assert (Hrb : rb < pow2 1024).
  { apply Qnot_le_lt. intros H.
    assert (Qle_bool (pow2 1024) (Qabs rb) = true).
    { apply Qle_bool_iff. rewrite Qabs_pos by lra. exact H. }
    congruence. }
  assert (Hd : d == rb).
  { destruct (round_half_even _ =? 0)%Z eqn:Hm in Hb.
    - injection Hb as <-. apply Z.eqb_eq in Hm. subst rb. rewrite Hm.
      change (inject_Z 0) with 0. lra.
    - injection Hb as <-. apply Qred_correct. }
  assert (Hoa : Qle_bool (pow2 1024) (Qabs ra) = false).
  { apply not_true_is_false. intros H. apply Qle_bool_iff in H.
    rewrite Qabs_pos in H by exact Hna. lra. }
  rewrite Hoa. clear Hb.
  destruct (round_half_even (a / _) =? 0)%Z eqn:Hm.
  - exists 0. split; [reflexivity|]. lra.
  - exists (Qred ra). split; [reflexivity|]. rewrite Qred_correct. lra.
Qed.

End Rounding.

Section DatasetNormalization.
Import Dataset.

Lemma Qle_bool_false x y : Qle_bool x y = false -> y < x.
Proof.
  intros H. apply Qnot_le_lt. intros Hle. apply Qle_bool_iff in Hle.
  congruence.
Qed.

Ltac order_cases :=
  simpl;
  repeat (match goal with
          | |- context [Qle_bool ?x ?y] =>
              let H := fresh "H" in destruct (Qle_bool x y) eqn:H
          end; simpl);
  try reflexivity; try discriminate; auto;
  exfalso;
  repeat match goal with
         | H : Qle_bool _ _ = true |- _ => apply Qle_bool_iff in H
         | H : Qle_bool _ _ = false |- _ => apply Qle_bool_false in H
         end;
  lra.

Lemma fgt_nan_l t : fgt NaN t = false.
Proof. now destruct t. Qed.

Lemma flt_nan_l t : flt NaN t = false.
Proof. reflexivity. Qed.

Lemma fmax_cases a b : a <> NaN -> b <> NaN -> fmax a b = a \/ fmax a b = b.
Proof.
  intros Ha Hb. destruct a, b; try congruence; unfold fmax;
    match goal with |- context [flt ?x ?y] => destruct (flt x y) end; auto.
Qed.

Lemma fmin_cases a b : a <> NaN -> b <> NaN -> fmin a b = a \/ fmin a b = b.
Proof.
  intros Ha Hb. destruct a, b; try congruence; unfold fmin;
    match goal with |- context [flt ?x ?y] => destruct (flt x y) end; auto.
Qed.

(** The larger of two floats is above [t] when one of them is. *)
Lemma fgt_fmax a b t :
  a <> NaN -> b <> NaN -> fgt (fmax a b) t = fgt a t || fgt b t.
Proof.
  intros Ha Hb. destruct a, b; try congruence; destruct t;
    unfold fgt, fmax, flt; order_cases.
Qed.

Lemma flt_fmin a b t :
  a <> NaN -> b <> NaN -> flt (fmin a b) t = flt a t || flt b t.
Proof.
  intros Ha Hb. destruct a, b; try congruence; destruct t;
    unfold fmin, flt; order_cases.
Qed.

Lemma fold_fmax_above (l : list float64) : forall a t,
  ~ In NaN (a :: l) ->
  fgt (fold_left fmax l a) t = existsb (fun y => fgt y t) (a :: l).
Proof.
  induction l as [|b l IH]; intros a t Hn; simpl.
  - now rewrite orb_false_r.
  - assert (Ha : a <> NaN) by (intros ->; apply Hn; now left).
    assert (Hb : b <> NaN) by (intros ->; apply Hn; right; now left).
    rewrite IH.
    + simpl. now rewrite fgt_fmax, orb_assoc.
    + intros [H|H].
      * destruct (fmax_cases a b Ha Hb) as [He|He]; rewrite He in H;
          congruence.
      * apply Hn. right. now right.
Qed.

Lemma fold_fmin_below (l : list float64) : forall a t,
  ~ In NaN (a :: l) ->
  flt (fold_left fmin l a) t = existsb (fun y => flt y t) (a :: l).
Proof.
  induction l as [|b l IH]; intros a t Hn; simpl.
  - now rewrite orb_false_r.
  - assert (Ha : a <> NaN) by (intros ->; apply Hn; now left).
    assert (Hb : b <> NaN) by (intros ->; apply Hn; right; now left).
    rewrite IH.
    + simpl. now rewrite flt_fmin, orb_assoc.
    + intros [H|H].
      * destruct (fmin_cases a b Ha Hb) as [He|He]; rewrite He in H;
          congruence.
      * apply Hn. right. now right.
Qed.

Lemma fold_fmax_nan (l : list float64) : fold_left fmax l NaN = NaN.
Proof. induction l as [|x l IH]; simpl; [reflexivity|exact IH]. Qed.

Lemma fold_fmin_nan (l : list float64) : fold_left fmin l NaN = NaN.
Proof. induction l as [|x l IH]; simpl; [reflexivity|exact IH]. Qed.

Lemma fmax_nan_r a : fmax a NaN = NaN.
Proof. now destruct a. Qed.

Lemma fmin_nan_r a : fmin a NaN = NaN.
Proof. now destruct a. Qed.

(** [np.max] and [np.min] of an array that holds a NaN are NaN. *)
Lemma fold_with_nan (l : list float64) : forall a,
  In NaN (a :: l) ->
  fold_left fmax l a = NaN /\ fold_left fmin l a = NaN.
Proof.
  induction l as [|x l IH]; intros a Hin.
  - destruct Hin as [->|[]]. now split.
  - simpl. destruct Hin as [->|[->|Hin]].
    + simpl. split; [apply fold_fmax_nan|apply fold_fmin_nan].
    + rewrite fmax_nan_r, fmin_nan_r.
      split; [apply fold_fmax_nan|apply fold_fmin_nan].
    + split.
      * apply (IH (fmax a x)). now right.
      * apply (IH (fmin a x)). now right.
Qed.

Lemma in_nan_dec (l : list float64) : {In NaN l} + {~ In NaN l}.
Proof.
  induction l as [|x l [IH|IH]].
  - right. intros [].
  - left. now right.
  - destruct x; try (right; intros [H|H]; [discriminate H|contradiction]).
    left. now left.
Qed.

(** The test of line 272 on a non-empty array. *)
Lemma warning_test (a : float64) (l : list float64) (lo hi : float64) :
  fgt (fold_left fmax l a) hi || flt (fold_left fmin l a) lo = true <->
  ~ In NaN (a :: l)
  /\ exists y, In y (a :: l) /\ (fgt y hi = true \/ flt y lo = true).
Proof.
  destruct (in_nan_dec (a :: l)) as [Hnan|Hnan].
  - destruct (fold_with_nan l a Hnan) as [-> ->].
    rewrite fgt_nan_l, flt_nan_l. simpl. split; [discriminate|].
    intros [H _]. contradiction.
  - rewrite (fold_fmax_above l a hi Hnan), (fold_fmin_below l a lo Hnan).
    rewrite orb_true_iff, !existsb_exists. split.
    + intros [(y & Hy & H)|(y & Hy & H)]; (split; [exact Hnan|]); eauto.
    + intros (_ & y & Hy & [H|H]); eauto.
Qed.

(** The call on a signal type with two constants and a signal that is
    not empty. *)
Lemma normalize_data_runs constants tol signal_type minv maxv more x xs :
  assoc signal_type constants = Some (minv :: maxv :: more) ->
  _normalize_data constants tol (x :: xs) signal_type =
  Return
    (map (fun x => fdiv (fsub x minv) (fsub maxv minv)) (x :: xs),
     fgt (fold_left fmax
            (map (fun x => fdiv (fsub x minv) (fsub maxv minv)) xs)
            (fdiv (fsub x minv) (fsub maxv minv))) (snd tol)
     || flt (fold_left fmin
               (map (fun x => fdiv (fsub x minv) (fsub maxv minv)) xs)
               (fdiv (fsub x minv) (fsub maxv minv))) (fst tol)).
Proof.
  intros Hc. unfold _normalize_data. rewrite Hc. reflexivity.
Qed.

(** ** _normalize_data *)

(** A signal type with two constants and a signal that is not empty: the
    call returns [(x - minv) / (maxv - minv)] for every reading [x],
    computed in binary64 arithmetic, and it logs the warning exactly
    when the returned array holds no NaN and one of its elements is
    above the upper or below the lower tolerance. Nothing requires
    [minv < maxv], nor that the constants differ. *)
Theorem normalize_data_warns_outside_tolerances :
  forall (constants : list (string * list float64)) (tol : float64 * float64)
         (signal_type : string) (minv maxv : float64) (more : list float64)
         (x : float64) (xs : list float64),
    assoc signal_type constants = Some (minv :: maxv :: more) ->
    exists warned,
      _normalize_data constants tol (x :: xs) signal_type =
      Return (map (fun x => fdiv (fsub x minv) (fsub maxv minv)) (x :: xs),
              warned)
      /\ (warned = true <->
          ~ In NaN (map (fun x => fdiv (fsub x minv) (fsub maxv minv))
                      (x :: xs))
          /\ exists y,
               In y (map (fun x => fdiv (fsub x minv) (fsub maxv minv))
                       (x :: xs))
               /\ (fgt y (snd tol) = true \/ flt y (fst tol) = true)).
Proof.
  intros constants tol signal_type minv maxv more x xs Hc.
  rewrite (normalize_data_runs constants tol signal_type minv maxv more x xs
             Hc).
  eexists. split; [reflexivity|]. apply warning_test.
Qed.

(** The readings 2, 3 and 5 with the constants 2 and 4. *)
Lemma normalize_data_warns_outside_tolerances_witness :
  exists warned,
    _normalize_data [("transport", [Finite 2; Finite 4])]
      (as_float (-1 # 10), as_float (11 # 10))
      [Finite 2; Finite 3; Finite 5] "transport" =
    Return (map (fun x => fdiv (fsub x (Finite 2))
                            (fsub (Finite 4) (Finite 2)))
              [Finite 2; Finite 3; Finite 5], warned)
    /\ (warned = true <->
        ~ In NaN (map (fun x => fdiv (fsub x (Finite 2))
                                  (fsub (Finite 4) (Finite 2)))
                    [Finite 2; Finite 3; Finite 5])
        /\ exists y,
             In y (map (fun x => fdiv (fsub x (Finite 2))
                                   (fsub (Finite 4) (Finite 2)))
                     [Finite 2; Finite 3; Finite 5])
             /\ (fgt y (snd (as_float (-1 # 10), as_float (11 # 10))) = true
                 \/ flt y (fst (as_float (-1 # 10), as_float (11 # 10)))
                    = true)).
Proof.
  apply (normalize_data_warns_outside_tolerances
           [("transport", [Finite 2; Finite 4])]
           (as_float (-1 # 10), as_float (11 # 10)) "transport"
           (Finite 2) (Finite 4) [] (Finite 2) [Finite 3; Finite 5]).
  reflexivity.
Defined.

(** Three runs with the tolerances (-0.1, 1.1). The readings 2, 3 and 5
    with the constants (2, 4) give 0, 0.5 and 1.5, and the warning. The
    reading -0.19 with the constants (0.1, 3.0) gives the float next
    below -0.1, and the warning, where the exact quotient is -0.1. The
    reading 1e308 with the constants (-1e308, 1e308) lies between them,
    yet both differences overflow: the result is NaN, without a
    warning. *)
Example normalize_data_sample :
  _normalize_data [("transport", [Finite 2; Finite 4])]
    (as_float (-1 # 10), as_float (11 # 10))
    [Finite 2; Finite 3; Finite 5] "transport" =
  Return ([Finite 0; Finite (1 # 2); Finite (3 # 2)], true)
  /\ _normalize_data [("transport", [as_float (1 # 10); Finite 3])]
       (as_float (-1 # 10), as_float (11 # 10))
       [as_float (-19 # 100)] "transport" =
     Return ([Finite (-7205759403792795 # 72057594037927936)], true)
  /\ as_float (-1 # 10) = Finite (-3602879701896397 # 36028797018963968)
  /\ ((-19 # 100) - (1 # 10)) / (3 - (1 # 10)) == -1 # 10
  /\ _normalize_data
       [("transport", [as_float (- inject_Z (10 ^ 308));
                        as_float (inject_Z (10 ^ 308))])]
       (as_float (-1 # 10), as_float (11 # 10))
       [as_float (inject_Z (10 ^ 308))] "transport" =
     Return ([NaN], false).
Proof. vm_compute. repeat split. Qed.

(** The quotient by a zero. *)
Lemma fdiv_by_zero (n d : float64) :
  is_zero d = true ->
  fdiv n d =
  match n with
  | NaN => NaN
  | _ => if is_zero n then NaN
         else signed_inf (xorb (negative n) (negative d))
  end.
Proof.
  intros Hd. destruct d as [q| | | |]; try discriminate Hd;
    destruct n as [p| | | |]; simpl in *; try reflexivity;
    rewrite ?Hd; reflexivity.
Qed.

Lemma round64_not_nan (q : Q) : round64 q <> NaN.
Proof.
  unfold round64.
  repeat match goal with
         | |- context [if ?b then _ else _] => destruct b
         end; discriminate.
Qed.

Lemma fsub_finite_not_nan (x y : float64) p q :
  finite_value x = Some p -> finite_value y = Some q -> fsub x y <> NaN.
Proof.
  intros Hx Hy.
  destruct x; try discriminate Hx; destruct y; try discriminate Hy;
    simpl in Hx, Hy; injection Hx as <-; injection Hy as <-;
    unfold fsub, finite_value, signed_zero;
    match goal with
    | |- context [Qeq_bool ?a ?b] => destruct (Qeq_bool a b)
    end;
    try apply round64_not_nan;
    repeat match goal with
           | |- context [if ?b then _ else _] => destruct b
           end; discriminate.
Qed.

Lemma zero_difference_is_finite (minv maxv : float64) :
  is_zero (fsub maxv minv) = true -> exists c, finite_value minv = Some c.
Proof.
  intros Hz. destruct minv; simpl; eauto; destruct maxv; discriminate Hz.
Qed.

Lemma fsub_not_nan (x minv maxv : float64) :
  is_zero (fsub maxv minv) = true -> fsub x minv = NaN -> x = NaN.
Proof.
  intros Hz Hn. destruct (zero_difference_is_finite minv maxv Hz) as [c Hc].
  destruct x as [p| | | |].
  - exfalso. now apply (fsub_finite_not_nan (Finite p) minv p c).
  - exfalso. now apply (fsub_finite_not_nan NegZero minv 0 c).
  - destruct minv; discriminate.
  - destruct minv; discriminate.
  - reflexivity.
Qed.

(** What a reading becomes when the difference of the constants is a
    zero. *)
Lemma normalized_by_zero (r minv maxv : float64) :
  is_zero (fsub maxv minv) = true ->
  (fdiv (fsub r minv) (fsub maxv minv) = NaN <->
   r = NaN \/ is_zero (fsub r minv) = true)
  /\ (fdiv (fsub r minv) (fsub maxv minv) <> NaN ->
      fdiv (fsub r minv) (fsub maxv minv) =
      signed_inf (xorb (negative (fsub r minv))
                    (negative (fsub maxv minv)))).
Proof.
  intros Hz. rewrite (fdiv_by_zero _ _ Hz). split; [split|].
  - intros H. destruct (fsub r minv) as [q| | | |] eqn:Hn;
      [destruct (is_zero (Finite q)) eqn:Hzn; [now right|]
      |now right
      |simpl in H
      |simpl in H
      |left; exact (fsub_not_nan r minv maxv Hz Hn)];
      exfalso; unfold signed_inf in H;
      repeat match type of H with
             | context [if ?b then _ else _] => destruct b
             end; discriminate H.
  - intros [->|H]; [now destruct minv|].
    destruct (fsub r minv); try discriminate H; try reflexivity;
      now rewrite H.
  - destruct (fsub r minv) as [q| | | |]; simpl; try congruence.
    destruct (Qeq_bool q 0); [congruence|reflexivity].
Qed.

(** Constants whose difference [maxv - minv] is a zero float (equal
    constants, or 0.0 and -0.0) raise nothing: the division by zero is
    numpy's. No element of the returned array is finite: it is NaN where
    the reading is NaN or [x - minv] is a zero, and elsewhere the
    infinity with the sign of [x - minv], flipped when the difference of
    the constants is -0.0. With finite tolerances the warning is logged
    exactly when no element is NaN, so one reading equal to the constant
    silences it. *)
Theorem normalize_data_equal_constants :
  forall (constants : list (string * list float64)) (lo hi : Q)
         (signal_type : string) (minv maxv : float64) (more : list float64)
         (x : float64) (xs : list float64),
    assoc signal_type constants = Some (minv :: maxv :: more) ->
    is_zero (fsub maxv minv) = true ->
    exists out warned,
      _normalize_data constants (Finite lo, Finite hi) (x :: xs) signal_type =
      Return (out, warned)
      /\ out = map (fun r => fdiv (fsub r minv) (fsub maxv minv)) (x :: xs)
      /\ (forall r, In r (x :: xs) ->
            (fdiv (fsub r minv) (fsub maxv minv) = NaN <->
             r = NaN \/ is_zero (fsub r minv) = true)
            /\ (fdiv (fsub r minv) (fsub maxv minv) <> NaN ->
                fdiv (fsub r minv) (fsub maxv minv) =
                signed_inf (xorb (negative (fsub r minv))
                              (negative (fsub maxv minv)))))
      /\ (warned = true <->
          forall r, In r (x :: xs) ->
                    r <> NaN /\ is_zero (fsub r minv) = false).
Proof.
  intros constants lo hi signal_type minv maxv more x xs Hc Hz.
  rewrite (normalize_data_runs constants (Finite lo, Finite hi) signal_type
             minv maxv more x xs Hc).
  set (f := fun r => fdiv (fsub r minv) (fsub maxv minv)).
  assert (Hnan : forall r, f r = NaN <->
                           r = NaN \/ is_zero (fsub r minv) = true).
  { intros r. apply (normalized_by_zero r minv maxv Hz). }
  assert (Hinf : forall r, f r <> NaN ->
                           fgt (f r) (Finite hi) = true
                           \/ flt (f r) (Finite lo) = true).
  { intros r Hr. unfold f in Hr |- *.
    rewrite (proj2 (normalized_by_zero r minv maxv Hz) Hr).
    destruct (xorb _ _); [right|left]; reflexivity. }
  eexists. eexists. split; [reflexivity|]. split; [reflexivity|].
  split; [intros r _; apply (normalized_by_zero r minv maxv Hz)|].
  change (fdiv (fsub x minv) (fsub maxv minv)) with (f x).
  rewrite (warning_test (f x) (map f xs) (Finite lo) (Finite hi)).
  change (f x :: map f xs) with (map f (x :: xs)).
  split.
  - intros [Hno _] r Hr.
    assert (Hfr : f r <> NaN).
    { intros H. apply Hno. apply in_map_iff. exists r. now split. }
    split.
    + intros ->. apply Hfr. apply Hnan. now left.
    + destruct (is_zero (fsub r minv)) eqn:Hzr; [|reflexivity].
      exfalso. apply Hfr. apply Hnan. now right.
  - intros Hall.
    assert (Hf : forall r, In r (x :: xs) -> f r <> NaN).
    { intros r Hr H. apply Hnan in H. destruct (Hall r Hr) as [H1 H2].
      destruct H as [H|H]; congruence. }
    split.
    + intros H. apply in_map_iff in H. destruct H as (r & Hfr & Hr).
      now apply (Hf r).
    + exists (f x). split; [now left|]. apply Hinf. apply Hf. now left.
Qed.

(** The readings 2, 3 and 5 with both constants 3, and the same readings
    with the constants 0.0 and -0.0, whose difference is -0.0. *)
Lemma normalize_data_equal_constants_witness :
  (exists warned,
     _normalize_data [("transport", [Finite 3; Finite 3])]
       (Finite (-1 # 10), Finite (11 # 10))
       [Finite 2; Finite 3; Finite 5] "transport" =
     Return ([NegInf; NaN; PosInf], warned)
     /\ (warned = true <->
         forall r, In r [Finite 2; Finite 3; Finite 5] ->
                   r <> NaN /\ is_zero (fsub r (Finite 3)) = false))
  /\ (exists warned,
        _normalize_data [("transport", [Finite 0; NegZero])]
          (Finite (-1 # 10), Finite (11 # 10))
          [Finite 2; Finite 3; Finite 5] "transport" =
        Return ([NegInf; NegInf; NegInf], warned)
        /\ (warned = true <->
            forall r, In r [Finite 2; Finite 3; Finite 5] ->
                      r <> NaN /\ is_zero (fsub r (Finite 0)) = false)).
Proof.
  split.
  - destruct (normalize_data_equal_constants
                [("transport", [Finite 3; Finite 3])] (-1 # 10) (11 # 10)
                "transport" (Finite 3) (Finite 3) []
                (Finite 2) [Finite 3; Finite 5] eq_refl eq_refl)
      as (out & warned & Hrun & Hout & _ & Hwarned).
    exists warned. split; [|exact Hwarned].
    rewrite Hrun, Hout. reflexivity.
  - destruct (normalize_data_equal_constants
                [("transport", [Finite 0; NegZero])] (-1 # 10) (11 # 10)
                "transport" (Finite 0) NegZero []
                (Finite 2) [Finite 3; Finite 5] eq_refl eq_refl)
      as (out & warned & Hrun & Hout & _ & Hwarned).
    exists warned. split; [|exact Hwarned].
    rewrite Hrun, Hout. reflexivity.
Defined.

(** A NaN anywhere in the signal silences the warning, whatever the
    other readings and the tolerances are: [np.max] and [np.min] are
    then NaN and no comparison with NaN holds. *)
Theorem normalize_data_nan_is_silent :
  forall (constants : list (string * list float64)) (tol : float64 * float64)
         (signal_type : string) (minv maxv : float64) (more : list float64)
         (signal : list float64),
    assoc signal_type constants = Some (minv :: maxv :: more) ->
    In NaN signal ->
    exists out,
      _normalize_data constants tol signal signal_type = Return (out, false)
      /\ length out = length signal
      /\ In NaN out.
Proof.
  intros constants tol signal_type minv maxv more signal Hc Hnan.
  unfold _normalize_data. rewrite Hc. simpl lookup. cbv iota.
  set (f := fun x => fdiv (fsub x minv) (fsub maxv minv)).
  assert (Hout : In NaN (map f signal)).
  { apply in_map_iff. exists NaN. split; [reflexivity|exact Hnan]. }
  destruct (map f signal) as [|first rest] eqn:Hmap; [destruct Hout|].
  destruct (fold_with_nan rest first Hout) as [-> ->].
  rewrite fgt_nan_l, flt_nan_l.
  exists (first :: rest). split; [reflexivity|].
  split; [|exact Hout]. rewrite <- Hmap. apply length_map.
Qed.

Lemma normalize_data_nan_is_silent_witness :
  exists out,
    _normalize_data [("transport", [Finite 0; Finite 1])]
      (as_float (-1 # 10), as_float (11 # 10))
      [Finite 7; NaN; PosInf] "transport" = Return (out, false)
    /\ length out = 3%nat
    /\ In NaN out.
Proof.
  apply (normalize_data_nan_is_silent
           [("transport", [Finite 0; Finite 1])]
           (as_float (-1 # 10), as_float (11 # 10)) "transport"
           (Finite 0) (Finite 1) [] [Finite 7; NaN; PosInf]).
  - reflexivity.
  - right. now left.
Defined.

Lemma round64_one : round64 1 = Finite 1.
Proof. vm_compute. reflexivity. Qed.

Lemma flt_le p q t : p <= q -> flt (Finite q) t = true -> flt (Finite p) t = true.
Proof. intros Hpq. destruct t; order_cases. Qed.

Lemma fgt_le p q t : p <= q -> fgt (Finite p) t = true -> fgt (Finite q) t = true.
Proof. intros Hpq. unfold fgt. destruct t; order_cases. Qed.

(** A reading between the constants, when their difference is a positive
    float: the normalized reading is a float of the unit interval. *)
Lemma normalized_in_unit minv maxv d x :
  fsub (Finite maxv) (Finite minv) = Finite d -> 0 < d ->
  minv <= x <= maxv ->
  exists y,
    fdiv (fsub (Finite x) (Finite minv)) (Finite d) = Finite y
    /\ 0 <= y <= 1.
Proof.
  intros Hd Hpos [Hlo Hhi].
  assert (Hzd : Qeq_bool d 0 = false).
  { apply not_true_is_false. intros H. apply Qeq_bool_iff in H. lra. }
  assert (Hsd : Qle_bool 0 d = true) by (apply Qle_bool_iff; lra).
  assert (Hround : round64 (maxv - minv) = Finite d /\ 0 < maxv - minv).
  { unfold fsub in Hd. simpl in Hd.
    destruct (Qeq_bool (maxv - minv) 0) eqn:Hz.
    - injection Hd as <-. lra.
    - split; [exact Hd|]. apply Qeq_bool_neq in Hz. lra. }
  destruct Hround as [Hround Hwidth].
  assert (Hquot : forall n, 0 <= n <= d ->
            exists y, fdiv (Finite n) (Finite d) = Finite y /\ 0 <= y <= 1).
  { intros n [Hn0 Hnd]. unfold fdiv. simpl. rewrite Hzd.
    assert (Hsn : Qle_bool 0 n = true) by (apply Qle_bool_iff; lra).
    rewrite Hsn, Hsd. simpl.
    destruct (Qeq_bool n 0) eqn:Hzn.
    - exists 0. split; [reflexivity|]. lra.
    - apply Qeq_bool_neq in Hzn.
      apply (round64_le (n / d) 1 1).
      + apply Qlt_shift_div_l; lra.
      + apply Qle_shift_div_r; lra.
      + exact round64_one. }
  unfold fsub at 1. simpl.
  destruct (Qeq_bool (x - minv) 0) eqn:Hz.
  - apply Hquot. lra.
  - apply Qeq_bool_neq in Hz.
    destruct (round64_le (x - minv) (maxv - minv) d) as (n & -> & Hn);
      [lra|lra|exact Hround|].
    now apply Hquot.
Qed.

Lemma normalized_all_in_unit minv maxv d (l : list Q) :
  fsub (Finite maxv) (Finite minv) = Finite d -> 0 < d ->
  (forall x, In x l -> minv <= x <= maxv) ->
  exists out,
    map (fun x => fdiv (fsub x (Finite minv)) (Finite d)) (map Finite l) =
    map Finite out
    /\ length out = length l
    /\ forall y, In y out -> 0 <= y <= 1.
Proof.
  intros Hd Hpos. induction l as [|x l IH]; intros Hin.
  - exists []. split; [reflexivity|]. split; [reflexivity|]. intros y0 [].
  - destruct IH as (out & Hout & Hlen & Hunit).
    { intros x0 Hx0. apply Hin. now right. }
    destruct (normalized_in_unit minv maxv d x Hd Hpos) as (y & Hy & Hy01).
    { apply Hin. now left. }
    exists (y :: out). cbn [map length]. rewrite Hy, Hout, Hlen.
    split; [reflexivity|]. split; [reflexivity|].
    intros y0 [<-|H0]; [exact Hy01|now apply Hunit].
Qed.

(** Readings between the two constants, when the difference
    [maxv - minv] is a positive float (it neither overflows nor rounds
    to zero) and the tolerances leave 0 and 1 in: every normalized
    reading is a float of the unit interval, and no warning is logged. *)
Theorem normalize_data_in_range_is_silent :
  forall (constants : list (string * list float64)) (tol : float64 * float64)
         (signal_type : string) (minv maxv d : Q) (more : list float64)
         (q : Q) (qs : list Q),
    assoc signal_type constants = Some (Finite minv :: Finite maxv :: more) ->
    fsub (Finite maxv) (Finite minv) = Finite d ->
    0 < d ->
    (forall x, In x (q :: qs) -> minv <= x <= maxv) ->
    flt (Finite 0) (fst tol) = false ->
    fgt (Finite 1) (snd tol) = false ->
    exists out,
      _normalize_data constants tol (map Finite (q :: qs)) signal_type =
      Return (map Finite out, false)
      /\ length out = length (q :: qs)
      /\ forall y, In y out -> 0 <= y <= 1.
Proof.
  intros constants tol signal_type minv maxv d more q qs Hc Hd Hpos Hin
    Hlo Hhi.
  change (map Finite (q :: qs)) with (Finite q :: map Finite qs).
  rewrite (normalize_data_runs constants tol signal_type (Finite minv)
             (Finite maxv) more (Finite q) (map Finite qs) Hc).
  rewrite Hd.
  destruct (normalized_all_in_unit minv maxv d (q :: qs) Hd Hpos Hin)
    as (out & Hout & Hlen & Hunit).
  exists out. split; [|split; [exact Hlen|exact Hunit]].
  change (Finite q :: map Finite qs) with (map Finite (q :: qs)).
  rewrite Hout. f_equal. f_equal.
  apply not_true_is_false. intros Hw. apply warning_test in Hw.
  destruct Hw as (_ & y & Hy & Hout_of_range).
  change (fdiv (fsub (Finite q) (Finite minv)) (Finite d)
          :: map (fun x => fdiv (fsub x (Finite minv)) (Finite d))
               (map Finite qs))
    with (map (fun x => fdiv (fsub x (Finite minv)) (Finite d))
            (map Finite (q :: qs))) in Hy.
  rewrite Hout in Hy. apply in_map_iff in Hy.
  destruct Hy as (y' & <- & Hy'). apply Hunit in Hy'.
  destruct Hout_of_range as [H|H].
  - apply (fgt_le y' 1) in H; [congruence|lra].
  - apply (flt_le 0 y') in H; [congruence|lra].
Qed.

Lemma normalize_data_in_range_is_silent_witness :
  exists out,
    _normalize_data [("transport", [Finite 2; Finite 4])]
      (as_float (-1 # 10), as_float (11 # 10))
      (map Finite [2; 3; 4]) "transport" =
    Return (map Finite out, false)
    /\ length out = 3%nat
    /\ forall y, In y out -> 0 <= y <= 1.
Proof.
  apply (normalize_data_in_range_is_silent
           [("transport", [Finite 2; Finite 4])]
           (as_float (-1 # 10), as_float (11 # 10)) "transport" 2 4 2 []
           2 [3; 4]).
  - reflexivity.
  - reflexivity.
  - reflexivity.
  - intros x [<-|[<-|[<-|[]]]]; split; discriminate.
  - reflexivity.
  - reflexivity.
Defined.
End DatasetNormalization.

(** ** Dicts with str keys *)

Section DatasetDicts.
Import Dataset.
Context {V : Type}.
Implicit Types (d : list (string * V)) (j k : string) (v : V).

Lemma assoc_dict_set j k v d :
  assoc j (dict_set String.eqb k v d) =
  if String.eqb j k then Some v else assoc j d.
Proof.
  induction d as [|[k' v'] rest IH]; simpl; [reflexivity|].
  destruct (String.eqb_spec k k') as [<-|Hk]; simpl.
  - destruct (String.eqb j k); reflexivity.
  - rewrite IH. destruct (String.eqb_spec j k') as [->|Hj]; [|reflexivity].
    destruct (String.eqb_spec k' k) as [->|_]; [contradiction|reflexivity].
Qed.

Lemma assoc_dict_pop j k d :
  assoc j (dict_pop String.eqb k d) =
  if String.eqb j k then None else assoc j d.
Proof.
  unfold dict_pop.
  induction d as [|[k' v'] rest IH]; simpl.
  - destruct (String.eqb j k); reflexivity.
  - destruct (String.eqb_spec k k') as [<-|Hk]; simpl.
    + rewrite IH. destruct (String.eqb j k); reflexivity.
    + rewrite IH. destruct (String.eqb_spec j k') as [->|Hj]; [|reflexivity].
      destruct (String.eqb_spec k' k) as [->|_]; [contradiction|reflexivity].
Qed.

Lemma assoc_none_iff k d : assoc k d = None <-> ~ In k (map fst d).
Proof.
  induction d as [|[k' v'] rest IH]; simpl; [tauto|].
  destruct (String.eqb_spec k k') as [->|Hk].
  - split; [discriminate|]. intros H. exfalso. apply H. now left.
  - rewrite IH. split; [intros H [He|Hin]; congruence|tauto].
Qed.

Lemma assoc_dict_update j (new : list (string * V)) : forall d,
  NoDup (map fst new) ->
  assoc j (dict_update String.eqb new d) =
  match assoc j new with
  | Some v => Some v
  | None => assoc j d
  end.
Proof.
  unfold dict_update.
  induction new as [|[k v] rest IH]; intros d Hnd; simpl; [reflexivity|].
  apply NoDup_cons in Hnd. destruct Hnd as [Hk Hnd].
  rewrite IH by exact Hnd. rewrite assoc_dict_set.
  destruct (String.eqb_spec j k) as [->|Hj]; [|reflexivity].
  replace (assoc k rest) with (@None V); [reflexivity|].
  symmetry. apply assoc_none_iff. intros Hin. apply Hk.
  apply list_elem_of_In. exact Hin.
Qed.

Lemma keys_dict_set_present k v d :
  In k (map fst d) -> map fst (dict_set String.eqb k v d) = map fst d.
Proof.
  induction d as [|[k' v'] rest IH]; simpl; [tauto|]. intros Hin.
  destruct (String.eqb_spec k k') as [<-|Hk]; simpl; [reflexivity|].
  rewrite IH; [reflexivity|]. destruct Hin; congruence.
Qed.

Lemma keys_dict_set_absent k v d :
  ~ In k (map fst d) ->
  map fst (dict_set String.eqb k v d) = map fst d ++ [k].
Proof.
  induction d as [|[k' v'] rest IH]; simpl; [reflexivity|]. intros Hin.
  destruct (String.eqb_spec k k') as [<-|Hk]; simpl; [tauto|].
  rewrite IH; [reflexivity|tauto].
Qed.

Lemma NoDup_dict_set k v d :
  NoDup (map fst d) -> NoDup (map fst (dict_set String.eqb k v d)).
Proof.
  intros Hnd. destruct (in_dec String.string_dec k (map fst d)) as [Hin|Hin].
  - now rewrite keys_dict_set_present.
  - rewrite keys_dict_set_absent by exact Hin.
    apply NoDup_app. split; [exact Hnd|]. split.
    + intros x Hx Hk. apply list_elem_of_singleton in Hk. subst x.
      apply Hin. now apply list_elem_of_In.
    + apply NoDup_singleton.
Qed.

Lemma NoDup_dict_pop k d :
  NoDup (map fst d) -> NoDup (map fst (dict_pop String.eqb k d)).
Proof.
  unfold dict_pop. induction d as [|[k' v'] rest IH]; intros Hnd.
  - exact Hnd.
  - simpl in Hnd. apply NoDup_cons in Hnd. destruct Hnd as [Hk Hnd].
    simpl. destruct (negb (String.eqb k k')); simpl; [|now apply IH].
    apply NoDup_cons. split; [|now apply IH].
    intros Hin. apply Hk. apply list_elem_of_In in Hin.
    apply list_elem_of_In. apply in_map_iff in Hin.
    destruct Hin as ([k2 v2] & <- & Hin). apply in_map_iff.
    exists (k2, v2). split; [reflexivity|].
    now apply filter_In in Hin.
Qed.
End DatasetDicts.

(** ** The normalization constants of a loaded data set *)

Section DatasetConstants.
Import Dataset.

Lemma assoc_rename_legacy j (nm : list (string * value)) old_key new_key :
  assoc j (rename_legacy nm old_key new_key) =
  match assoc old_key nm with
  | Some v =>
      if String.eqb j new_key then Some v
      else if String.eqb j old_key then None else assoc j nm
  | None => assoc j nm
  end.
Proof.
  unfold rename_legacy. destruct (assoc old_key nm) as [v|]; [|reflexivity].
  now rewrite assoc_dict_set, assoc_dict_pop.
Qed.

Lemma NoDup_rename_legacy (nm : list (string * value)) old_key new_key :
  NoDup (map fst nm) -> NoDup (map fst (rename_legacy nm old_key new_key)).
Proof.
  intros Hnd. unfold rename_legacy.
  destruct (assoc old_key nm); [|exact Hnd].
  now apply NoDup_dict_set, NoDup_dict_pop.
Qed.

(** Constants stored in the metadata. The constants of the data set
    always have the three keys [transport], [sensing] and [rf], each
    with the stored value or else [[0, 1]]; what is stored under the
    names [dc_current] and [dc_sensor] is taken as [transport] and
    [sensing], before anything stored under those names, and the two old
    names are keys neither of the constants nor, after the call, of the
    dict in the metadata; every other stored key is carried over. *)
Theorem merge_constants_renames_old_keys :
  forall (md nm : list (string * value)),
    assoc "normalization_constants" md = Some (VDict nm) ->
    NoDup (map fst nm) ->
    exists constants nm',
      merge_constants default_constants (VDict md) =
      Return (constants,
              VDict (dict_set String.eqb "normalization_constants"
                       (VDict nm') md))
      /\ assoc "transport" constants =
         Some (default (default (VList [VNum 0; VNum 1])
                          (assoc "transport" nm))
                 (assoc "dc_current" nm))
      /\ assoc "sensing" constants =
         Some (default (default (VList [VNum 0; VNum 1])
                          (assoc "sensing" nm))
                 (assoc "dc_sensor" nm))
      /\ assoc "rf" constants =
         Some (default (VList [VNum 0; VNum 1]) (assoc "rf" nm))
      /\ assoc "dc_current" constants = None
      /\ assoc "dc_sensor" constants = None
      /\ (forall k,
            ~ In k ["transport"; "sensing"; "rf"; "dc_current"; "dc_sensor"] ->
            assoc k constants = assoc k nm)
      /\ assoc "dc_current" nm' = None
      /\ assoc "dc_sensor" nm' = None.
Proof.
  intros md nm Hmd Hnd. unfold merge_constants, getitem. rewrite Hmd.
  simpl fold_left.
  set (nm1 := rename_legacy nm "dc_current" "transport").
  set (nm2 := rename_legacy nm1 "dc_sensor" "sensing").
  assert (Hnd2 : NoDup (map fst nm2))
    by now apply NoDup_rename_legacy, NoDup_rename_legacy.
  assert (Hget : forall k,
            assoc k (dict_update String.eqb nm2 default_constants) =
            match assoc k nm2 with
            | Some v => Some v
            | None => assoc k default_constants
            end)
    by (intros k; now apply assoc_dict_update).
  assert (H2 : forall k, assoc k nm2 =
            match assoc "dc_sensor" nm with
            | Some v =>
                if String.eqb k "sensing" then Some v
                else if String.eqb k "dc_sensor" then None
                     else assoc k nm1
            | None => assoc k nm1
            end).
  { intros k. unfold nm2. rewrite assoc_rename_legacy.
    replace (assoc "dc_sensor" nm1) with (assoc "dc_sensor" nm);
      [reflexivity|].
    unfold nm1. rewrite assoc_rename_legacy.
    destruct (assoc "dc_current" nm); reflexivity. }
  assert (H1 : forall k, assoc k nm1 =
            match assoc "dc_current" nm with
            | Some v =>
                if String.eqb k "transport" then Some v
                else if String.eqb k "dc_current" then None
                     else assoc k nm
            | None => assoc k nm
            end)
    by (intros k; apply assoc_rename_legacy).
  exists (dict_update String.eqb nm2 default_constants), nm2.
  split; [reflexivity|].
  repeat split.
  - rewrite Hget, H2, H1. simpl.
    destruct (assoc "dc_sensor" nm), (assoc "dc_current" nm),
      (assoc "transport" nm); reflexivity.
  - rewrite Hget, H2, H1. simpl.
    destruct (assoc "dc_sensor" nm), (assoc "dc_current" nm),
      (assoc "sensing" nm); reflexivity.
  - rewrite Hget, H2, H1. simpl.
    destruct (assoc "dc_sensor" nm), (assoc "dc_current" nm),
      (assoc "rf" nm); reflexivity.
  - rewrite Hget, H2, H1. simpl.
    destruct (assoc "dc_sensor" nm), (assoc "dc_current" nm) eqn:Hc;
      try reflexivity; now rewrite Hc.
  - rewrite Hget, H2, H1. simpl.
    destruct (assoc "dc_sensor" nm) eqn:Hs, (assoc "dc_current" nm);
      try reflexivity; now rewrite Hs.
  - intros k Hk. rewrite Hget, H2, H1.
    assert (Hne : forall name,
              In name ["transport"; "sensing"; "rf"; "dc_current";
                       "dc_sensor"] -> String.eqb k name = false).
    { intros name Hin. apply String.eqb_neq. intros ->. now apply Hk. }
    rewrite (Hne "sensing"), (Hne "dc_sensor"), (Hne "transport"),
      (Hne "dc_current") by (simpl; tauto).
    assert (Hdef : assoc k default_constants = None).
    { simpl. now rewrite (Hne "transport"), (Hne "rf"), (Hne "sensing")
        by (simpl; tauto). }
    rewrite Hdef.
    destruct (assoc "dc_sensor" nm), (assoc "dc_current" nm),
      (assoc k nm); reflexivity.
  - rewrite H2, H1. simpl.
    destruct (assoc "dc_sensor" nm), (assoc "dc_current" nm) eqn:Hc;
      try reflexivity; now rewrite Hc.
  - rewrite H2, H1. simpl.
    destruct (assoc "dc_sensor" nm) eqn:Hs, (assoc "dc_current" nm);
      try reflexivity; now rewrite Hs.
Qed.

Lemma merge_constants_renames_old_keys_witness :
  let nm := [("transport", VList [VNum 0; VNum 9]);
             ("dc_current", VList [VNum 2; VNum 4])] in
  let md := [("device_name", VStr "chip"); ("normalization_constants", VDict nm)] in
  exists constants nm',
    merge_constants default_constants (VDict md) =
    Return (constants,
            VDict (dict_set String.eqb "normalization_constants"
                     (VDict nm') md))
    /\ assoc "transport" constants = Some (VList [VNum 2; VNum 4])
    /\ assoc "sensing" constants = Some (VList [VNum 0; VNum 1])
    /\ assoc "rf" constants = Some (VList [VNum 0; VNum 1])
    /\ assoc "dc_current" constants = None
    /\ assoc "dc_sensor" constants = None
    /\ (forall k,
          ~ In k ["transport"; "sensing"; "rf"; "dc_current"; "dc_sensor"] ->
          assoc k constants = assoc k nm)
    /\ assoc "dc_current" nm' = None
    /\ assoc "dc_sensor" nm' = None.
Proof.
  intros nm md.
  apply (merge_constants_renames_old_keys md nm).
  - reflexivity.
  - repeat constructor; vm_compute; inversion 1; subst;
      repeat match goal with H : _ ∈ _ |- _ => inversion H; clear H; subst end.
Defined.
End DatasetConstants.

(** ** Loading the metadata *)

Section DatasetLoader.
Import Dataset.
Variable json_loads : string -> option value.
Variable int_of_str : string -> option Z.
Variable meta_tag : string.
Variable default_readout_methods : list string.
Variable LABELS : list string.
Variable get_metadata : string -> outcome value.
Variable data_vars : list string.

Lemma dict_set_new_name (n : string) (v : value) (d : list (value * value)) :
  (forall k, In k (map fst d) -> exists m, k = VStr m /\ m <> n) ->
  dict_set key_eqb (VStr n) v d = d ++ [(VStr n, v)].
Proof.
  induction d as [|[k v'] rest IH]; intros Hkeys; simpl; [reflexivity|].
  destruct (Hkeys k (or_introl eq_refl)) as (m & -> & Hm). simpl.
  destruct (String.eqb_spec n m) as [->|_]; [contradiction|].
  rewrite IH; [reflexivity|]. intros k Hk. apply Hkeys. now right.
Qed.

Lemma dict_of_zip_from (names : list string) : forall values d,
  NoDup names ->
  (forall k, In k (map fst d) -> exists m, k = VStr m /\ ~ In m names) ->
  dict_of_pairs (combine (map VStr names) values) d =
  Return (d ++ combine (map VStr names) values).
Proof.
  induction names as [|n names IH]; intros values d Hnd Hkeys; simpl.
  - now rewrite app_nil_r.
  - destruct values as [|v values]; simpl; [now rewrite app_nil_r|].
    apply NoDup_cons in Hnd. destruct Hnd as [Hn Hnd].
    rewrite dict_set_new_name.
    + rewrite IH; [now rewrite <- app_assoc|exact Hnd|].
      intros k Hk. rewrite map_app in Hk. apply in_app_iff in Hk.
      destruct Hk as [Hk|[<-|[]]].
      * destruct (Hkeys k Hk) as (m & -> & Hm). exists m.
        split; [reflexivity|]. intros Hin. apply Hm. now right.
      * exists n. split; [reflexivity|]. intros Hin. apply Hn.
        now apply list_elem_of_In.
    + intros k Hk. destruct (Hkeys k Hk) as (m & -> & Hm). exists m.
      split; [reflexivity|]. intros ->. apply Hm. now left.
Qed.

Lemma dict_of_zip_names (names : list string) (values : list value) :
  NoDup names ->
  dict_of_zip (map VStr names) values =
  Return (combine (map VStr names) values).
Proof.
  intros Hnd. unfold dict_of_zip.
  rewrite (dict_of_zip_from names values [] Hnd); [reflexivity|].
  intros k [].
Qed.

(** Readout methods that are not stored as a dict with entries: a list
    of names, one name, or nothing usable, in which case the default
    names are taken, as many as there are data variables. With no name
    twice, the methods are paired with the data variables by position,
    up to the shorter of the two lists; what is left over on either side
    is dropped without an error. *)
Theorem load_readout_methods_pairs_by_position :
  forall (nt_metadata : value) (methods : list string),
    getitem nt_metadata "readout_methods" = Return (VList (map VStr methods))
    \/ (exists s, getitem nt_metadata "readout_methods" = Return (VStr s)
                  /\ methods = [s])
    \/ ((getitem nt_metadata "readout_methods" = Raised KeyError
         \/ getitem nt_metadata "readout_methods" = Return (VDict [])
         \/ getitem nt_metadata "readout_methods" = Return VNone)
        /\ methods = take (length data_vars) default_readout_methods) ->
    NoDup methods ->
    load_readout_methods default_readout_methods data_vars nt_metadata =
    Return (combine (map VStr methods) (map VStr data_vars)).
Proof.
  intros nt_metadata methods Hstored Hnd. unfold load_readout_methods.
  destruct Hstored as [->|[(s & -> & ->)|[[->|[->| ->]] ->]]]; simpl;
    try (now apply dict_of_zip_names).
  now apply (dict_of_zip_names [s]).
Qed.

Lemma no_label_is_set (labels : list string) : forall ml_label,
  (forall label, In label labels -> get_metadata label = Return VNone) ->
  load_labels int_of_str get_metadata labels ml_label = Return ml_label.
Proof.
  induction labels as [|label rest IH]; intros ml Hnone; simpl;
    [reflexivity|].
  destruct (String.eqb label "good").
  - apply IH. intros l Hl. apply Hnone. now right.
  - rewrite (Hnone label (or_introl eq_refl)). simpl.
    apply IH. intros l Hl. apply Hnone. now right.
Qed.

Lemma dict_of_zip_hashable (keys : list value) : forall values d,
  (forall k, In k keys -> hashable k = true) ->
  exists d', dict_of_pairs (combine keys values) d = Return d'.
Proof.
  induction keys as [|k keys IH]; intros values d Hh; simpl; [eauto|].
  destruct values as [|v values]; simpl; [eauto|].
  rewrite (Hh k (or_introl eq_refl)). apply IH.
  intros k' Hk'. apply Hh. now right.
Qed.

(** A run with nothing stored: no snapshot and no nanotune metadata
    (the column is empty or reading it raises RuntimeError), no quality
    and no label. The load goes through and leaves the defaults: the
    constants [[0, 1]] for transport, rf and sensing, an empty
    snapshot and empty metadata, the device name [noname_device], no
    quality, no label, no features, and the default readout methods
    paired with the data variables. *)
Theorem load_metadata_without_metadata :
  (get_metadata "snapshot" = Return VNone
   \/ get_metadata "snapshot" = Raised RuntimeError) ->
  (get_metadata meta_tag = Return VNone
   \/ get_metadata meta_tag = Raised RuntimeError) ->
  get_metadata "good" = Return VNone ->
  (forall label, In label LABELS -> get_metadata label = Return VNone) ->
  exists self,
    _load_metadata_from_qcodes json_loads int_of_str meta_tag
      default_readout_methods LABELS get_metadata data_vars = Return self
    /\ _normalization_constants self = default_constants
    /\ _snapshot self = VDict []
    /\ _nt_metadata self = VDict []
    /\ device_name self = VStr "noname_device"
    /\ quality self = None
    /\ ml_label self = []
    /\ features self = Return (VDict [])
    /\ dict_of_zip
         (map VStr (take (length data_vars) default_readout_methods))
         (map VStr data_vars) = Return (readout_methods self).
Proof.
  intros Hsnap Hmeta Hgood Hlabels.
  assert (Hs : load_or_keep json_loads get_metadata "snapshot" (VDict []) =
               Return (VDict [])).
  { unfold load_or_keep. destruct Hsnap as [-> | ->]; reflexivity. }
  assert (Hm : load_or_keep json_loads get_metadata meta_tag (VDict []) =
               Return (VDict [])).
  { unfold load_or_keep. destruct Hmeta as [-> | ->]; reflexivity. }
  destruct (dict_of_zip_hashable
              (map VStr (take (length data_vars) default_readout_methods))
              (map VStr data_vars) []) as (methods & Hmethods).
  { intros k Hk. apply in_map_iff in Hk. now destruct Hk as (n & <- & _). }
  exists (mkState default_constants (VDict []) (VDict [])
            (VStr "noname_device") methods None []).
  unfold _load_metadata_from_qcodes. rewrite Hs, Hm. simpl.
  unfold load_readout_methods. simpl. unfold dict_of_zip. rewrite Hmethods.
  simpl. unfold load_quality. rewrite Hgood. simpl.
  rewrite (no_label_is_set LABELS [] Hlabels). simpl.
  repeat split; reflexivity.
Qed.

(** Stored metadata that cannot be used ends the load with an exception;
    only its absence is tolerated. With no snapshot stored and a str
    under the nanotune tag: a str that is not JSON raises
    JSONDecodeError, JSON that is not an object raises TypeError, and an
    object whose normalization constants are not an object raises
    AttributeError. *)
Theorem load_metadata_rejects_unusable_metadata :
  forall (s : string),
    get_metadata "snapshot" = Return VNone ->
    get_metadata meta_tag = Return (VStr s) ->
    match json_loads s with
    | None =>
        _load_metadata_from_qcodes json_loads int_of_str meta_tag
          default_readout_methods LABELS get_metadata data_vars =
        Raised JSONDecodeError
    | Some (VDict md) =>
        match assoc "normalization_constants" md with
        | None | Some (VDict _) => True
        | Some _ =>
            _load_metadata_from_qcodes json_loads int_of_str meta_tag
              default_readout_methods LABELS get_metadata data_vars =
            Raised AttributeError
        end
    | Some _ =>
        _load_metadata_from_qcodes json_loads int_of_str meta_tag
          default_readout_methods LABELS get_metadata data_vars =
        Raised TypeError
    end.
Proof.
  intros s Hsnap Hmeta. unfold _load_metadata_from_qcodes.
  assert (Hs : load_or_keep json_loads get_metadata "snapshot" (VDict []) =
               Return (VDict [])).
  { unfold load_or_keep. now rewrite Hsnap. }
  rewrite Hs. simpl. unfold load_or_keep, loads. rewrite Hmeta. simpl.
  destruct (json_loads s) as [[| | | | |md]|]; try reflexivity.
  simpl. unfold merge_constants, getitem.
  destruct (assoc "normalization_constants" md) as [[]|]; try reflexivity;
    exact Logic.I.
Qed.

(** The loop of lines 217-224 as a filter. *)
Lemma load_labels_filter (labels : list string) : forall ml_label,
  (forall label, In label labels -> label <> "good"%string ->
     exists v n,
       get_metadata label = Return v
       /\ py_int int_of_str (match v with VNone => VNum 0 | _ => v end) =
          Return n) ->
  load_labels int_of_str get_metadata labels ml_label =
  Return
    (ml_label ++
     List.filter
       (fun label =>
          negb (String.eqb label "good")
          && match get_metadata label with
             | Return v =>
                 match py_int int_of_str
                         (match v with VNone => VNum 0 | _ => v end) with
                 | Return n => (n =? 1)%Z
                 | Raised _ => false
                 end
             | Raised _ => false
             end) labels).
Proof.
  induction labels as [|label rest IH]; intros ml Hread; simpl.
  - now rewrite app_nil_r.
  - destruct (String.eqb_spec label "good") as [Hg|Hg]; simpl.
    + apply IH. intros l Hl. apply Hread. now right.
    + destruct (Hread label (or_introl eq_refl) Hg) as (v & n & Hv & Hn).
      rewrite Hv. simpl. rewrite Hn. simpl.
      rewrite IH by (intros l Hl; apply Hread; now right).
      destruct (n =? 1)%Z; [now rewrite <- app_assoc|reflexivity].
Qed.

Lemma filter_is_sublist {A} (f : A -> bool) (l : list A) :
  sublist (List.filter f l) l.
Proof.
  induction l as [|x l IH]; simpl; [constructor|].
  destruct (f x); [now apply sublist_skip|now apply sublist_cons].
Qed.

(** The labels of a loaded data set, when the metadata of every label
    can be read as an int: a label is in [ml_label] exactly when it is
    one of [LABELS], is not [good] and its metadata, 0 if there is none,
    is 1 as an int; and the labels come in the order of [LABELS]. *)
Theorem load_labels_keeps_the_labels_set_to_one :
  (forall label, In label LABELS -> label <> "good"%string ->
     exists v n,
       get_metadata label = Return v
       /\ py_int int_of_str (match v with VNone => VNum 0 | _ => v end) =
          Return n) ->
  exists ml_label,
    load_labels int_of_str get_metadata LABELS [] = Return ml_label
    /\ (forall label,
          In label ml_label <->
          In label LABELS /\ label <> "good"%string
          /\ exists v,
               get_metadata label = Return v
               /\ py_int int_of_str
                    (match v with VNone => VNum 0 | _ => v end) = Return 1%Z)
    /\ sublist ml_label LABELS.
Proof.
  intros Hread. eexists. split; [now apply load_labels_filter|].
  simpl. split.
  - intros label. rewrite filter_In. split.
    + intros (Hin & Hflag). apply andb_true_iff in Hflag.
      destruct Hflag as [Hg Hone]. split; [exact Hin|]. split.
      * intros ->. discriminate Hg.
      * destruct (get_metadata label) as [v|]; [|discriminate].
        exists v. split; [reflexivity|].
        destruct (py_int int_of_str _) as [n|]; [|discriminate].
        apply Z.eqb_eq in Hone. now subst n.
    + intros (Hin & Hg & v & Hv & Hn). split; [exact Hin|].
      rewrite Hv, Hn. apply andb_true_iff. split; [|reflexivity].
      apply negb_true_iff. now apply String.eqb_neq.
  - apply filter_is_sublist.
Qed.
End DatasetLoader.

(** ** The loader on the sample runs *)

Section DatasetSamples.
Import Dataset.

Lemma load_readout_methods_pairs_by_position_witness :
  load_readout_methods ["transport"; "sensing"; "rf"]
    ["current"; "sensor"; "phase"]
    (VDict [("readout_methods", VList [VStr "sensing"; VStr "transport"])]) =
  Return [(VStr "sensing", VStr "current"); (VStr "transport", VStr "sensor")].
Proof.
  apply (load_readout_methods_pairs_by_position
           ["transport"; "sensing"; "rf"] ["current"; "sensor"; "phase"]
           (VDict [("readout_methods",
                    VList [VStr "sensing"; VStr "transport"])])
           ["sensing"; "transport"]).
  - left. reflexivity.
  - apply (bool_decide_unpack _). vm_compute. exact Logic.I.
Defined.

Lemma load_metadata_without_metadata_witness :
  exists self,
    _load_metadata_from_qcodes sample_json_loads sample_int_of_str
      "nanotune_metadata" ["transport"; "sensing"; "rf"] sample_labels
      no_metadata ["current"; "sensor"] = Return self
    /\ _normalization_constants self = default_constants
    /\ _snapshot self = VDict []
    /\ _nt_metadata self = VDict []
    /\ device_name self = VStr "noname_device"
    /\ quality self = None
    /\ ml_label self = []
    /\ features self = Return (VDict [])
    /\ dict_of_zip (map VStr (take 2 ["transport"; "sensing"; "rf"]))
         (map VStr ["current"; "sensor"]) = Return (readout_methods self).
Proof.
  apply (load_metadata_without_metadata sample_json_loads sample_int_of_str
           "nanotune_metadata" ["transport"; "sensing"; "rf"] sample_labels
           no_metadata ["current"; "sensor"]).
  - left. reflexivity.
  - left. reflexivity.
  - reflexivity.
  - intros label _. reflexivity.
Defined.

Lemma load_metadata_rejects_unusable_metadata_witness :
  _load_metadata_from_qcodes sample_json_loads sample_int_of_str
    "nanotune_metadata" ["transport"; "sensing"; "rf"] sample_labels
    sample_get_metadata ["current"; "sensor"] = Raised TypeError.
Proof.
  apply (load_metadata_rejects_unusable_metadata sample_json_loads
           sample_int_of_str "nanotune_metadata"
           ["transport"; "sensing"; "rf"] sample_labels sample_get_metadata
           ["current"; "sensor"] "[]").
  - reflexivity.
  - reflexivity.
Defined.

Lemma load_labels_keeps_the_labels_set_to_one_witness :
  exists ml_label,
    load_labels sample_int_of_str sample_get_metadata sample_labels [] =
    Return ml_label
    /\ (forall label,
          In label ml_label <->
          In label sample_labels /\ label <> "good"%string
          /\ exists v,
               sample_get_metadata label = Return v
               /\ py_int sample_int_of_str
                    (match v with VNone => VNum 0 | _ => v end) = Return 1%Z)
    /\ sublist ml_label sample_labels.
Proof.
  apply (load_labels_keeps_the_labels_set_to_one sample_int_of_str
           sample_labels sample_get_metadata).
  intros label Hin _.
  destruct Hin as [<-|[<-|[<-|[<-|[<-|[]]]]]]; eexists _, _;
    (split; reflexivity).
Defined.
End DatasetSamples.

(** ** Plot labels *)

Section DatasetLabels.
Import Dataset.

Lemma replace_underscores_clean (s : string) :
  ~ In "_"%char (String.list_ascii_of_string (replace_underscores s)).
Proof.
  induction s as [|c s IH]; simpl; [tauto|].
  intros [Hc|Hin]; [|now apply IH].
  destruct (Ascii.eqb_spec c "_"); [discriminate Hc|congruence].
Qed.

(** [get_plot_label] for a readout method with a dimension and data. An
    axis above the dimension is an AssertionError; an axis below zero is
    not. For the power spectrum the label of axis 0 is [frequency x],
    that of axis 1 of data with more than one dimension is
    [frequency y], and any other axis gives [power spectrum <name>] with
    the underscores of the name replaced by spaces. A label the method
    builds itself, for the power spectrum or for an axis that is not a
    voltage axis, holds no underscore; the label of a voltage axis is
    the coordinate's own. *)
Theorem get_plot_label_by_axis :
  forall (dimensions : list (string * Z)) (data : list (string * DataArray))
         (readout_method : string) (curr_dim : Z) (array : DataArray)
         (axis : Z) (power_spect : bool),
    assoc readout_method dimensions = Some curr_dim ->
    assoc readout_method data = Some array ->
    ((curr_dim < axis)%Z ->
       get_plot_label dimensions data readout_method axis power_spect =
       Raised AssertionError)
    /\ ((axis <= curr_dim)%Z ->
        get_plot_label dimensions data readout_method axis true =
        Return (if (axis =? 0)%Z then "frequency x"
                else if (axis =? 1)%Z && (1 <? curr_dim)%Z
                     then "frequency y"
                     else replace_underscores
                            ("power spectrum " +:+ name array))%string)
    /\ ((axis <= curr_dim)%Z ->
        get_plot_label dimensions data readout_method axis false =
        if (axis =? 0)%Z || ((axis =? 1)%Z && (1 <? curr_dim)%Z)
        then
          match assoc (if (axis =? 0)%Z then "voltage_x" else "voltage_y")
                  (coords array) with
          | Some coord_attrs =>
              match assoc "label" coord_attrs with
              | Some lbl => Return lbl
              | None => Raised KeyError
              end
          | None => Raised KeyError
          end
        else
          match unit array with
          | Some ut =>
              Return (replace_underscores
                        (name array +:+ " [" +:+ ut +:+ "]"))
          | None => Raised AttributeError
          end)
    /\ (forall lbl,
          get_plot_label dimensions data readout_method axis power_spect =
          Return lbl ->
          power_spect = true
          \/ ~ (axis = 0 \/ axis = 1 /\ 1 < curr_dim)%Z ->
          ~ In "_"%char (String.list_ascii_of_string lbl)).
Proof.
  intros dimensions data readout_method curr_dim array axis power_spect
    Hdim Hdata.
  unfold get_plot_label, lookup_key. rewrite Hdim, Hdata. cbn [and_then].
  split; [|split; [|split]].
  - intros Hlt. apply Z.ltb_lt in Hlt. now rewrite Hlt.
  - intros Hle. apply Z.ltb_ge in Hle. rewrite Hle. simpl.
    destruct (Z.eqb_spec axis 0) as [->|H0]; [reflexivity|].
    destruct (Z.eqb_spec axis 1) as [->|H1]; [|reflexivity].
    destruct (1 <? curr_dim)%Z; reflexivity.
  - intros Hle. apply Z.ltb_ge in Hle. rewrite Hle.
    destruct (Z.eqb_spec axis 0) as [->|H0]; simpl.
    { unfold lookup_key.
      destruct (assoc "voltage_x" (coords array)); reflexivity. }
    destruct (Z.eqb_spec axis 1) as [->|H1]; simpl; [|reflexivity].
    destruct (1 <? curr_dim)%Z; simpl; [|reflexivity].
    unfold lookup_key.
    destruct (assoc "voltage_y" (coords array)); reflexivity.
  - intros lbl Hlbl Hown.
    destruct (curr_dim <? axis)%Z; [discriminate Hlbl|].
    destruct ((axis =? 0)%Z || ((axis =? 1)%Z && (1 <? curr_dim)%Z))
      eqn:Haxis.
    + destruct Hown as [->|Hother].
      * destruct (index (default_coord_names "frequency") axis) as [n|];
          [|discriminate Hlbl].
        simpl in Hlbl. injection Hlbl as <-.
        apply replace_underscores_clean.
      * exfalso. apply Hother. apply orb_true_iff in Haxis.
        destruct Haxis as [H0|H1]; [left; now apply Z.eqb_eq|right].
        apply andb_true_iff in H1. destruct H1 as [H1 Hd].
        split; [now apply Z.eqb_eq|now apply Z.ltb_lt].
    + destruct power_spect.
      * injection Hlbl as <-.
        apply (replace_underscores_clean ("power spectrum " +:+ name array)).
      * destruct (unit array) as [ut|]; [|discriminate Hlbl].
        injection Hlbl as <-.
        apply (replace_underscores_clean (name array +:+ " [" +:+ ut +:+ "]")).
Qed.

Lemma get_plot_label_by_axis_witness :
  let array := mkDataArray "dc_current" (Some "A")
                 [("voltage_x", [("label", "left_gate [V]")])] in
  (get_plot_label [("transport", 1%Z)] [("transport", array)] "transport" 2
     true = Raised AssertionError)
  /\ get_plot_label [("transport", 1%Z)] [("transport", array)] "transport" 1
       true = Return "power spectrum dc current"
  /\ get_plot_label [("transport", 1%Z)] [("transport", array)] "transport" 1
       false = Return "dc current [A]"
  /\ get_plot_label [("transport", 1%Z)] [("transport", array)] "transport" 0
       false = Return "left_gate [V]".
Proof.
  intros array.
  destruct (get_plot_label_by_axis [("transport", 1%Z)]
              [("transport", array)] "transport" 1 array 2 true
              eq_refl eq_refl) as (Hassert & _).
  destruct (get_plot_label_by_axis [("transport", 1%Z)]
              [("transport", array)] "transport" 1 array 1 true
              eq_refl eq_refl) as (_ & Hpower & Hsignal & _).
  destruct (get_plot_label_by_axis [("transport", 1%Z)]
              [("transport", array)] "transport" 1 array 0 true
              eq_refl eq_refl) as (_ & _ & Hvoltage & _).
  split; [apply Hassert; reflexivity|].
  split; [apply Hpower; discriminate|].
  split; [apply Hsignal; discriminate|].
  apply Hvoltage. discriminate.
Defined.
End DatasetLabels.

(** ** Renaming the variables *)

Section DatasetRename.
Import Dataset.

Lemma rename_coordinates_returns (depends : list string) :
  forall c_i new_names_all,
    (c_i + length depends <= 2)%nat ->
    exists renamed,
      rename_coordinates c_i depends new_names_all = Return renamed.
Proof.
  induction depends as [|old_crd rest IH]; intros c_i acc Hlen; simpl;
    [eauto|].
  simpl in Hlen. unfold index. rewrite Nat2Z.id.
  destruct c_i as [|[|c_i]]; simpl; try lia; apply IH; lia.
Qed.

Lemma rename_coordinates_raises (depends : list string) :
  forall c_i new_names_all,
    depends <> [] -> (2 < c_i + length depends)%nat ->
    rename_coordinates c_i depends new_names_all = Raised IndexError.
Proof.
  induction depends as [|old_crd rest IH]; intros c_i acc Hne Hlen;
    [contradiction|].
  simpl. simpl in Hlen. unfold index. rewrite Nat2Z.id.
  destruct c_i as [|[|c_i]]; simpl; try reflexivity;
    (destruct rest; [simpl in Hlen; lia|]);
    apply IH; try discriminate; simpl in *; lia.
Qed.

Lemma rename_all_returns depends_on (old_names : list string) :
  forall new_names_all,
    (forall old_n, In old_n old_names ->
       exists depends, depends_on old_n = Return depends
                       /\ (length depends <= 2)%nat) ->
    exists renamed,
      rename_all depends_on old_names new_names_all = Return renamed.
Proof.
  induction old_names as [|old_n rest IH]; intros acc Hdeps; simpl;
    [eauto|].
  destruct (Hdeps old_n (or_introl eq_refl)) as (depends & -> & Hlen).
  simpl.
  destruct (rename_coordinates_returns depends 0 acc Hlen) as (acc' & ->).
  simpl. apply IH. intros n Hn. apply Hdeps. now right.
Qed.

Lemma rename_all_raises depends_on (old_names : list string) :
  forall new_names_all,
    (forall old_n, In old_n old_names ->
       exists depends, depends_on old_n = Return depends) ->
    (exists old_n depends,
       In old_n old_names /\ depends_on old_n = Return depends
       /\ (2 < length depends)%nat) ->
    rename_all depends_on old_names new_names_all = Raised IndexError.
Proof.
  induction old_names as [|old_n rest IH]; intros acc Hdeps Hbad.
  - now destruct Hbad as (n & d & [] & _).
  - simpl. destruct (Hdeps old_n (or_introl eq_refl)) as (depends & Hd).
    rewrite Hd. simpl.
    destruct (le_lt_dec (length depends) 2) as [Hle|Hgt].
    + destruct (rename_coordinates_returns depends 0 acc Hle) as (acc' & ->).
      simpl. apply IH; [intros n Hn; apply Hdeps; now right|].
      destruct Hbad as (n & d & [<-|Hn] & Hnd & Hlen).
      * rewrite Hd in Hnd. injection Hnd as <-. lia.
      * eauto.
    + rewrite rename_coordinates_raises; [reflexivity| |simpl; lia].
      intros ->. simpl in Hgt. lia.
Qed.

(** The names [_rename_xarray_variables] goes through are the data
    variables of the readout methods. *)
Lemma renamed_variables (readout_methods : list (string * string)) :
  forall new_names old_n,
    In old_n
      (map fst
         (fold_left (fun acc kv => dict_set String.eqb (snd kv) (fst kv) acc)
            readout_methods new_names)) <->
    In old_n (map fst new_names) \/ In old_n (map snd readout_methods).
Proof.
  induction readout_methods as [|[new old] rest IH]; intros acc n; simpl;
    [tauto|].
  rewrite IH.
  destruct (in_dec String.string_dec old (map fst acc)) as [Hin|Hin].
  - rewrite keys_dict_set_present by exact Hin.
    split; [tauto|]. intros [H|[<-|H]]; tauto.
  - rewrite keys_dict_set_absent by exact Hin. rewrite in_app_iff. simpl.
    tauto.
Qed.

(** The voltage coordinates have two names, [voltage_x] and
    [voltage_y]. When the setpoints of every data variable of the
    readout methods can be read, the renaming is built exactly when no
    variable has more than two of them; one variable with three
    setpoints ends the call, and so the load, with an IndexError. *)
Theorem rename_xarray_variables_two_setpoints :
  forall (readout_methods : list (string * string))
         (depends_on : string -> outcome (list string)),
    (forall old_n, In old_n (map snd readout_methods) ->
       exists depends, depends_on old_n = Return depends) ->
    ((forall old_n depends,
        In old_n (map snd readout_methods) ->
        depends_on old_n = Return depends -> (length depends <= 2)%nat) ->
     exists new_names_all,
       _rename_xarray_variables readout_methods depends_on =
       Return new_names_all)
    /\ ((exists old_n depends,
           In old_n (map snd readout_methods)
           /\ depends_on old_n = Return depends
           /\ (2 < length depends)%nat) ->
        _rename_xarray_variables readout_methods depends_on =
        Raised IndexError).
Proof.
  intros readout_methods depends_on Hread. unfold _rename_xarray_variables.
  split.
  - intros Hshort. apply rename_all_returns. intros old_n Hn.
    apply renamed_variables in Hn. destruct Hn as [[]|Hn].
    destruct (Hread old_n Hn) as (depends & Hd). eauto.
  - intros (old_n & depends & Hn & Hd & Hlen). apply rename_all_raises.
    + intros n Hin. apply renamed_variables in Hin.
      destruct Hin as [[]|Hin]. now apply Hread.
    + exists old_n, depends. split; [|now split].
      apply renamed_variables. now right.
Qed.

Lemma rename_xarray_variables_two_setpoints_witness :
  let depends_on := fun old_n : string =>
    if String.eqb old_n "current" then Return ["v_left"; "v_right"]
    else Return ["v_left"; "v_right"; "v_top"] in
  (exists new_names_all,
     _rename_xarray_variables [("transport", "current")] depends_on =
     Return new_names_all)
  /\ _rename_xarray_variables
       [("transport", "current"); ("sensing", "sensor")] depends_on =
     Raised IndexError.
Proof.
  intros depends_on. split.
  - apply (rename_xarray_variables_two_setpoints
             [("transport", "current")] depends_on).
    + intros old_n [<-|[]]. eexists. reflexivity.
    + intros old_n depends [<-|[]] Hd. injection Hd as <-. simpl. lia.
  - apply (rename_xarray_variables_two_setpoints
             [("transport", "current"); ("sensing", "sensor")] depends_on).
    + intros old_n [<-|[<-|[]]]; eexists; reflexivity.
    + exists "sensor", ["v_left"; "v_right"; "v_top"].
      split; [right; now left|]. split; [reflexivity|]. simpl. lia.
Defined.
End DatasetRename.

Section DatasetRenameMap.
Import Dataset.

Lemma new_names_other (readout_methods : list (string * string)) :
  forall new_names k,
    ~ In k (map snd readout_methods) ->
    assoc k
      (fold_left (fun acc kv => dict_set String.eqb (snd kv) (fst kv) acc)
         readout_methods new_names) = assoc k new_names.
Proof.
  induction readout_methods as [|[new old] rest IH]; intros acc k Hk; simpl;
    [reflexivity|].
  simpl in Hk. rewrite IH by tauto. rewrite assoc_dict_set.
  destruct (String.eqb_spec k old) as [->|_]; [tauto|reflexivity].
Qed.

Lemma new_names_entry (readout_methods : list (string * string)) :
  forall new_names new old,
    NoDup (map snd readout_methods) ->
    In (new, old) readout_methods ->
    assoc old
      (fold_left (fun acc kv => dict_set String.eqb (snd kv) (fst kv) acc)
         readout_methods new_names) = Some new.
Proof.
  induction readout_methods as [|[new0 old0] rest IH];
    intros acc new old Hnd Hin; [destruct Hin|].
  simpl in Hnd. apply NoDup_cons in Hnd. destruct Hnd as [Hold Hnd]. simpl.
  destruct Hin as [Heq|Hin].
  - injection Heq as -> ->. rewrite new_names_other.
    + rewrite assoc_dict_set. now rewrite String.eqb_refl.
    + intros Hin. apply Hold. now apply list_elem_of_In.
  - now apply IH.
Qed.

Lemma rename_coordinates_map (depends : list string) :
  forall c_i new_names_all,
    NoDup depends ->
    (c_i + length depends <= 2)%nat ->
    exists renamed,
      rename_coordinates c_i depends new_names_all = Return renamed
      /\ (forall i old_crd,
            depends !! i = Some old_crd ->
            assoc old_crd renamed =
            default_coord_names "voltage" !! (c_i + i)%nat)
      /\ (forall k, ~ In k depends -> assoc k renamed = assoc k new_names_all)
      /\ (forall k, In k (map fst renamed) ->
            In k (map fst new_names_all) \/ In k depends).
Proof.
  induction depends as [|old_crd rest IH]; intros c_i acc Hnd Hlen.
  - exists acc. split; [reflexivity|]. split; [intros i c Hc; discriminate|].
    split; [reflexivity|]. tauto.
  - apply NoDup_cons in Hnd. destruct Hnd as [Hfresh Hnd].
    simpl in Hlen. simpl. unfold index. rewrite Nat2Z.id.
    destruct (default_coord_names "voltage" !! c_i) as [n|] eqn:Hn.
    2:{ apply lookup_ge_None in Hn. simpl in Hn. lia. }
    simpl.
    destruct (IH (S c_i) (dict_set String.eqb old_crd n acc) Hnd)
      as (renamed & -> & Hcoords & Hother & Hkeys); [lia|].
    exists renamed. split; [reflexivity|]. split; [|split].
    + intros [|i] c Hc.
      * injection Hc as <-. rewrite Hother.
        -- rewrite assoc_dict_set, String.eqb_refl, Nat.add_0_r.
           now rewrite Hn.
        -- intros Hin. apply Hfresh. now apply list_elem_of_In.
      * rewrite (Hcoords i c Hc). f_equal. lia.
    + intros k Hk. rewrite Hother by (intros Hin; apply Hk; now right).
      rewrite assoc_dict_set.
      destruct (String.eqb_spec k old_crd) as [->|_]; [|reflexivity].
      exfalso. apply Hk. now left.
    + intros k Hk. apply Hkeys in Hk. destruct Hk as [Hk|Hk]; [|simpl; tauto].
      destruct (in_dec String.string_dec old_crd (map fst acc)) as [Hin|Hin].
      * rewrite keys_dict_set_present in Hk by exact Hin. now left.
      * rewrite keys_dict_set_absent in Hk by exact Hin.
        apply in_app_iff in Hk. destruct Hk as [Hk|[<-|[]]]; [now left|].
        right. now left.
Qed.

Lemma rename_all_map depends_on (depends old_names : list string) :
  forall new_names_all,
    NoDup depends ->
    (length depends <= 2)%nat ->
    (forall old_n, In old_n old_names -> depends_on old_n = Return depends) ->
    exists renamed,
      rename_all depends_on old_names new_names_all = Return renamed
      /\ (old_names <> []
          \/ (forall i old_crd,
                depends !! i = Some old_crd ->
                assoc old_crd new_names_all =
                default_coord_names "voltage" !! i) ->
          forall i old_crd,
            depends !! i = Some old_crd ->
            assoc old_crd renamed = default_coord_names "voltage" !! i)
      /\ (forall k, ~ In k depends -> assoc k renamed = assoc k new_names_all)
      /\ (forall k, In k (map fst renamed) ->
            In k (map fst new_names_all) \/ In k depends).
Proof.
  induction old_names as [|old_n rest IH]; intros acc Hnd Hlen Hdeps.
  - exists acc. split; [reflexivity|]. split; [|split; [reflexivity|tauto]].
    intros [Hne|Hacc]; [contradiction|exact Hacc].
  - simpl. rewrite (Hdeps old_n (or_introl eq_refl)). simpl.
    destruct (rename_coordinates_map depends 0 acc Hnd Hlen)
      as (acc1 & -> & Hcoords & Hother & Hkeys).
    simpl.
    destruct (IH acc1 Hnd Hlen) as (renamed & -> & Hc2 & Ho2 & Hk2).
    { intros n Hn. apply Hdeps. now right. }
    exists renamed. split; [reflexivity|]. split; [|split].
    + intros _. apply Hc2. right. exact Hcoords.
    + intros k Hk. now rewrite Ho2, Hother.
    + intros k Hk. apply Hk2 in Hk. destruct Hk as [Hk|Hk]; [|now right].
      now apply Hkeys.
Qed.

(** The renaming of a measurement whose data variables share their
    setpoints, at most two, as the variables of one sweep do. With no
    data variable named twice or named like a setpoint, each data
    variable is renamed to its readout method, the first setpoint to
    [voltage_x] and the second to [voltage_y], and nothing else is
    renamed. *)
Theorem rename_xarray_variables_of_one_sweep :
  forall (readout_methods : list (string * string))
         (depends_on : string -> outcome (list string))
         (depends : list string),
    readout_methods <> [] ->
    NoDup (map snd readout_methods) ->
    NoDup depends ->
    (length depends <= 2)%nat ->
    (forall old_n, In old_n (map snd readout_methods) ->
       depends_on old_n = Return depends /\ ~ In old_n depends) ->
    exists new_names_all,
      _rename_xarray_variables readout_methods depends_on =
      Return new_names_all
      /\ (forall new old, In (new, old) readout_methods ->
            assoc old new_names_all = Some new)
      /\ (forall i old_crd,
            depends !! i = Some old_crd ->
            assoc old_crd new_names_all = ["voltage_x"; "voltage_y"] !! i)
      /\ (forall k, In k (map fst new_names_all) ->
            In k (map snd readout_methods) \/ In k depends).
Proof.
  intros readout_methods depends_on depends Hne Hnd Hndd Hlen Hvars.
  unfold _rename_xarray_variables.
  set (new_names :=
         fold_left (fun acc kv => dict_set String.eqb (snd kv) (fst kv) acc)
           readout_methods []).
  assert (Hkeys0 : forall k, In k (map fst new_names) <->
                        In k (map snd readout_methods)).
  { intros k. unfold new_names. rewrite renamed_variables. simpl. tauto. }
  destruct (rename_all_map depends_on depends (map fst new_names) new_names
              Hndd Hlen) as (renamed & -> & Hcoords & Hother & Hkeys).
  { intros old_n Hn. apply Hkeys0 in Hn. now apply Hvars. }
  exists renamed. split; [reflexivity|]. split; [|split].
  - intros new old Hin.
    assert (Hold : In old (map snd readout_methods))
      by (apply in_map_iff; now exists (new, old)).
    rewrite Hother by now apply Hvars.
    now apply new_names_entry.
  - apply Hcoords. left. destruct readout_methods as [|[new old] rest];
      [contradiction|].
    intros Hnil.
    assert (Hin : In old (map fst new_names))
      by (apply Hkeys0; now left).
    rewrite Hnil in Hin. destruct Hin.
  - intros k Hk. apply Hkeys in Hk. destruct Hk as [Hk|Hk]; [|now right].
    left. now apply Hkeys0.
Qed.
End DatasetRenameMap.

Section DatasetRenameSample.
Import Dataset.

Lemma rename_xarray_variables_of_one_sweep_witness :
  let readout_methods := [("transport", "current"); ("sensing", "sensor")] in
  let depends := ["v_left"; "v_right"] in
  exists new_names_all,
    _rename_xarray_variables readout_methods (fun _ => Return depends) =
    Return new_names_all
    /\ (forall new old, In (new, old) readout_methods ->
          assoc old new_names_all = Some new)
    /\ (forall i old_crd,
          depends !! i = Some old_crd ->
          assoc old_crd new_names_all = ["voltage_x"; "voltage_y"] !! i)
    /\ (forall k, In k (map fst new_names_all) ->
          In k (map snd readout_methods) \/ In k depends).
Proof.
  intros readout_methods depends.
  apply (rename_xarray_variables_of_one_sweep readout_methods
           (fun _ => Return depends) depends).
  - discriminate.
  - apply (bool_decide_unpack _). vm_compute. exact Logic.I.
  - apply (bool_decide_unpack _). vm_compute. exact Logic.I.
  - simpl. lia.
  - intros old_n Hn. split; [reflexivity|].
    intros Hd. destruct Hn as [<-|[<-|[]]];
      destruct Hd as [Hd|[Hd|[]]]; discriminate Hd.
Defined.
End DatasetRenameSample.
